(** * ZipStream: the ZIP64 end-of-archive records and their discovery

    A shallow embedding of [src/xPlatAppx/ZipStream.cpp] (namespace
    [xPlat]): the record classes built on [Meta::StructuredObject]
    (LocalFileHeader, CentralFileHeader, Zip64EndOfCentralDirectoryRecord,
    Zip64EndOfCentralDirectoryLocator, EndCentralDirectoryRecord), and
    [ZipStream::Read] / [ZipStream::GetFileNames].

    Integers of the C++ code are [Z] with the conversion to their width
    written out ([wrap]); byte buffers ([std::vector<std::uint8_t>]) are
    [list byte]; [std::string] is [string].  Exceptions are the left
    summand of a sum; mutable state (the stream cursor, the field values of
    an object) is passed explicitly and survives a throw. *)

From Stdlib Require Import ZArith List Lia Bool.
From Stdlib Require Import Init.Byte Strings.Byte Strings.String.
From stdpp Require Import base list.

Local Open Scope Z_scope.

(** ** Machine integers and the little-endian wire format *)

Definition wrap (width : Z) (v : Z) : Z := v mod 2 ^ width.

Definition UINT16_MAX : Z := 65535.
Definition UINT32_MAX : Z := 4294967295.

Definition byte_to_Z (b : byte) : Z := Z.of_N (Byte.to_N b).

Definition byte_of_Z (v : Z) : byte :=
  match Byte.of_N (Z.to_N (v mod 256)) with
  | Some b => b
  | None => x00
  end.

(** Value of a byte sequence read as an unsigned little-endian integer. *)
Fixpoint le_decode (bs : list byte) : Z :=
  match bs with
  | [] => 0
  | b :: rest => byte_to_Z b + 256 * le_decode rest
  end.

(** The [n] low-order bytes of [v], least significant first. *)
Fixpoint le_encode (n : nat) (v : Z) : list byte :=
  match n with
  | O => []
  | S k => byte_of_Z v :: le_encode k (v / 256)
  end.

(** ** Exceptions

    [ZipException::Error] as used by [ZipStream.cpp].  [StreamError] is not
    a [ZipException]: it stands for the failure the byte stream reports
    when a seek or a read cannot be served. *)
Inductive Error : Type :=
| InvalidHeader
| FieldOutOfRange
| InvalidEndOfCentralDirectoryRecord
| InvalidZip64CentralDirectoryLocator
| InvalidZip64CentralDirectoryRecord
| StreamError.

#[global] Instance Error_eq_dec : EqDecision Error.
Proof. solve_decision. Defined.

(** A computation over a state [S] that either throws or returns an [A];
    the state reached is kept in both cases. *)
Definition M (S A : Type) : Type := S -> (Error + A) * S.

Definition ret {S A} (a : A) : M S A := fun s => (inr a, s).
Definition throw {S A} (e : Error) : M S A := fun s => (inl e, s).
Definition bind {S A B} (m : M S A) (k : A -> M S B) : M S B :=
  fun s => match m s with
           | (inl e, s') => (inl e, s')
           | (inr a, s') => k a s'
           end.

Declare Scope zip_scope.
Delimit Scope zip_scope with zip.
Notation "'do' x <- m ; k" := (bind m (fun x => k))
  (at level 10, x name, m at level 100, k at level 200) : zip_scope.
Notation "'run' m ; k" := (bind m (fun _ => k))
  (at level 10, m at level 100, k at level 200) : zip_scope.

(** ** The byte stream *)

Module StreamBase.

(** [StreamBase.hpp] is not among the sources.  Section 6 of the
    specification gives the interface of the byte stream: [seek(offset,
    origin)], [read(buffer, length)], [write(buffer, length)] and
    [tell()], with 64-bit offsets. *)

(** Modelled from the spec: the class [StreamBase], as the content of the
    stream and its cursor. *)
Record Stream : Type := mkStream {
  content : list byte;
  offset : Z
}.

(** Modelled from the spec: [StreamBase::Reference], the origin of a seek:
    Start, Current or End. *)
Inductive Reference : Type := START | CURRENT | END.

Definition size (s : Stream) : Z := Z.of_nat (length (content s)).

(** Modelled from the spec: [StreamBase::Seek].  Negative deltas from
    End are permitted; a seek to a position before the first byte fails,
    one past the last byte does not. *)
Definition Seek (delta : Z) (origin : Reference) : M Stream unit :=
  fun s =>
    let base := match origin with
                | START => 0
                | CURRENT => offset s
                | END => size s
                end in
    if base + delta <? 0 then (inl StreamError, s)
    else (inr tt, mkStream (content s) (base + delta)).

(** Modelled from the spec: [StreamBase::Ftell], the absolute offset of
    the cursor. *)
Definition Ftell (s : Stream) : Z := offset s.

(** The [n] bytes found [k] bytes after the cursor. *)
Definition peek (s : Stream) (k n : Z) : list byte :=
  take (Z.to_nat n) (drop (Z.to_nat (offset s + k)) (content s)).

(** The stream with its cursor [n] bytes further. *)
Definition advance (n : Z) (s : Stream) : Stream :=
  mkStream (content s) (offset s + n).

(** Modelled from the spec: [StreamBase::Read].  The [n] bytes at the
    cursor, which moves past them; a read the content cannot serve in full
    fails (section 8: a stream of 0 bytes cannot be opened, insufficient
    bytes). *)
Definition Read (n : Z) : M Stream (list byte) :=
  fun s =>
    if (0 <=? offset s) && (offset s + n <=? size s)
    then (inr (peek s 0 n), advance n s)
    else (inl StreamError, s).

(** Modelled from the spec: [StreamBase::Write].  [data] replaces what
    the stream holds from the cursor on, or extends it; a gap before the
    cursor is filled with zeros. *)
Definition Write (data : list byte) : M Stream unit :=
  fun s =>
    if offset s <? 0 then (inl StreamError, s)
    else
      let at_ := Z.to_nat (offset s) in
      let before := take at_ (content s) ++ replicate (at_ - length (content s)) x00 in
      let after := drop (at_ + length data) (content s) in
      (inr tt, mkStream (before ++ data ++ after)
                        (offset s + Z.of_nat (length data))).

End StreamBase.

(** ** Fields and structured objects *)

Module Meta.
Local Open Scope zip_scope.

(** [ObjectBase.hpp] ([Meta::Object], [Meta::Field2Bytes],
    [Meta::Field4Bytes], [Meta::Field8Bytes], [Meta::FieldNBytes],
    [Meta::StructuredObject]) is not among the sources.  Sections 3, 4.1
    and 4.2 of the specification: a field has a fixed width of 2, 4 or 8
    bytes or is a byte buffer of variable width; reading it consumes
    exactly its current width, decodes a fixed field as an unsigned
    little-endian integer, then runs its validator; a record is the
    ordered list of its fields, read and written in declaration order, and
    reading stops at the first field that fails; its size is the sum of
    the current sizes of its fields. *)

(** Modelled from the spec: the value member of a field object, of type
    [std::uint16_t], [std::uint32_t], [std::uint64_t] or
    [std::vector<std::uint8_t>] as the [GetValue<T>] calls of
    [ZipStream.cpp] have it. *)
Inductive Value : Type :=
| u16 (v : Z)
| u32 (v : Z)
| u64 (v : Z)
| vec (data : list byte).

Abbreviation Values := (list Value).

(** Modelled from the spec: the validator of a field, the lambda given to
    its constructor.  It receives the decoded value and, through its
    captured [this], reaches the values of the whole record, which it may
    change (resize). *)
Definition Lambda (T : Type) : Type := T -> M Values unit.

(** Modelled from the spec: the field classes [Meta::Field2Bytes],
    [Meta::Field4Bytes], [Meta::Field8Bytes] and [Meta::FieldNBytes], each
    with its validator. *)
Inductive Object : Type :=
| Field2Bytes (validate : Lambda Z)
| Field4Bytes (validate : Lambda Z)
| Field8Bytes (validate : Lambda Z)
| FieldNBytes (validate : Lambda (list byte)).

(** Modelled from the spec: [Meta::StructuredObject], a record: the field
    objects of its initialiser list, and the values they currently hold,
    position by position. *)
Record StructuredObject : Type := mkObject {
  fields : list Object;
  values :> Values
}.

(** [if (c) throw ZipException(..., e);] *)
Definition throw_if (c : bool) (e : Error) : M Values unit :=
  if c then throw e else ret tt.

(** Modelled from the spec: [Meta::Object::GetValue<T>(Field(i))], the
    value of the field at position [i] read at type [T]. *)
Definition GetValue16 (i : nat) (this : Values) : Z :=
  match this !! i with Some (u16 v) => v | _ => 0 end.
Definition GetValue32 (i : nat) (this : Values) : Z :=
  match this !! i with Some (u32 v) => v | _ => 0 end.
Definition GetValue64 (i : nat) (this : Values) : Z :=
  match this !! i with Some (u64 v) => v | _ => 0 end.
Definition GetValueN (i : nat) (this : Values) : list byte :=
  match this !! i with Some (vec d) => d | _ => [] end.

(** Modelled from the spec: [Meta::Object::SetValue(Field(i), value)],
    the value being converted to the type of the setter's parameter. *)
Definition SetValue (i : nat) (v : Value) (this : StructuredObject)
  : StructuredObject :=
  mkObject (fields this) (<[i := v]> (values this)).
Definition SetValue16 (i : nat) (value : Z) := SetValue i (u16 (wrap 16 value)).
Definition SetValue32 (i : nat) (value : Z) := SetValue i (u32 (wrap 32 value)).
Definition SetValue64 (i : nat) (value : Z) := SetValue i (u64 (wrap 64 value)).

(** [GetValue<std::vector<std::uint8_t>>(Field(i))->resize(n, 0)] *)
Definition resize_vec (i : nat) (n : Z) : M Values unit :=
  fun this =>
    (inr tt, <[i := vec (resize (Z.to_nat n) x00 (GetValueN i this))]> this).

(** Modelled from the spec: [Size()] of a field, its current width in
    bytes. *)
Definition Value_Size (v : Value) : Z :=
  match v with
  | u16 _ => 2
  | u32 _ => 4
  | u64 _ => 8
  | vec d => Z.of_nat (length d)
  end.

(** Modelled from the spec: [StructuredObject::Size()], the sum of the
    sizes of the fields, computed when called. *)
Definition Size (this : Values) : Z :=
  foldr (fun v acc => Value_Size v + acc) 0 this.

(** Modelled from the spec: the content of a field's storage before
    anything is assigned to it.  The integer members are not initialised by
    the constructors of [ZipStream.cpp], and the specification leaves them
    undefined before a read; what they hold then is [junk i], cut to the
    field's width.  A vector starts empty. *)
Definition fresh (junk : nat -> Z) (fs : list Object) : Values :=
  imap (fun i f => match f with
                   | Field2Bytes _ => u16 (wrap 16 (junk i))
                   | Field4Bytes _ => u32 (wrap 32 (junk i))
                   | Field8Bytes _ => u64 (wrap 64 (junk i))
                   | FieldNBytes _ => vec []
                   end) fs.

(** Modelled from the spec: the constructor of [Meta::StructuredObject]
    from an initialiser list of fields. *)
Definition construct (junk : nat -> Z) (fs : list Object) : StructuredObject :=
  mkObject fs (fresh junk fs).

(** Modelled from the spec: [Read()] of a fixed-width field: [width]
    bytes, decoded, stored, then validated. *)
Definition read_fixed (width : Z) (store : Z -> Value) (validate : Lambda Z)
    (i : nat) : M (Values * StreamBase.Stream) unit :=
  fun '(this, s) =>
    match StreamBase.Read width s with
    | (inl e, s') => (inl e, (this, s'))
    | (inr b, s') =>
        let v := le_decode b in
        let '(r, this') := validate v (<[i := store v]> this) in
        (r, (this', s'))
    end.

(** Modelled from the spec: [Read()] of a variable-width field: as many
    bytes as its vector holds at that moment, stored, then validated. *)
Definition read_vec (validate : Lambda (list byte)) (i : nat)
  : M (Values * StreamBase.Stream) unit :=
  fun '(this, s) =>
    match StreamBase.Read (Z.of_nat (length (GetValueN i this))) s with
    | (inl e, s') => (inl e, (this, s'))
    | (inr b, s') =>
        let '(r, this') := validate b (<[i := vec b]> this) in
        (r, (this', s'))
    end.

(** Modelled from the spec: [Object::Read()] of the field at position
    [i]. *)
Definition Object_Read (f : Object) (i : nat) : M (Values * StreamBase.Stream) unit :=
  match f with
  | Field2Bytes validate => read_fixed 2 u16 validate i
  | Field4Bytes validate => read_fixed 4 u32 validate i
  | Field8Bytes validate => read_fixed 8 u64 validate i
  | FieldNBytes validate => read_vec validate i
  end.

(** Modelled from the spec: the fields read in declaration order from
    position [i] on, up to the first that throws. *)
Fixpoint Read_from (i : nat) (fs : list Object) : M (Values * StreamBase.Stream) unit :=
  match fs with
  | [] => ret tt
  | f :: rest => run Object_Read f i; Read_from (S i) rest
  end.

(** Modelled from the spec: [StructuredObject::Read()]. *)
Definition Read : M (StructuredObject * StreamBase.Stream) unit :=
  fun '(this, s) =>
    let '(r, (vs, s')) := Read_from 0 (fields this) (values this, s) in
    (r, (mkObject (fields this) vs, s')).

(** Modelled from the spec: the bytes a field writes, its value in the
    layout it is read in. *)
Definition Value_bytes (v : Value) : list byte :=
  match v with
  | u16 x => le_encode 2 x
  | u32 x => le_encode 4 x
  | u64 x => le_encode 8 x
  | vec d => d
  end.

(** Modelled from the spec: the fields written in declaration order. *)
Fixpoint Write_from (vs : list Value) : M StreamBase.Stream unit :=
  match vs with
  | [] => ret tt
  | v :: rest => run StreamBase.Write (Value_bytes v); Write_from rest
  end.

(** Modelled from the spec: [StructuredObject::Write()]. *)
Definition Write : M (StructuredObject * StreamBase.Stream) unit :=
  fun '(this, s) =>
    let '(r, s') := Write_from (values this) s in
    (r, (this, s')).

End Meta.

Import Meta.
Local Open Scope zip_scope.

Definition neqb (a b : Z) : bool := negb (a =? b).
Infix "!=?" := neqb (at level 70, no associativity) : Z_scope.

(** ** Constants of [ZipStream.cpp] *)

Module MagicNumbers.
Definition Zip64MinimumVersion : Z := 45.
Definition Zip32DefaultVersion : Z := 20.
End MagicNumbers.

Module Signatures.
Definition LocalFileHeader : Z := 0x04034b50.
Definition DataDescriptor : Z := 0x08074b50.
Definition CentralFileHeader : Z := 0x02014b50.
Definition Zip64EndOfCD : Z := 0x06064b50.
Definition Zip64EndOfCDLocator : Z := 0x07064b50.
Definition EndOfCentralDirectory : Z := 0x06054b50.
End Signatures.

Module CompressionType.
Definition Store : Z := 0.
Definition Deflate : Z := 8.
End CompressionType.

(** [std::string(data.begin(), data.end())] and the converse
    [data.assign(name.begin(), name.end())]. *)
Definition string_of_vec (data : list byte) : string := string_of_list_byte data.
Definition vec_of_string (s : string) : list byte := list_byte_of_string s.

(** [static_cast<std::uint16_t>(s.size())] *)
Definition size16 (s : string) : Z := wrap 16 (Z.of_nat (String.length s)).

(** ** class LocalFileHeader *)

Module LocalFileHeader.

Definition GetFileNameLength (this : Values) : Z := GetValue16 9 this.
Definition SetFileNameLength (value : Z) := SetValue16 9 value.

Definition GetExtraFieldLength (this : Values) : Z := GetValue16 10 this.
Definition SetExtraFieldLength (value : Z) := SetValue16 10 value.

Definition GetCompressedSize (this : Values) : Z := GetValue32 7 this.
Definition SetCompressedSize (value : Z) := SetValue32 7 value.

Definition GetUncompressedSize (this : Values) : Z := GetValue32 8 this.
Definition SetUncompressedSize (value : Z) := SetValue32 8 value.

Definition GetFileName (this : Values) : string :=
  let data := GetValueN 11 this in
  string_of_vec data.

(** [auto data = *GetValue<...>(Field(11))] copies the buffer: [data] is
    a local vector, resized and assigned, and dropped at the end of the
    body.  Only the call of [SetFileNameLength] reaches the object. *)
Definition SetFileName (name : string) (this : StructuredObject)
  : StructuredObject :=
  let data := GetValueN 11 this in
  let data := resize (String.length name) x00 data in
  let data := vec_of_string name in
  SetFileNameLength (size16 name) this.

Definition fields : list Object := [
  (* 0 - local file header signature     4 bytes(0x04034b50) *)
  Field4Bytes (fun v =>
    throw_if (v !=? Signatures.LocalFileHeader) InvalidHeader);
  (* 1 - version needed to extract       2 bytes *)
  Field2Bytes (fun v => ret tt);
  (* 2 - general purpose bit flag        2 bytes *)
  Field2Bytes (fun v => ret tt);
  (* 3 - compression method              2 bytes *)
  Field2Bytes (fun v => ret tt);
  (* 4 - last mod file time              2 bytes *)
  Field2Bytes (fun v => ret tt);
  (* 5 - last mod file date              2 bytes *)
  Field2Bytes (fun v => ret tt);
  (* 6 - crc - 32                        4 bytes *)
  Field4Bytes (fun v => ret tt);
  (* 7 - compressed size                 4 bytes *)
  Field4Bytes (fun v => ret tt);
  (* 8 - uncompressed size               4 bytes *)
  Field4Bytes (fun v => ret tt);
  (* 9 - file name length                2 bytes *)
  Field2Bytes (fun v this =>
    (run throw_if (UINT16_MAX <? GetFileNameLength this) FieldOutOfRange;
     resize_vec 11 (GetFileNameLength this)) this);
  (* 10- extra field length              2 bytes *)
  Field2Bytes (fun v this =>
    (run throw_if (UINT16_MAX <? GetExtraFieldLength this) FieldOutOfRange;
     resize_vec 12 (GetExtraFieldLength this)) this);
  (* 11- file name (variable size) *)
  FieldNBytes (fun data => ret tt);
  (* 12- extra field (variable size) *)
  FieldNBytes (fun data => ret tt)
].

(** [LocalFileHeader(StreamBase* stream)]: an empty constructor body. *)
Definition new (junk : nat -> Z) : StructuredObject := construct junk fields.

End LocalFileHeader.

(** ** class DataDescriptor *)

Module DataDescriptor.

Definition GetCrc32 (this : Values) : Z := GetValue32 0 this.
Definition SetCrc32 (value : Z) := SetValue32 0 value.

Definition GetCompressedSize (this : Values) : Z := GetValue32 1 this.
Definition SetCompressedSize (value : Z) := SetValue32 1 value.

Definition GetUncompressedSize (this : Values) : Z := GetValue32 2 this.
Definition SetUncompressedSize (value : Z) := SetValue32 2 value.

Definition fields : list Object := [
  (* 0 - crc - 32                        4 bytes *)
  Field4Bytes (fun v => ret tt);
  (* 1 - compressed size                 4 bytes *)
  Field4Bytes (fun v => ret tt);
  (* 2 - uncompressed size               4 bytes *)
  Field4Bytes (fun v => ret tt)
].

Definition new (junk : nat -> Z) : StructuredObject := construct junk fields.

End DataDescriptor.

(** ** class CentralFileHeader

    [SetCrc], [GetExternalFileAttributes] and [SetExternalFileAttributes]
    access a 4-byte field at the type [std::uint16_t]; what they do
    depends on the byte order of the host and they are left out. *)

Module CentralFileHeader.

Definition GetSignature (this : Values) : Z := GetValue32 0 this.
Definition SetSignature (value : Z) := SetValue32 0 value.

Definition GetVersionMadeBy (this : Values) : Z := GetValue16 1 this.
Definition SetVersionMadeBy (value : Z) := SetValue16 1 value.

Definition GetVersionNeededToExtract (this : Values) : Z := GetValue16 2 this.
Definition SetVersionNeededToExtract (value : Z) := SetValue16 2 value.

Definition GetGeneralPurposeBitFlag (this : Values) : Z := GetValue16 3 this.
Definition SetGeneralPurposeBitFlag (value : Z) := SetValue16 3 value.

Definition GetCompressionMethod (this : Values) : Z := GetValue16 4 this.
Definition SetCompressionMethod (value : Z) := SetValue16 4 value.

Definition GetLastModFileTime (this : Values) : Z := GetValue16 5 this.
Definition SetLastModFileTime (value : Z) := SetValue16 5 value.

Definition GetLastModFileDate (this : Values) : Z := GetValue16 6 this.
Definition SetLastModFileDate (value : Z) := SetValue16 6 value.

Definition GetCrc32 (this : Values) : Z := GetValue32 7 this.

Definition GetCompressedSize (this : Values) : Z := GetValue32 8 this.
Definition SetCompressedSize (value : Z) := SetValue32 8 value.

Definition GetUncompressedSize (this : Values) : Z := GetValue32 9 this.
Definition SetUncompressedSize (value : Z) := SetValue32 9 value.

Definition GetFileNameLength (this : Values) : Z := GetValue16 10 this.
Definition SetFileNameLength (value : Z) := SetValue16 10 value.

Definition GetExtraFieldLength (this : Values) : Z := GetValue16 11 this.
Definition SetExtraFieldLength (value : Z) := SetValue16 11 value.

Definition GetFileCommentLength (this : Values) : Z := GetValue16 12 this.
Definition SetFileCommentLength (value : Z) := SetValue16 12 value.

Definition GetDiskNumberStart (this : Values) : Z := GetValue16 13 this.
Definition SetDiskNumberStart (value : Z) := SetValue16 13 value.

Definition GetInternalFileAttributes (this : Values) : Z := GetValue16 14 this.
Definition SetInternalFileAttributes (value : Z) := SetValue16 14 value.

(* 16 - relative offset of local header 4 bytes *)
Definition GetRelativeOffsetOfLocalHeader (this : Values) : Z := GetValue32 16 this.
Definition SetRelativeOffsetOfLocalHeader (value : Z) := SetValue32 16 value.

Definition GetFileName (this : Values) : string :=
  string_of_vec (GetValueN 17 this).

(** Here [data] is the pointer [GetValue] returns: [resize] and [assign]
    act on the field itself. *)
Definition SetFileName (name : string) (this : StructuredObject)
  : StructuredObject :=
  let this := SetValue 17 (vec (resize (String.length name) x00 (GetValueN 17 this))) this in
  let this := SetValue 17 (vec (vec_of_string name)) this in
  SetFileNameLength (size16 name) this.

Definition GetExtraField (this : Values) : string :=
  string_of_vec (GetValueN 18 this).

Definition SetExtraField (extra : string) (this : StructuredObject)
  : StructuredObject :=
  let this := SetValue 18 (vec (resize (String.length extra) x00 (GetValueN 18 this))) this in
  let this := SetValue 18 (vec (vec_of_string extra)) this in
  SetExtraFieldLength (size16 extra) this.

Definition GetComment (this : Values) : string :=
  string_of_vec (GetValueN 19 this).

Definition SetComment (comment : string) (this : StructuredObject)
  : StructuredObject :=
  let this := SetValue 19 (vec (resize (String.length comment) x00 (GetValueN 19 this))) this in
  let this := SetValue 19 (vec (vec_of_string comment)) this in
  SetExtraFieldLength (size16 comment) this.

Definition fields : list Object := [
  (* 0 - central file header signature   4 bytes(0x02014b50) *)
  Field4Bytes (fun v =>
    throw_if (v !=? Signatures.CentralFileHeader) InvalidHeader);
  (* 1 - version made by                 2 bytes *)
  Field2Bytes (fun v => ret tt);
  (* 2 - version needed to extract       2 bytes *)
  Field2Bytes (fun v => ret tt);
  (* 3 - general purpose bit flag        2 bytes *)
  Field2Bytes (fun v => ret tt);
  (* 4 - compression method              2 bytes *)
  Field2Bytes (fun v => ret tt);
  (* 5 - last mod file time              2 bytes *)
  Field2Bytes (fun v => ret tt);
  (* 6 - last mod file date              2 bytes *)
  Field2Bytes (fun v => ret tt);
  (* 7 - crc - 32                        4 bytes *)
  Field4Bytes (fun v => ret tt);
  (* 8 - compressed size                 4 bytes *)
  Field4Bytes (fun v => ret tt);
  (* 9 - uncompressed size               4 bytes *)
  Field4Bytes (fun v => ret tt);
  (* 10 - file name length               2 bytes *)
  Field2Bytes (fun v this =>
    (run throw_if (UINT16_MAX <? GetFileNameLength this) FieldOutOfRange;
     resize_vec 17 (GetFileNameLength this)) this);
  (* 11 - extra field length             2 bytes *)
  Field2Bytes (fun v this =>
    (run throw_if (UINT16_MAX <? GetExtraFieldLength this) FieldOutOfRange;
     resize_vec 18 (GetExtraFieldLength this)) this);
  (* 12 - file comment length            2 bytes *)
  Field2Bytes (fun v this =>
    (run throw_if (UINT16_MAX <? GetFileCommentLength this) FieldOutOfRange;
     resize_vec 19 (GetFileCommentLength this)) this);
  (* 13 - disk number start              2 bytes *)
  Field2Bytes (fun v => ret tt);
  (* 14 - internal file attributes       2 bytes *)
  Field2Bytes (fun v => ret tt);
  (* 15 - external file attributes       4 bytes *)
  Field4Bytes (fun v => ret tt);
  (* 16 - relative offset of local header 4 bytes *)
  Field4Bytes (fun v => ret tt);
  (* 17 - file name (variable size) *)
  FieldNBytes (fun data => ret tt);
  (* 18 - extra field (variable size) *)
  FieldNBytes (fun data => ret tt);
  (* 19 - file comment (variable size) *)
  FieldNBytes (fun data => ret tt)
].

Definition new (junk : nat -> Z) : StructuredObject := construct junk fields.

End CentralFileHeader.

(** ** class Zip64EndOfCentralDirectoryRecord *)

Module Zip64EndOfCentralDirectoryRecord.

Definition GetTotalNumberOfEntries (this : Values) : Z := GetValue64 6 this.
Definition SetTotalNumberOfEntries (value : Z) (this : StructuredObject)
  : StructuredObject :=
  let this := SetValue64 6 value this in
  SetValue64 7 value this.

Definition GetSizeOfCD (this : Values) : Z := GetValue64 8 this.
Definition SetSizeOfCD (value : Z) := SetValue64 8 value.

Definition GetOffsetfStartOfCD (this : Values) : Z := GetValue64 9 this.
Definition SetOffsetfStartOfCD (value : Z) := SetValue64 9 value.

(* private: *)
Definition SetSignature (value : Z) := SetValue32 0 value.
Definition SetGetSizeOfZip64CDRecord (value : Z) := SetValue64 1 value.
Definition SetVersionMadeBy (value : Z) := SetValue16 2 value.
Definition SetVersionNeededToExtract (value : Z) := SetValue16 3 value.
Definition SetNumberOfThisDisk (value : Z) := SetValue32 4 value.

(** The lambdas capture [this]; [this->maxOffset] is the member set from
    the constructor's argument.  [Size()] is at least 56, the fixed
    fields, so [Size() - 12] does not wrap. *)
Definition fields (maxOffset : Z) : list Object := [
  (* 0 - zip64 end of central dir signature 4 bytes(0x06064b50) *)
  Field4Bytes (fun v =>
    throw_if (v !=? Signatures.Zip64EndOfCD) InvalidHeader);
  (* 1 - size of zip64 end of central directory record 8 bytes *)
  Field8Bytes (fun v this =>
    (let size := Size this - 12 in
     throw_if (v !=? size) InvalidZip64CentralDirectoryRecord) this);
  (* 2 - version made by                 2 bytes *)
  Field2Bytes (fun v =>
    throw_if (v !=? MagicNumbers.Zip64MinimumVersion) InvalidZip64CentralDirectoryRecord);
  (* 3 - version needed to extract       2 bytes *)
  Field2Bytes (fun v =>
    throw_if (v !=? MagicNumbers.Zip64MinimumVersion) InvalidZip64CentralDirectoryRecord);
  (* 4 - number of this disk             4 bytes *)
  Field4Bytes (fun v =>
    throw_if (v !=? 0) InvalidZip64CentralDirectoryRecord);
  (* 5 - number of the disk with the start of the central directory  4 bytes *)
  Field4Bytes (fun v =>
    throw_if (v !=? 0) InvalidZip64CentralDirectoryRecord);
  (* 6 - total number of entries in the central directory on this disk  8 bytes *)
  Field8Bytes (fun v =>
    throw_if (v =? 0) InvalidZip64CentralDirectoryRecord);
  (* 7 - total number of entries in the central directory 8 bytes *)
  Field8Bytes (fun v this =>
    throw_if (v !=? GetTotalNumberOfEntries this) InvalidZip64CentralDirectoryRecord this);
  (* 8 - size of the central directory   8 bytes *)
  Field8Bytes (fun v =>
    throw_if ((v =? 0) || (maxOffset <? v)) InvalidZip64CentralDirectoryRecord);
  (* 9 - offset of start of central directory with respect to the starting disk number  8 bytes *)
  Field8Bytes (fun v =>
    throw_if ((v =? 0) || (maxOffset <? v)) InvalidZip64CentralDirectoryRecord);
  (* 10 - zip64 extensible data sector (variable size) *)
  FieldNBytes (fun data =>
    throw_if (negb (length data =? 0)%nat) InvalidZip64CentralDirectoryRecord)
].

(** [Zip64EndOfCentralDirectoryRecord(StreamBase* stream, std::uint64_t maxOffset)] *)
Definition new (junk : nat -> Z) (maxOffset : Z) : StructuredObject :=
  let this := construct junk (fields (wrap 64 maxOffset)) in
  let this := SetSignature Signatures.Zip64EndOfCD this in
  let this := SetGetSizeOfZip64CDRecord (Size this - 12) this in
  let this := SetVersionMadeBy MagicNumbers.Zip64MinimumVersion this in
  let this := SetVersionNeededToExtract MagicNumbers.Zip64MinimumVersion this in
  let this := SetNumberOfThisDisk 0 this in
  let this := SetTotalNumberOfEntries 0 this in
  SetValue 10 (vec (resize 0 x00 (GetValueN 10 this))) this.

End Zip64EndOfCentralDirectoryRecord.

(** ** class Zip64EndOfCentralDirectoryLocator *)

Module Zip64EndOfCentralDirectoryLocator.

Definition GetRelativeOffset (this : Values) : Z := GetValue64 2 this.
Definition SetRelativeOffset (value : Z) := SetValue64 2 value.

(* private: *)
Definition SetSignature (value : Z) := SetValue32 0 value.
Definition SetNumberOfDisk (value : Z) := SetValue32 1 value.
Definition SetTotalNumberOfDisks (value : Z) := SetValue32 3 value.

Definition fields (maxOffset : Z) : list Object := [
  (* 0 - zip64 end of central dir locator signature 4 bytes(0x07064b50) *)
  Field4Bytes (fun v =>
    throw_if (v !=? Signatures.Zip64EndOfCDLocator) InvalidHeader);
  (* 1 - number of the disk with the start of the zip64 end of central directory  4 bytes *)
  Field4Bytes (fun v =>
    throw_if (v !=? 0) InvalidZip64CentralDirectoryLocator);
  (* 2 - relative offset of the zip64 end of central directory record 8 bytes *)
  Field8Bytes (fun v =>
    throw_if (maxOffset <? v) InvalidZip64CentralDirectoryLocator);
  (* 3 - total number of disks           4 bytes *)
  Field4Bytes (fun v =>
    throw_if (v !=? 1) InvalidZip64CentralDirectoryLocator)
].

(** [Zip64EndOfCentralDirectoryLocator(StreamBase* stream, std::uint64_t maxOffset)] *)
Definition new (junk : nat -> Z) (maxOffset : Z) : StructuredObject :=
  let this := construct junk (fields (wrap 64 maxOffset)) in
  let this := SetSignature Signatures.Zip64EndOfCDLocator this in
  let this := SetNumberOfDisk 0 this in
  SetTotalNumberOfDisks 1 this.

End Zip64EndOfCentralDirectoryLocator.

(** ** class EndCentralDirectoryRecord *)

Module EndCentralDirectoryRecord.

(* private: *)
Definition SetSignature (value : Z) := SetValue32 0 value.
Definition SetNumberOfDisk (value : Z) := SetValue16 1 value.
Definition SetDiskStart (value : Z) := SetValue16 2 value.
Definition SetTotalNumberOfEntries (value : Z) := SetValue16 3 value.
Definition SetTotalEntriesInCentralDirectory (value : Z) := SetValue16 4 value.
Definition SetSizeOfCentralDirectory (value : Z) := SetValue32 5 value.
Definition SetOffsetOfCentralDirectory (value : Z) := SetValue32 6 value.
Definition SetCommentLength (value : Z) := SetValue16 7 value.

Definition fields : list Object := [
  (* 0 - end of central dir signature    4 bytes  (0x06054b50) *)
  Field4Bytes (fun v =>
    throw_if (v !=? Signatures.EndOfCentralDirectory) InvalidEndOfCentralDirectoryRecord);
  (* 1 - number of this disk             2 bytes *)
  Field2Bytes (fun v =>
    throw_if (v !=? 0) InvalidEndOfCentralDirectoryRecord);
  (* 2 - number of the disk with the start of the central directory  2 bytes *)
  Field2Bytes (fun v =>
    throw_if (v !=? 0) InvalidEndOfCentralDirectoryRecord);
  (* 3 - total number of entries in the central directory on this disk  2 bytes *)
  Field2Bytes (fun v =>
    throw_if (v !=? UINT16_MAX) InvalidEndOfCentralDirectoryRecord);
  (* 4 - total number of entries in the central directory           2 bytes *)
  Field2Bytes (fun v =>
    throw_if (v !=? UINT16_MAX) InvalidEndOfCentralDirectoryRecord);
  (* 5 - size of the central directory   4 bytes *)
  Field4Bytes (fun v =>
    throw_if (v !=? UINT32_MAX) InvalidEndOfCentralDirectoryRecord);
  (* 6 - offset of start of central directory with respect to the starting disk number  4 bytes *)
  Field4Bytes (fun v =>
    throw_if (v !=? UINT32_MAX) InvalidEndOfCentralDirectoryRecord);
  (* 7 - .ZIP file comment length        2 bytes *)
  Field2Bytes (fun v =>
    throw_if (v !=? 0) InvalidEndOfCentralDirectoryRecord);
  (* 8 - .ZIP file comment       (variable size) *)
  FieldNBytes (fun data =>
    throw_if (negb (length data =? 0)%nat) InvalidEndOfCentralDirectoryRecord)
].

(** [EndCentralDirectoryRecord(StreamBase* stream)] *)
Definition new (junk : nat -> Z) : StructuredObject :=
  let this := construct junk fields in
  let this := SetSignature Signatures.EndOfCentralDirectory this in
  let this := SetNumberOfDisk 0 this in
  let this := SetDiskStart 0 this in
  (* next 12 bytes need to be: FFFF FFFF  FFFF FFFF  FFFF FFFF *)
  let this := SetTotalNumberOfEntries UINT16_MAX this in
  let this := SetTotalEntriesInCentralDirectory UINT16_MAX this in
  let this := SetSizeOfCentralDirectory UINT32_MAX this in
  let this := SetOffsetOfCentralDirectory UINT32_MAX this in
  (* last 2 bytes need to be : 00 *)
  SetCommentLength 0 this.

End EndCentralDirectoryRecord.

(** ** class ZipStream *)

Module ZipStream.
Import StreamBase.

Section ZipStream.
(** [ZipStream.hpp] is not among the sources.  From [ZipStream.cpp] the
    object holds [stream] and [containedFiles], a container of pairs
    whose first component is the entry's name; [Entry] is the type of
    the second component, and the list gives the pairs in the order in
    which the container is iterated. *)
Variable Entry : Type.

Record t : Type := mk {
  stream : Stream;
  containedFiles : list (string * Entry)
}.

(** A call on [stream]. *)
Definition on_stream {A} (m : M Stream A) : M t A :=
  fun this =>
    let '(r, s) := m (stream this) in
    (r, mk s (containedFiles this)).

(** [object.Read()] for a local object bound to [stream]: the object as
    it is after a read without exception. *)
Definition read_object (object : StructuredObject) : M t StructuredObject :=
  fun this =>
    match Meta.Read (object, stream this) with
    | (inl e, (_, s)) => (inl e, mk s (containedFiles this))
    | (inr _, (object', s)) => (inr object', mk s (containedFiles this))
    end.

Variable junk : nat -> Z.

(** [ZipStream::Read()].  The seek deltas are the integers the
    expressions denote ([-1 * Size()] is minus the size); the second
    argument of the two Zip64 constructors is converted to
    [std::uint64_t]. *)
Definition Read : M t unit :=
  let endCentralDirectoryRecord := EndCentralDirectoryRecord.new junk in
  run on_stream (Seek (-1 * Size endCentralDirectoryRecord) END);
  do endCentralDirectoryRecord <- read_object endCentralDirectoryRecord;

  do pos <- on_stream (fun s => (inr (Ftell s), s));
  let zip64Locator :=
    Zip64EndOfCentralDirectoryLocator.new junk
      (pos - Size endCentralDirectoryRecord) in
  run on_stream (Seek (-1 * (Size endCentralDirectoryRecord + Size zip64Locator)) END);
  do zip64Locator <- read_object zip64Locator;

  do pos <- on_stream (fun s => (inr (Ftell s), s));
  let zip64EndOfCentralDirectory :=
    Zip64EndOfCentralDirectoryRecord.new junk (pos - Size zip64Locator) in
  run on_stream
    (Seek (Zip64EndOfCentralDirectoryLocator.GetRelativeOffset zip64Locator) START);

  do zip64EndOfCentralDirectory <- read_object zip64EndOfCentralDirectory;
  ret tt.

(** [ZipStream::GetFileNames()] *)
Definition GetFileNames (this : t) : list string :=
  let result := [] in
  foldl (fun result it => result ++ [it.1]) result (containedFiles this).

End ZipStream.

Arguments mk {Entry}.
Arguments on_stream {Entry A}.
Arguments read_object {Entry}.
Arguments stream {Entry}.
Arguments containedFiles {Entry}.
Arguments Read {Entry}.
Arguments GetFileNames {Entry}.

End ZipStream.

(** * Notions used in the statements *)

Import StreamBase.

(** ** Streams and the fields found in them *)

(** [n] bytes can be read at the cursor. *)
Definition has_bytes (s : Stream) (n : Z) : Prop :=
  0 <= offset s /\ offset s + n <= size s.

#[global] Instance has_bytes_dec s n : Decision (has_bytes s n).
Proof. unfold has_bytes. apply _. Defined.

(** The unsigned integer held by the [n] bytes found [k] bytes after the
    cursor: the value a field of width [n] placed there decodes to. *)
Definition field_at (s : Stream) (k n : Z) : Z := le_decode (peek s k n).

(** The stream obtained by writing [object] to an empty stream, rewound
    for reading. *)
Definition written (object : StructuredObject) : Stream :=
  let '(_, (_, s)) := Meta.Write (object, mkStream [] 0) in
  (Seek 0 START s).2.

Definition serialized (object : StructuredObject) : list byte :=
  content (written object).

(** ** Objects of a record class *)

(** The storage of a field holds a value of the field's type. *)
Definition holds (f : Object) (v : Value) : Prop :=
  match f, v with
  | Field2Bytes _, u16 _ => True
  | Field4Bytes _, u32 _ => True
  | Field8Bytes _, u64 _ => True
  | FieldNBytes _, vec _ => True
  | _, _ => False
  end.

(** [this] is an object of the class whose initialiser list is [fs], in
    any state its fields can be in. *)
Definition instance_of (fs : list Object) (this : StructuredObject) : Prop :=
  fields this = fs /\ Forall2 holds fs (values this).

(** The calls open to a user of Zip64EndOfCentralDirectoryRecord that
    change an object. *)
Inductive Zip64Call : Type :=
| Call_SetTotalNumberOfEntries (value : Z)
| Call_SetSizeOfCD (value : Z)
| Call_SetOffsetfStartOfCD (value : Z).

Definition call (c : Zip64Call) (this : StructuredObject) : StructuredObject :=
  match c with
  | Call_SetTotalNumberOfEntries value =>
      Zip64EndOfCentralDirectoryRecord.SetTotalNumberOfEntries value this
  | Call_SetSizeOfCD value =>
      Zip64EndOfCentralDirectoryRecord.SetSizeOfCD value this
  | Call_SetOffsetfStartOfCD value =>
      Zip64EndOfCentralDirectoryRecord.SetOffsetfStartOfCD value this
  end.

Definition calls (cs : list Zip64Call) (this : StructuredObject) : StructuredObject :=
  foldl (fun object c => call c object) this cs.

(** The values of an object of that class on which only these calls were
    made, with [entries] in fields 6 and 7. *)
Definition zip64_values (disk entries cd_size cd_offset : Z) : Values :=
  [u32 Signatures.Zip64EndOfCD; u64 44; u16 45; u16 45; u32 0; u32 disk;
   u64 entries; u64 entries; u64 cd_size; u64 cd_offset; vec []].

(** ** What a reader requires and what it finds *)

(** The eight fields before the comment are what the validators of
    EndCentralDirectoryRecord require. *)
Definition eocd_fields_valid (s : Stream) : Prop :=
  field_at s 0 4 = Signatures.EndOfCentralDirectory /\
  field_at s 4 2 = 0 /\ field_at s 6 2 = 0 /\
  field_at s 8 2 = UINT16_MAX /\ field_at s 10 2 = UINT16_MAX /\
  field_at s 12 4 = UINT32_MAX /\ field_at s 16 4 = UINT32_MAX /\
  field_at s 20 2 = 0.

(** The four fields of a Zip64 end-of-central-directory locator are what
    the validators require, the relative offset being at most
    [maxOffset]. *)
Definition locator_fields_valid (maxOffset : Z) (s : Stream) : Prop :=
  field_at s 0 4 = Signatures.Zip64EndOfCDLocator /\
  field_at s 4 4 = 0 /\
  field_at s 8 8 <= maxOffset /\
  field_at s 16 4 = 1.

(** The ten fixed fields of a Zip64 end-of-central-directory record are
    what the validators require, size and offset of the central directory
    being at most [maxOffset]. *)
Definition zip64_fields_valid (maxOffset : Z) (s : Stream) : Prop :=
  field_at s 0 4 = Signatures.Zip64EndOfCD /\
  field_at s 4 8 = 44 /\
  field_at s 12 2 = MagicNumbers.Zip64MinimumVersion /\
  field_at s 14 2 = MagicNumbers.Zip64MinimumVersion /\
  field_at s 16 4 = 0 /\ field_at s 20 4 = 0 /\
  field_at s 24 8 <> 0 /\ field_at s 32 8 = field_at s 24 8 /\
  0 < field_at s 40 8 <= maxOffset /\
  0 < field_at s 48 8 <= maxOffset.

(** The values a LocalFileHeader holds after reading the stream at [s]
    without exception: the fixed fields decoded at their offsets, then as
    many name bytes and extra-field bytes as the two length fields say. *)
Definition local_header_at (s : Stream) : Values :=
  let n := field_at s 26 2 in
  let m := field_at s 28 2 in
  [u32 (field_at s 0 4); u16 (field_at s 4 2); u16 (field_at s 6 2);
   u16 (field_at s 8 2); u16 (field_at s 10 2); u16 (field_at s 12 2);
   u32 (field_at s 14 4); u32 (field_at s 18 4); u32 (field_at s 22 4);
   u16 n; u16 m; vec (peek s 30 n); vec (peek s (30 + n) m)].

(** The values a CentralFileHeader holds after reading the stream at [s]
    without exception: the fixed fields decoded at their offsets, then as
    many name, extra-field and comment bytes as the three length fields
    say. *)
Definition central_header_at (s : Stream) : Values :=
  let n := field_at s 28 2 in
  let m := field_at s 30 2 in
  let k := field_at s 32 2 in
  [u32 (field_at s 0 4); u16 (field_at s 4 2); u16 (field_at s 6 2);
   u16 (field_at s 8 2); u16 (field_at s 10 2); u16 (field_at s 12 2);
   u16 (field_at s 14 2); u32 (field_at s 16 4); u32 (field_at s 20 4);
   u32 (field_at s 24 4); u16 n; u16 m; u16 k;
   u16 (field_at s 34 2); u16 (field_at s 36 2); u32 (field_at s 38 4);
   u32 (field_at s 42 4);
   vec (peek s 46 n); vec (peek s (46 + n) m); vec (peek s (46 + n + m) k)].

(** The integer held by a field is a value of the field's C++ type. *)
Definition representable (v : Value) : Prop :=
  match v with
  | u16 x => 0 <= x < 2 ^ 16
  | u32 x => 0 <= x < 2 ^ 32
  | u64 x => 0 <= x < 2 ^ 64
  | vec _ => True
  end.

(** ** The discovery, step by step *)

Section Steps.
Context {Entry : Type}.
Implicit Types (this : ZipStream.t Entry) (junk : nat -> Z).

(** The three steps of [ZipStream::Read] with every position counted from
    the start of the stream, [e] being its size: the EOCD is read at
    [e - 22], the locator at [e - 42] with bound [locator_bound e], the
    Zip64 EOCD at the locator's relative offset with bound
    [zip64_bound e]. *)
Definition discovery (locator_bound zip64_bound : Z -> Z) junk
  : M (ZipStream.t Entry) unit :=
  fun this =>
    let e := size (ZipStream.stream this) in
    (run ZipStream.on_stream (Seek (e - 22) START);
     do endCentralDirectoryRecord <-
       ZipStream.read_object (EndCentralDirectoryRecord.new junk);
     run ZipStream.on_stream (Seek (e - 42) START);
     do zip64Locator <-
       ZipStream.read_object
         (Zip64EndOfCentralDirectoryLocator.new junk (locator_bound e));
     run ZipStream.on_stream
       (Seek (Zip64EndOfCentralDirectoryLocator.GetRelativeOffset zip64Locator) START);
     do zip64EndOfCentralDirectory <-
       ZipStream.read_object
         (Zip64EndOfCentralDirectoryRecord.new junk (zip64_bound e));
     ret tt) this.

(** The discovery as the specification words it: the locator is bounded by
    the position the second seek has just computed, the Zip64 EOCD by the
    position of the stream just before the third seek. *)
Definition Read_as_stated junk : M (ZipStream.t Entry) unit :=
  let endCentralDirectoryRecord := EndCentralDirectoryRecord.new junk in
  let locator_size := Size (Zip64EndOfCentralDirectoryLocator.new junk 0) in
  run ZipStream.on_stream (Seek (- Size endCentralDirectoryRecord) END);
  do endCentralDirectoryRecord <- ZipStream.read_object endCentralDirectoryRecord;
  run ZipStream.on_stream
    (Seek (- (Size endCentralDirectoryRecord + locator_size)) END);
  do computed <- ZipStream.on_stream (fun s => (inr (Ftell s), s));
  do zip64Locator <-
    ZipStream.read_object (Zip64EndOfCentralDirectoryLocator.new junk computed);
  do prior <- ZipStream.on_stream (fun s => (inr (Ftell s), s));
  run ZipStream.on_stream
    (Seek (Zip64EndOfCentralDirectoryLocator.GetRelativeOffset zip64Locator) START);
  do zip64EndOfCentralDirectory <-
    ZipStream.read_object (Zip64EndOfCentralDirectoryRecord.new junk prior);
  ret tt.

(** A computation that leaves [containedFiles] as it finds it, whether it
    throws or not. *)
Definition keeps_files {A} (m : M (ZipStream.t Entry) A) : Prop :=
  forall this, ZipStream.containedFiles (m this).2 = ZipStream.containedFiles this.

End Steps.

Arguments keeps_files Entry {A} m.

(** ** Sample inputs *)

(** Field storage that holds 0 before its first assignment. *)
Definition no_junk : nat -> Z := fun _ => 0.

(** The 22 bytes of an end-of-central-directory record with the given
    entry counts, size and offset of the central directory and comment
    length; a ZIP writer that does not use Zip64 puts the real counts, size
    and offset there. *)
Definition plain_eocd_bytes (entries cd_size cd_offset comment_length : Z) : list byte :=
  le_encode 4 Signatures.EndOfCentralDirectory ++ le_encode 2 0 ++ le_encode 2 0 ++
  le_encode 2 entries ++ le_encode 2 entries ++
  le_encode 4 cd_size ++ le_encode 4 cd_offset ++ le_encode 2 comment_length.

(** The EOCD as this code requires it: the Zip64 sentinels, no comment. *)
Definition zip64_eocd_sentinels : list byte :=
  plain_eocd_bytes 0xFFFF 0xFFFFFFFF 0xFFFFFFFF 0.

(** The signature of an end-of-central-directory record with its lowest
    bit flipped, 0x06054b51, before otherwise valid fields. *)
Definition flipped_eocd_bytes : list byte :=
  le_encode 4 0x06054b51 ++ le_encode 2 0 ++ le_encode 2 0 ++
  le_encode 2 0xFFFF ++ le_encode 2 0xFFFF ++
  le_encode 4 0xFFFFFFFF ++ le_encode 4 0xFFFFFFFF ++ le_encode 2 0.

(** The 20 bytes of a Zip64 end-of-central-directory locator. *)
Definition locator_bytes (disk relative_offset disks : Z) : list byte :=
  le_encode 4 Signatures.Zip64EndOfCDLocator ++ le_encode 4 disk ++
  le_encode 8 relative_offset ++ le_encode 4 disks.

(** The first two fields of a Zip64 end-of-central-directory record. *)
Definition zip64_eocd_prefix (declared_size : Z) : list byte :=
  le_encode 4 Signatures.Zip64EndOfCD ++ le_encode 8 declared_size.

(** The 56 bytes of a Zip64 end-of-central-directory record. *)
Definition zip64_eocd_bytes (entries cd_size cd_offset : Z) : list byte :=
  zip64_eocd_prefix 44 ++
  le_encode 2 45 ++ le_encode 2 45 ++ le_encode 4 0 ++ le_encode 4 0 ++
  le_encode 8 entries ++ le_encode 8 entries ++
  le_encode 8 cd_size ++ le_encode 8 cd_offset.

(** One byte, then a Zip64 EOCD at offset 1 announcing a central directory
    of [cd_size] bytes at offset 1, a locator giving [relative_offset] and
    the EOCD: 99 bytes.  The locator starts at 57 and the EOCD at 77. *)
Definition end_of_archive (cd_size relative_offset : Z) : list byte :=
  [x00] ++ zip64_eocd_bytes 1 cd_size 1 ++ locator_bytes 0 relative_offset 1 ++
  zip64_eocd_sentinels.

(** A ZipStream just constructed on a stream holding [bytes]: no entry in
    [containedFiles]. *)
Definition opened (bytes : list byte) : ZipStream.t unit :=
  ZipStream.mk (mkStream bytes 0) [].

(** A string of 65536 bytes. *)
Definition long_string : string :=
  string_of_list_byte (repeat "c"%byte (Z.to_nat 65536)).

(** One entry, a central directory of one byte at offset 1. *)
Definition one_entry : list Zip64Call :=
  [Call_SetTotalNumberOfEntries 1; Call_SetSizeOfCD 1; Call_SetOffsetfStartOfCD 1].

(** ** A writer of archives *)

Definition write_object (object : StructuredObject) : M Stream unit :=
  fun s => let '(r, (_, s')) := Meta.Write (object, s) in (r, s').

Fixpoint write_all (objects : list StructuredObject) : M Stream unit :=
  match objects with
  | [] => ret tt
  | object :: rest => run write_object object; write_all rest
  end.

(** The local and the central header of an entry called [name]; the fields
    not shown hold 0. *)
Definition local_header (name : string) : StructuredObject :=
  let this := LocalFileHeader.new no_junk in
  let this := SetValue32 0 Signatures.LocalFileHeader this in
  let this := SetValue 11 (vec (vec_of_string name)) this in
  LocalFileHeader.SetFileNameLength (size16 name) this.

Definition central_header (name : string) : StructuredObject :=
  let this := CentralFileHeader.new no_junk in
  let this := CentralFileHeader.SetSignature Signatures.CentralFileHeader this in
  CentralFileHeader.SetFileName name this.

(** Modelled from the spec: the writer of archives is not among the
    sources.  The archive is laid out as the comment at the head of
    [ZipStream.cpp] and section 4.4 of the specification describe it: a
    local file header per entry, here without file data, then a central
    file header per entry, then the Zip64 EOCD holding the number of
    entries and the size and offset of the central directory, its locator
    and the EOCD, every record emitted by its [Write]. *)
Definition write_archive (names : list string) : M Stream unit :=
  run write_all (map local_header names);
  do cd_offset <- (fun s => (inr (Ftell s), s));
  run write_all (map central_header names);
  do cd_end <- (fun s => (inr (Ftell s), s));
  let zip64 := Zip64EndOfCentralDirectoryRecord.new no_junk 0 in
  let zip64 := Zip64EndOfCentralDirectoryRecord.SetTotalNumberOfEntries
                 (Z.of_nat (length names)) zip64 in
  let zip64 := Zip64EndOfCentralDirectoryRecord.SetSizeOfCD (cd_end - cd_offset) zip64 in
  let zip64 := Zip64EndOfCentralDirectoryRecord.SetOffsetfStartOfCD cd_offset zip64 in
  run write_object zip64;
  let locator := Zip64EndOfCentralDirectoryLocator.new no_junk 0 in
  let locator := Zip64EndOfCentralDirectoryLocator.SetRelativeOffset cd_end locator in
  run write_object locator;
  write_object (EndCentralDirectoryRecord.new no_junk).

Definition archive_of (names : list string) : list byte :=
  content (write_archive names (mkStream [] 0)).2.

(** * Properties *)

(** ** The wire format *)

Lemma byte_to_Z_range (b : byte) : 0 <= byte_to_Z b < 256.
Proof.
  unfold byte_to_Z. pose proof (Byte.to_N_bounded b) as H.
  lia.
Qed.

Lemma byte_to_of_Z (v : Z) : byte_to_Z (byte_of_Z v) = v mod 256.
Proof.
  unfold byte_to_Z, byte_of_Z.
  assert (Hr : 0 <= v mod 256 < 256) by (apply Z.mod_pos_bound; lia).
  destruct (Byte.of_N (Z.to_N (v mod 256))) as [b|] eqn:Hb.
  - apply Byte.to_of_N in Hb. rewrite Hb. lia.
  - apply Byte.of_N_None_iff in Hb. lia.
Qed.

Lemma length_le_encode (n : nat) (v : Z) : length (le_encode n v) = n.
Proof. revert v. induction n as [|n IH]; intros v; simpl; [done | by rewrite IH]. Qed.

Lemma le_decode_range (bs : list byte) :
  0 <= le_decode bs < 2 ^ (8 * Z.of_nat (length bs)).
Proof.
  induction bs as [|b bs IH]; simpl le_decode.
  - simpl. lia.
  - pose proof (byte_to_Z_range b) as Hb.
    replace (8 * Z.of_nat (length (b :: bs))) with (8 + 8 * Z.of_nat (length bs))
      by (simpl length; lia).
    rewrite Z.pow_add_r by lia. change (2 ^ 8) with 256. nia.
Qed.

Lemma le_decode_encode (n : nat) (v : Z) :
  le_decode (le_encode n v) = v mod 2 ^ (8 * Z.of_nat n).
Proof.
  revert v. induction n as [|n IH]; intros v.
  - simpl. by rewrite Z.mod_1_r.
  - cbn [le_encode le_decode]. rewrite byte_to_of_Z, IH.
    replace (8 * Z.of_nat (S n)) with (8 + 8 * Z.of_nat n) by lia.
    rewrite Z.pow_add_r by lia. change (2 ^ 8) with 256.
    rewrite (Z.rem_mul_r v 256 (2 ^ (8 * Z.of_nat n))) by lia.
    reflexivity.
Qed.

Lemma wrap_range (w v : Z) : 0 <= w -> 0 <= wrap w v < 2 ^ w.
Proof. intros Hw. unfold wrap. apply Z.mod_pos_bound. by apply Z.pow_pos_nonneg. Qed.

Lemma wrap_small (w v : Z) : 0 <= v < 2 ^ w -> wrap w v = v.
Proof. intros H. unfold wrap. by apply Z.mod_small. Qed.

Lemma wrap_wrap (w v : Z) : 0 <= w -> wrap w (wrap w v) = wrap w v.
Proof. intros Hw. apply wrap_small. by apply wrap_range. Qed.

(** ** The stream *)

Lemma Read_has_bytes (n : Z) (s : Stream) :
  has_bytes s n -> StreamBase.Read n s = (inr (peek s 0 n), advance n s).
Proof.
  intros [H1 H2]. unfold StreamBase.Read.
  destruct (0 <=? offset s) eqn:E1; [|lia].
  destruct (offset s + n <=? size s) eqn:E2; [done|lia].
Qed.

Lemma Read_short (n : Z) (s : Stream) :
  ~ has_bytes s n -> StreamBase.Read n s = (inl StreamError, s).
Proof.
  intros H. unfold StreamBase.Read, has_bytes in *.
  destruct (0 <=? offset s) eqn:E1; [|done].
  destruct (offset s + n <=? size s) eqn:E2; [|done].
  exfalso. apply H. lia.
Qed.

Lemma peek_advance (s : Stream) (m k n : Z) :
  peek (advance m s) k n = peek s (m + k) n.
Proof. unfold peek, advance. simpl. by rewrite Z.add_assoc. Qed.

Lemma field_at_advance (s : Stream) (m k n : Z) :
  field_at (advance m s) k n = field_at s (m + k) n.
Proof. unfold field_at. by rewrite peek_advance. Qed.

Lemma advance_advance (s : Stream) (m n : Z) :
  advance n (advance m s) = advance (m + n) s.
Proof. unfold advance. simpl. by rewrite Z.add_assoc. Qed.

Lemma field_at_range (s : Stream) (k n : Z) :
  0 <= n -> 0 <= field_at s k n < 2 ^ (8 * n).
Proof.
  intros Hn. unfold field_at. pose proof (le_decode_range (peek s k n)) as H.
  assert (Hl : (length (peek s k n) <= Z.to_nat n)%nat).
  { unfold peek. rewrite length_take. lia. }
  assert (2 ^ (8 * Z.of_nat (length (peek s k n))) <= 2 ^ (8 * n)).
  { apply Z.pow_le_mono_r; lia. }
  lia.
Qed.

(** ** Reading a record field by field *)

Lemma read_fixed_ok w store validate i this s :
  has_bytes s w ->
  read_fixed w store validate i (this, s) =
    let v := field_at s 0 w in
    let '(r, this') := validate v (<[i := store v]> this) in
    (r, (this', advance w s)).
Proof. intros H. unfold read_fixed. by rewrite Read_has_bytes. Qed.

Lemma read_fixed_short w store validate i this s :
  ~ has_bytes s w ->
  read_fixed w store validate i (this, s) = (inl StreamError, (this, s)).
Proof. intros H. unfold read_fixed. by rewrite Read_short. Qed.

Lemma bind_read_fixed w store validate i (k : unit -> M (Values * Stream) unit) this s :
  bind (read_fixed w store validate i) k (this, s) =
    if decide (has_bytes s w) then
      match validate (field_at s 0 w) (<[i := store (field_at s 0 w)]> this) with
      | (inl e, this') => (inl e, (this', advance w s))
      | (inr a, this') => k a (this', advance w s)
      end
    else (inl StreamError, (this, s)).
Proof.
  unfold bind. destruct (decide (has_bytes s w)) as [H|H].
  - rewrite read_fixed_ok by done. cbv zeta.
    by destruct (validate _ _) as [[e|[]] this'].
  - by rewrite read_fixed_short.
Qed.

Lemma bind_read_vec validate i (k : unit -> M (Values * Stream) unit) this s :
  bind (read_vec validate i) k (this, s) =
    let n := Z.of_nat (length (GetValueN i this)) in
    if decide (has_bytes s n) then
      match validate (peek s 0 n) (<[i := vec (peek s 0 n)]> this) with
      | (inl e, this') => (inl e, (this', advance n s))
      | (inr a, this') => k a (this', advance n s)
      end
    else (inl StreamError, (this, s)).
Proof.
  unfold bind, read_vec. cbv zeta.
  destruct (decide (has_bytes s _)) as [H|H].
  - rewrite Read_has_bytes by done.
    by destruct (validate _ _) as [[e|[]] this'].
  - by rewrite Read_short.
Qed.

Lemma Meta_Read_inv o s r o' s' :
  Meta.Read (o, s) = (r, (o', s')) ->
  exists vs, Read_from 0 (fields o) (values o, s) = (r, (vs, s'))
             /\ o' = mkObject (fields o) vs.
Proof.
  unfold Meta.Read. destruct (Read_from 0 (fields o) (values o, s)) as [r0 [vs0 s0]].
  intros [= <- <- <-]. eauto.
Qed.

Lemma neqb_true (a b : Z) : (a !=? b) = true <-> a <> b.
Proof. unfold neqb. rewrite negb_true_iff. apply Z.eqb_neq. Qed.

Lemma neqb_false (a b : Z) : (a !=? b) = false <-> a = b.
Proof. unfold neqb. rewrite negb_false_iff. apply Z.eqb_eq. Qed.

Lemma peek_nothing (s : Stream) (k : Z) : peek s k 0 = [].
Proof. reflexivity. Qed.

(** One field of a record read symbolically: the stream has the bytes or
    not, the validator throws or not. *)
Ltac split_check H :=
  cbv beta in H;
  match type of H with
  | context [throw_if ?c ?e ?t] =>
      let E := fresh "Echeck" in
      destruct c eqn:E; cbn [throw_if throw ret] in H
  end.

Ltac split_bytes H :=
  match type of H with
  | context [decide (has_bytes ?s ?w)] =>
      let Hb := fresh "Hbytes" in
      destruct (decide (has_bytes s w)) as [Hb|Hb]; [split_check H|]
  end.

Ltac read_step H :=
  first [ rewrite bind_read_fixed in H
        | rewrite bind_read_vec in H; cbv zeta in H;
          simpl (Z.of_nat (length _)) in H; rewrite ?peek_nothing in H ];
  split_bytes H.

Ltac read_all H :=
  repeat read_step H;
  cbn [ret] in H; inversion H; subst; clear H.

Ltac is_literal k :=
  lazymatch k with
  | Z0 => idtac
  | Zpos _ => idtac
  end.

Ltac norm_const k :=
  tryif is_literal k then fail
  else (let v := eval vm_compute in k in change k with v in * ).

Ltac norm_stream :=
  repeat first [rewrite advance_advance in * | rewrite field_at_advance in *];
  repeat match goal with
    | |- context [field_at _ ?k _] => norm_const k
    | |- context [advance ?k _] => norm_const k
    | H : context [field_at _ ?k _] |- _ => norm_const k
    | H : context [advance ?k _] |- _ => norm_const k
    end.

Ltac checks :=
  repeat match goal with
    | H : (_ !=? _) = true |- _ => apply neqb_true in H
    | H : (_ !=? _) = false |- _ => apply neqb_false in H
    | H : (_ <? _) = true |- _ => apply Z.ltb_lt in H
    | H : (_ <? _) = false |- _ => apply Z.ltb_ge in H
    | H : (_ =? _) = true |- _ => apply Z.eqb_eq in H
    | H : (_ =? _) = false |- _ => apply Z.eqb_neq in H
    | H : (_ || _) = true |- _ => apply orb_true_iff in H
    | H : (_ || _) = false |- _ => apply orb_false_iff in H; destruct H
    end.

Ltac stream_lia := unfold has_bytes, advance, size in *; simpl in *; lia.

Ltac conjuncts :=
  repeat match goal with |- _ /\ _ => split end.

Ltac close :=
  conjuncts;
  first [ reflexivity | assumption | tauto | congruence | lia | stream_lia
        | simpl; congruence ].

(** ** EndCentralDirectoryRecord, read *)

Lemma EndCentralDirectoryRecord_values junk :
  values (EndCentralDirectoryRecord.new junk) =
    [u32 Signatures.EndOfCentralDirectory; u16 0; u16 0; u16 UINT16_MAX;
     u16 UINT16_MAX; u32 UINT32_MAX; u32 UINT32_MAX; u16 0; vec []].
Proof. reflexivity. Qed.

(** What a read of an EOCD can end in. *)
Lemma EndCentralDirectoryRecord_Read_spec junk s r o' s' :
  Meta.Read (EndCentralDirectoryRecord.new junk, s) = (r, (o', s')) ->
  content s' = content s /\ offset s <= offset s' <= offset s + 22 /\
  match r with
  | inr _ =>
      has_bytes s 22 /\ s' = advance 22 s /\
      field_at s 0 4 = Signatures.EndOfCentralDirectory /\
      field_at s 4 2 = 0 /\ field_at s 6 2 = 0 /\
      field_at s 8 2 = UINT16_MAX /\ field_at s 10 2 = UINT16_MAX /\
      field_at s 12 4 = UINT32_MAX /\ field_at s 16 4 = UINT32_MAX /\
      field_at s 20 2 = 0 /\
      values o' = values (EndCentralDirectoryRecord.new junk)
  | inl e =>
      (e = StreamError /\ ~ has_bytes s 22) \/
      e = InvalidEndOfCentralDirectoryRecord
  end.
Proof.
  intros H. apply Meta_Read_inv in H as (vs & H & ->).
  change (fields (EndCentralDirectoryRecord.new junk))
    with EndCentralDirectoryRecord.fields in H.
  rewrite !EndCentralDirectoryRecord_values. rewrite EndCentralDirectoryRecord_values in H.
  cbn [Read_from Object_Read EndCentralDirectoryRecord.fields] in H.
  read_all H; norm_stream; checks.
  all: try discriminate.
  all: split; [done|]; split; [stream_lia|].
  all: first [ by right | left; split; [reflexivity | stream_lia] | close ].
Qed.

(** ** Zip64EndOfCentralDirectoryLocator, read *)

Lemma Zip64EndOfCentralDirectoryLocator_values junk maxOffset :
  values (Zip64EndOfCentralDirectoryLocator.new junk maxOffset) =
    [u32 Signatures.Zip64EndOfCDLocator; u32 0; u64 (wrap 64 (junk 2%nat)); u32 1].
Proof. reflexivity. Qed.

Lemma Zip64EndOfCentralDirectoryLocator_Read_spec junk maxOffset s r o' s' :
  Meta.Read (Zip64EndOfCentralDirectoryLocator.new junk maxOffset, s) = (r, (o', s')) ->
  content s' = content s /\ offset s <= offset s' <= offset s + 20 /\
  match r with
  | inr _ =>
      has_bytes s 20 /\ s' = advance 20 s /\
      field_at s 0 4 = Signatures.Zip64EndOfCDLocator /\
      field_at s 4 4 = 0 /\
      field_at s 8 8 <= wrap 64 maxOffset /\
      field_at s 16 4 = 1 /\
      values o' = [u32 Signatures.Zip64EndOfCDLocator; u32 0;
                   u64 (field_at s 8 8); u32 1]
  | inl e =>
      (e = StreamError /\ ~ has_bytes s 20) \/
      (e = InvalidHeader /\ has_bytes s 4 /\
       field_at s 0 4 <> Signatures.Zip64EndOfCDLocator) \/
      (e = InvalidZip64CentralDirectoryLocator /\
       field_at s 0 4 = Signatures.Zip64EndOfCDLocator /\
       (field_at s 4 4 <> 0 \/ wrap 64 maxOffset < field_at s 8 8 \/
        field_at s 16 4 <> 1))
  end.
Proof.
  intros H. apply Meta_Read_inv in H as (vs & H & ->).
  change (fields (Zip64EndOfCentralDirectoryLocator.new junk maxOffset))
    with (Zip64EndOfCentralDirectoryLocator.fields (wrap 64 maxOffset)) in H.
  rewrite Zip64EndOfCentralDirectoryLocator_values in H.
  cbn [Read_from Object_Read Zip64EndOfCentralDirectoryLocator.fields] in H.
  read_all H; norm_stream; checks.
  all: split; [done|]; split; [stream_lia|].
  all: first [ left; split; [reflexivity | stream_lia]
             | right; left; close
             | right; right; close
             | close ].
Qed.

(** ** Zip64EndOfCentralDirectoryRecord, read *)

Lemma Zip64EndOfCentralDirectoryRecord_values junk maxOffset :
  values (Zip64EndOfCentralDirectoryRecord.new junk maxOffset) =
    [u32 Signatures.Zip64EndOfCD; u64 44; u16 45; u16 45; u32 0;
     u32 (wrap 32 (junk 5%nat)); u64 0; u64 0;
     u64 (wrap 64 (junk 8%nat)); u64 (wrap 64 (junk 9%nat)); vec []].
Proof. reflexivity. Qed.

Lemma Zip64EndOfCentralDirectoryRecord_Size junk maxOffset :
  Size (Zip64EndOfCentralDirectoryRecord.new junk maxOffset) = 56.
Proof. reflexivity. Qed.

Lemma Zip64EndOfCentralDirectoryRecord_Read_spec junk maxOffset s r o' s' :
  Meta.Read (Zip64EndOfCentralDirectoryRecord.new junk maxOffset, s) = (r, (o', s')) ->
  content s' = content s /\ offset s <= offset s' <= offset s + 56 /\
  match r with
  | inr _ =>
      has_bytes s 56 /\ s' = advance 56 s /\
      field_at s 0 4 = Signatures.Zip64EndOfCD /\
      field_at s 4 8 = 44 /\
      field_at s 12 2 = MagicNumbers.Zip64MinimumVersion /\
      field_at s 14 2 = MagicNumbers.Zip64MinimumVersion /\
      field_at s 16 4 = 0 /\ field_at s 20 4 = 0 /\
      field_at s 24 8 <> 0 /\ field_at s 32 8 = field_at s 24 8 /\
      0 < field_at s 40 8 <= wrap 64 maxOffset /\
      0 < field_at s 48 8 <= wrap 64 maxOffset /\
      values o' = [u32 Signatures.Zip64EndOfCD; u64 44; u16 45; u16 45; u32 0; u32 0;
                   u64 (field_at s 24 8); u64 (field_at s 32 8);
                   u64 (field_at s 40 8); u64 (field_at s 48 8); vec []]
  | inl e =>
      (e = StreamError /\ ~ has_bytes s 56) \/
      (e = InvalidHeader /\ has_bytes s 4 /\ s' = advance 4 s /\
       field_at s 0 4 <> Signatures.Zip64EndOfCD) \/
      (e = InvalidZip64CentralDirectoryRecord /\
       field_at s 0 4 = Signatures.Zip64EndOfCD)
  end.
Proof.
  intros H. apply Meta_Read_inv in H as (vs & H & ->).
  change (fields (Zip64EndOfCentralDirectoryRecord.new junk maxOffset))
    with (Zip64EndOfCentralDirectoryRecord.fields (wrap 64 maxOffset)) in H.
  rewrite Zip64EndOfCentralDirectoryRecord_values in H.
  cbn [Read_from Object_Read Zip64EndOfCentralDirectoryRecord.fields] in H.
  read_all H; norm_stream; checks.
  all: try discriminate.
  all: split; [done|]; split; [stream_lia|].
  all: first [ left; split; [reflexivity | stream_lia]
             | right; left; close
             | right; right; close
             | idtac ].
  pose proof (field_at_range s 40 8 ltac:(lia)).
  pose proof (field_at_range s 48 8 ltac:(lia)).
  match goal with
  | H : field_at _ 4 8 = ?size |- _ =>
      let v := eval vm_compute in size in change size with v in H
  end.
  match goal with
  | H : context [Zip64EndOfCentralDirectoryRecord.GetTotalNumberOfEntries _] |- _ =>
      unfold Zip64EndOfCentralDirectoryRecord.GetTotalNumberOfEntries, GetValue64 in H;
      simpl in H
  end.
  unfold MagicNumbers.Zip64MinimumVersion in *.
  close.
Qed.

(** ** C2 and C7: the sentinels and the comment of the EOCD *)

(** C2.  Reading an EndCentralDirectoryRecord at a place where its 22
    bytes are present: if the entry count on this disk (offset 8) or the
    total entry count (offset 10) is not 0xFFFF, or the size (offset 12) or
    the offset (offset 16) of the central directory is not 0xFFFFFFFF, the
    read throws InvalidEndOfCentralDirectoryRecord, whatever the other
    fields hold.  A read that returns leaves exactly the sentinels in
    fields 3 to 6, and they are what the stream holds. *)
Theorem EndCentralDirectoryRecord_sentinels (junk : nat -> Z) (s : Stream) :
  let result := Meta.Read (EndCentralDirectoryRecord.new junk, s) in
  (has_bytes s 22 ->
   field_at s 8 2 <> 0xFFFF \/ field_at s 10 2 <> 0xFFFF \/
   field_at s 12 4 <> 0xFFFFFFFF \/ field_at s 16 4 <> 0xFFFFFFFF ->
   result.1 = inl InvalidEndOfCentralDirectoryRecord)
  /\
  (result.1 = inr tt ->
   let record := result.2.1 in
   GetValue16 3 record = 0xFFFF /\ GetValue16 4 record = 0xFFFF /\
   GetValue32 5 record = 0xFFFFFFFF /\ GetValue32 6 record = 0xFFFFFFFF /\
   field_at s 8 2 = 0xFFFF /\ field_at s 10 2 = 0xFFFF /\
   field_at s 12 4 = 0xFFFFFFFF /\ field_at s 16 4 = 0xFFFFFFFF).
Proof.
  cbv zeta.
  destruct (Meta.Read (EndCentralDirectoryRecord.new junk, s)) as [r [o' s']] eqn:H.
  apply EndCentralDirectoryRecord_Read_spec in H as (_ & _ & H).
  unfold UINT16_MAX, UINT32_MAX in H. simpl.
  destruct r as [e|[]].
  - split; [|discriminate]. intros Hb _. destruct H as [[_ H] | ->]; [tauto | done].
  - destruct H as (_ & _ & _ & _ & _ & H3 & H4 & H5 & H6 & _ & Hv).
    split; [intros _ Hbad; exfalso; tauto|]. intros _.
    rewrite Hv. repeat split; try done.
Qed.

Lemma EndCentralDirectoryRecord_sentinels_witness :
  let s := mkStream (plain_eocd_bytes 1 46 30 0) 0 in
  (Meta.Read (EndCentralDirectoryRecord.new no_junk, s)).1
    = inl InvalidEndOfCentralDirectoryRecord.
Proof.
  cbv zeta.
  apply (proj1 (EndCentralDirectoryRecord_sentinels no_junk
                  (mkStream (plain_eocd_bytes 1 46 30 0) 0))).
  - split; vm_compute; discriminate.
  - left. vm_compute. discriminate.
Defined.

(** The read of an EOCD whose first seven fields are as required and whose
    comment length is not 0 stops in the validator of field 7. *)
Lemma EndCentralDirectoryRecord_comment_length junk s r o' s' :
  Meta.Read (EndCentralDirectoryRecord.new junk, s) = (r, (o', s')) ->
  has_bytes s 22 ->
  field_at s 0 4 = Signatures.EndOfCentralDirectory ->
  field_at s 4 2 = 0 -> field_at s 6 2 = 0 ->
  field_at s 8 2 = UINT16_MAX -> field_at s 10 2 = UINT16_MAX ->
  field_at s 12 4 = UINT32_MAX -> field_at s 16 4 = UINT32_MAX ->
  field_at s 20 2 <> 0 ->
  r = inl InvalidEndOfCentralDirectoryRecord /\ s' = advance 22 s /\
  GetValue16 7 o' = field_at s 20 2 /\ GetValueN 8 o' = [].
Proof.
  intros H Hb H0 H1 H2 H3 H4 H5 H6 H7.
  apply Meta_Read_inv in H as (vs & H & ->).
  change (fields (EndCentralDirectoryRecord.new junk))
    with EndCentralDirectoryRecord.fields in H.
  rewrite EndCentralDirectoryRecord_values in H.
  cbn [Read_from Object_Read EndCentralDirectoryRecord.fields] in H.
  read_all H; norm_stream; checks.
  all: first [ exfalso; congruence | exfalso; stream_lia | idtac ].
  repeat split.
Qed.

(** C7.  Reading an EndCentralDirectoryRecord at a place where its 22
    bytes are present: a comment length (offset 20) that is not 0 makes the
    read throw InvalidEndOfCentralDirectoryRecord, for every stream, hence
    whatever follows the 22 bytes, and the read never goes past them.  When
    the seven fields before it are as required, the throw is the one of the
    comment-length validator: exactly 22 bytes are consumed and the comment
    field is still empty.  A read that returns has decoded comment length 0
    and holds an empty comment. *)
Theorem EndCentralDirectoryRecord_comment_unsupported (junk : nat -> Z) (s : Stream) :
  let result := Meta.Read (EndCentralDirectoryRecord.new junk, s) in
  let record := result.2.1 in
  (has_bytes s 22 -> field_at s 20 2 <> 0 ->
   result.1 = inl InvalidEndOfCentralDirectoryRecord /\
   offset result.2.2 <= offset s + 22)
  /\
  (has_bytes s 22 -> field_at s 20 2 <> 0 ->
   field_at s 0 4 = Signatures.EndOfCentralDirectory ->
   field_at s 4 2 = 0 -> field_at s 6 2 = 0 ->
   field_at s 8 2 = 0xFFFF -> field_at s 10 2 = 0xFFFF ->
   field_at s 12 4 = 0xFFFFFFFF -> field_at s 16 4 = 0xFFFFFFFF ->
   result.2.2 = advance 22 s /\
   GetValue16 7 record = field_at s 20 2 /\ GetValueN 8 record = [])
  /\
  (result.1 = inr tt ->
   field_at s 20 2 = 0 /\ GetValue16 7 record = 0 /\ GetValueN 8 record = [] /\
   result.2.2 = advance 22 s).
Proof.
  cbv zeta.
  destruct (Meta.Read (EndCentralDirectoryRecord.new junk, s)) as [r [o' s']] eqn:H.
  pose proof (EndCentralDirectoryRecord_Read_spec _ _ _ _ _ H) as (_ & Hpos & Hr).
  pose proof (EndCentralDirectoryRecord_comment_length _ _ _ _ _ H) as Hc.
  simpl. split; [|split].
  - intros Hb Hn. split; [|lia]. destruct r as [e|[]].
    + destruct Hr as [[_ Hr] | ->]; [tauto | done].
    + exfalso. tauto.
  - intros Hb Hn H0 H1 H2 H3 H4 H5 H6. apply Hc; done.
  - intros ->. destruct Hr as (_ & -> & _ & _ & _ & _ & _ & _ & _ & H7 & Hv).
    rewrite Hv. done.
Qed.

(** An EOCD with the Zip64 sentinels that announces a comment of five
    bytes, and nothing after it. *)
Lemma EndCentralDirectoryRecord_comment_unsupported_witness :
  let s := mkStream (plain_eocd_bytes 0xFFFF 0xFFFFFFFF 0xFFFFFFFF 5) 0 in
  let result := Meta.Read (EndCentralDirectoryRecord.new no_junk, s) in
  result.1 = inl InvalidEndOfCentralDirectoryRecord /\
  offset result.2.2 <= offset s + 22.
Proof.
  cbv zeta.
  apply (proj1 (EndCentralDirectoryRecord_comment_unsupported no_junk
                  (mkStream (plain_eocd_bytes 0xFFFF 0xFFFFFFFF 0xFFFFFFFF 5) 0))).
  - split; vm_compute; discriminate.
  - vm_compute. discriminate.
Defined.

(** ** C5: the maxOffset bounds *)

(** C5.  A Zip64EndOfCentralDirectoryLocator built with bound [maxOffset]
    and read where its 20 bytes are present and start with its signature:
    a relative offset (offset 8) above the bound makes the read throw
    InvalidZip64CentralDirectoryLocator, [maxOffset + 1] included; with the
    other fields valid a relative offset equal to the bound is read
    without exception; and a read that returns holds the relative offset
    as the stream has it, not a value cut down to the bound.  Likewise a
    Zip64EndOfCentralDirectoryRecord, read where its 56 bytes are present
    and start with its signature, throws InvalidZip64CentralDirectoryRecord
    when the size (offset 40) or the offset (offset 48) of the central
    directory is above its bound, and otherwise holds them as read. *)
Theorem maxOffset_bounds (junk : nat -> Z) (maxOffset : Z) (s : Stream) :
  0 <= maxOffset < 2 ^ 64 ->
  let locator := Meta.Read (Zip64EndOfCentralDirectoryLocator.new junk maxOffset, s) in
  let record := Meta.Read (Zip64EndOfCentralDirectoryRecord.new junk maxOffset, s) in
  (has_bytes s 20 -> field_at s 0 4 = Signatures.Zip64EndOfCDLocator ->
   (maxOffset < field_at s 8 8 ->
    locator.1 = inl InvalidZip64CentralDirectoryLocator) /\
   (field_at s 8 8 = maxOffset + 1 ->
    locator.1 = inl InvalidZip64CentralDirectoryLocator) /\
   (field_at s 8 8 = maxOffset -> field_at s 4 4 = 0 -> field_at s 16 4 = 1 ->
    locator.1 = inr tt /\
    Zip64EndOfCentralDirectoryLocator.GetRelativeOffset locator.2.1 = maxOffset))
  /\
  (locator.1 = inr tt ->
   Zip64EndOfCentralDirectoryLocator.GetRelativeOffset locator.2.1 = field_at s 8 8 /\
   field_at s 8 8 <= maxOffset)
  /\
  (has_bytes s 56 -> field_at s 0 4 = Signatures.Zip64EndOfCD ->
   maxOffset < field_at s 40 8 \/ maxOffset < field_at s 48 8 ->
   record.1 = inl InvalidZip64CentralDirectoryRecord)
  /\
  (record.1 = inr tt ->
   Zip64EndOfCentralDirectoryRecord.GetSizeOfCD record.2.1 = field_at s 40 8 /\
   Zip64EndOfCentralDirectoryRecord.GetOffsetfStartOfCD record.2.1 = field_at s 48 8 /\
   field_at s 40 8 <= maxOffset /\ field_at s 48 8 <= maxOffset).
Proof.
  intros Hm. cbv zeta.
  destruct (Meta.Read (Zip64EndOfCentralDirectoryLocator.new junk maxOffset, s))
    as [rl [ol sl]] eqn:Hl.
  destruct (Meta.Read (Zip64EndOfCentralDirectoryRecord.new junk maxOffset, s))
    as [rz [oz sz]] eqn:Hz.
  apply Zip64EndOfCentralDirectoryLocator_Read_spec in Hl as (_ & _ & Hl).
  apply Zip64EndOfCentralDirectoryRecord_Read_spec in Hz as (_ & _ & Hz).
  rewrite (wrap_small 64 maxOffset) in Hl, Hz by done.
  simpl. split; [|split; [|split]].
  - intros Hb Hsig.
    assert (Hrej : maxOffset < field_at s 8 8 ->
                   rl = inl InvalidZip64CentralDirectoryLocator).
    { intros Hgt. destruct rl as [e|[]].
      - destruct Hl as [[_ Hl] | [(_ & _ & Hl) | (-> & _)]]; [tauto | tauto | done].
      - exfalso. lia. }
    split; [done|]. split; [intros Heq; apply Hrej; lia|].
    intros Heq Hdisk Hdisks. destruct rl as [e|[]].
    + exfalso.
      destruct Hl as [[_ Hl] | [(_ & _ & Hl) | (_ & _ & Hl)]]; [tauto | tauto | lia].
    + destruct Hl as (_ & _ & _ & _ & _ & _ & ->). done.
  - intros ->. destruct Hl as (_ & _ & _ & _ & Hle & _ & ->). done.
  - intros Hb Hsig Hgt. destruct rz as [e|[]].
    + destruct Hz as [[_ Hz] | [(_ & _ & _ & Hz) | (-> & _)]]; [tauto | tauto | done].
    + exfalso. lia.
  - intros ->.
    destruct Hz as (_ & _ & _ & _ & _ & _ & _ & _ & _ & _ & H8 & H9 & ->).
    repeat split; try done; lia.
Qed.

(** A locator whose relative offset is one above the bound 100. *)
Lemma maxOffset_bounds_witness :
  (Meta.Read (Zip64EndOfCentralDirectoryLocator.new no_junk 100,
              mkStream (locator_bytes 0 101 1) 0)).1
    = inl InvalidZip64CentralDirectoryLocator
  /\
  (Meta.Read (Zip64EndOfCentralDirectoryLocator.new no_junk 100,
              mkStream (locator_bytes 0 100 1) 0)).1 = inr tt.
Proof.
  split.
  - assert (Hm : 0 <= 100 < 2 ^ 64) by lia.
    apply (proj1 (maxOffset_bounds no_junk 100 (mkStream (locator_bytes 0 101 1) 0) Hm)).
    + split; vm_compute; discriminate.
    + vm_compute. reflexivity.
    + vm_compute. reflexivity.
  - assert (Hm : 0 <= 100 < 2 ^ 64) by lia.
    apply (proj1 (maxOffset_bounds no_junk 100 (mkStream (locator_bytes 0 100 1) 0) Hm)).
    + split; vm_compute; discriminate.
    + vm_compute. reflexivity.
    + vm_compute. reflexivity.
    + vm_compute. reflexivity.
    + vm_compute. reflexivity.
Defined.

(** ** Writing a record and reading it back *)

Lemma Write_from_at_end (vs : list Value) (c : list byte) :
  Write_from vs (mkStream c (Z.of_nat (length c))) =
    (inr tt, mkStream (c ++ flat_map Value_bytes vs)
                      (Z.of_nat (length (c ++ flat_map Value_bytes vs)))).
Proof.
  revert c. induction vs as [|v vs IH]; intros c.
  - simpl. unfold ret. by rewrite app_nil_r.
  - cbn [Write_from flat_map]. unfold bind.
    assert (Hw : StreamBase.Write (Value_bytes v) (mkStream c (Z.of_nat (length c)))
                 = (inr tt, mkStream (c ++ Value_bytes v)
                                     (Z.of_nat (length (c ++ Value_bytes v))))).
    { unfold StreamBase.Write. cbn [offset content].
      destruct (Z.ltb_spec (Z.of_nat (length c)) 0) as [E|E]; [lia|].
      rewrite Nat2Z.id, take_ge, drop_ge by lia.
      rewrite Nat.sub_diag. cbn [replicate].
      rewrite !app_nil_r, length_app. do 2 f_equal. lia. }
    rewrite Hw, IH. by rewrite app_assoc.
Qed.

Lemma serialized_eq (object : StructuredObject) :
  serialized object = flat_map Value_bytes (values object).
Proof.
  unfold serialized, written, Meta.Write.
  change (mkStream [] 0) with (mkStream [] (Z.of_nat (length (@nil byte)))).
  rewrite Write_from_at_end. reflexivity.
Qed.

Lemma written_eq (object : StructuredObject) :
  written object = mkStream (serialized object) 0.
Proof.
  unfold serialized, written, Meta.Write.
  change (mkStream [] 0) with (mkStream [] (Z.of_nat (length (@nil byte)))).
  rewrite Write_from_at_end. reflexivity.
Qed.

Lemma length_serialized (object : StructuredObject) :
  Z.of_nat (length (serialized object)) = Size object.
Proof.
  rewrite serialized_eq. unfold Size.
  induction (values object) as [|v vs IH]; [done|].
  cbn [flat_map foldr]. rewrite length_app, Nat2Z.inj_add, IH. f_equal.
  destruct v; simpl; by rewrite ?length_le_encode.
Qed.

(** ** C3: the size field of the Zip64 end-of-central-directory record *)

Lemma Zip64EndOfCentralDirectoryRecord_size_rejected junk maxOffset s r o' s' :
  Meta.Read (Zip64EndOfCentralDirectoryRecord.new junk maxOffset, s) = (r, (o', s')) ->
  has_bytes s 12 ->
  field_at s 0 4 = Signatures.Zip64EndOfCD ->
  field_at s 4 8 <> 44 ->
  r = inl InvalidZip64CentralDirectoryRecord /\ s' = advance 12 s.
Proof.
  intros H Hb H0 H1.
  apply Meta_Read_inv in H as (vs & H & ->).
  change (fields (Zip64EndOfCentralDirectoryRecord.new junk maxOffset))
    with (Zip64EndOfCentralDirectoryRecord.fields (wrap 64 maxOffset)) in H.
  rewrite Zip64EndOfCentralDirectoryRecord_values in H.
  cbn [Read_from Object_Read Zip64EndOfCentralDirectoryRecord.fields] in H.
  read_all H; norm_stream; checks.
  all: try match goal with
    | H : field_at _ 4 8 = ?size |- _ =>
        let v := eval vm_compute in size in change size with v in H
    | H : field_at _ 4 8 <> ?size |- _ =>
        let v := eval vm_compute in size in change size with v in H
    end.
  all: first [ exfalso; congruence | exfalso; stream_lia | idtac ].
  done.
Qed.

Lemma Zip64EndOfCentralDirectoryRecord_size_accepted junk maxOffset s r o' s' :
  Meta.Read (Zip64EndOfCentralDirectoryRecord.new junk maxOffset, s) = (r, (o', s')) ->
  has_bytes s 14 ->
  field_at s 0 4 = Signatures.Zip64EndOfCD ->
  field_at s 4 8 = 44 ->
  offset s + 14 <= offset s' /\ GetValue64 1 o' = 44.
Proof.
  intros H Hb H0 H1.
  apply Meta_Read_inv in H as (vs & H & ->).
  change (fields (Zip64EndOfCentralDirectoryRecord.new junk maxOffset))
    with (Zip64EndOfCentralDirectoryRecord.fields (wrap 64 maxOffset)) in H.
  rewrite Zip64EndOfCentralDirectoryRecord_values in H.
  cbn [Read_from Object_Read Zip64EndOfCentralDirectoryRecord.fields] in H.
  read_all H; norm_stream; checks.
  all: try match goal with
    | H : field_at _ 4 8 = ?size |- _ =>
        let v := eval vm_compute in size in change size with v in H
    | H : field_at _ 4 8 <> ?size |- _ =>
        let v := eval vm_compute in size in change size with v in H
    end.
  all: first [ exfalso; congruence | exfalso; stream_lia | idtac ].
  all: split; [stream_lia | assumption].
Qed.

(** What the stream holds after a record with the eleven fields of a
    Zip64 end-of-central-directory record was written to it. *)
Lemma Zip64EndOfCentralDirectoryRecord_written w a0 a1 a2 a3 a4 a5 a6 a7 a8 a9 :
  values w = [u32 a0; u64 a1; u16 a2; u16 a3; u32 a4; u32 a5;
              u64 a6; u64 a7; u64 a8; u64 a9; vec []] ->
  let s := written w in
  has_bytes s 56 /\ Z.of_nat (length (serialized w)) = 56 /\
  field_at s 0 4 = wrap 32 a0 /\ field_at s 4 8 = wrap 64 a1 /\
  field_at s 12 2 = wrap 16 a2 /\ field_at s 14 2 = wrap 16 a3 /\
  field_at s 16 4 = wrap 32 a4 /\ field_at s 20 4 = wrap 32 a5 /\
  field_at s 24 8 = wrap 64 a6 /\ field_at s 32 8 = wrap 64 a7 /\
  field_at s 40 8 = wrap 64 a8 /\ field_at s 48 8 = wrap 64 a9.
Proof.
  intros Hv. cbv zeta.
  assert (Hlen : Z.of_nat (length (serialized w)) = 56).
  { rewrite length_serialized. unfold Size. rewrite Hv. reflexivity. }
  rewrite written_eq. split; [|split; [done|]].
  { unfold has_bytes, size. cbn [offset content]. lia. }
  rewrite serialized_eq, Hv. unfold field_at, wrap.
  repeat split.
  - change (peek _ 0 4) with (le_encode 4 a0). apply le_decode_encode.
  - change (peek _ 4 8) with (le_encode 8 a1). apply le_decode_encode.
  - change (peek _ 12 2) with (le_encode 2 a2). apply le_decode_encode.
  - change (peek _ 14 2) with (le_encode 2 a3). apply le_decode_encode.
  - change (peek _ 16 4) with (le_encode 4 a4). apply le_decode_encode.
  - change (peek _ 20 4) with (le_encode 4 a5). apply le_decode_encode.
  - change (peek _ 24 8) with (le_encode 8 a6). apply le_decode_encode.
  - change (peek _ 32 8) with (le_encode 8 a7). apply le_decode_encode.
  - change (peek _ 40 8) with (le_encode 8 a8). apply le_decode_encode.
  - change (peek _ 48 8) with (le_encode 8 a9). apply le_decode_encode.
Qed.

(** C3.  A Zip64EndOfCentralDirectoryRecord read where the 12 bytes of its
    first two fields are present and start with its signature: if the
    size field (offset 4) is not [Size() - 12], the read throws
    InvalidZip64CentralDirectoryRecord in the validator of that field; a
    read that returns has decoded [Size() - 12] there.  For a record
    [fresh] made by the constructor alone: it holds [Size() - 12] in field
    1, its serialized bytes carry the serialized size minus 12 at offset 4,
    and a reader given these bytes decodes that value and goes on to the
    fields after it: the size validator does not throw. *)
Theorem Zip64EndOfCentralDirectoryRecord_declared_size
    (junk junk' : nat -> Z) (maxOffset maxOffset' : Z) (s : Stream) :
  let reader := Zip64EndOfCentralDirectoryRecord.new junk maxOffset in
  let result := Meta.Read (reader, s) in
  (has_bytes s 12 -> field_at s 0 4 = Signatures.Zip64EndOfCD ->
   field_at s 4 8 <> Size reader - 12 ->
   result.1 = inl InvalidZip64CentralDirectoryRecord /\ result.2.2 = advance 12 s)
  /\
  (result.1 = inr tt -> field_at s 4 8 = Size result.2.1 - 12)
  /\
  let fresh := Zip64EndOfCentralDirectoryRecord.new junk' maxOffset' in
  let serialized_size := Z.of_nat (length (serialized fresh)) in
  let back := Meta.Read (reader, written fresh) in
  GetValue64 1 fresh = Size fresh - 12 /\
  field_at (written fresh) 4 8 = serialized_size - 12 /\
  GetValue64 1 back.2.1 = serialized_size - 12 /\
  14 <= offset back.2.2.
Proof.
  cbv zeta. split; [|split].
  - destruct (Meta.Read (Zip64EndOfCentralDirectoryRecord.new junk maxOffset, s))
      as [r [o' s']] eqn:H.
    rewrite Zip64EndOfCentralDirectoryRecord_Size. simpl. intros Hb H0 H1.
    by apply (Zip64EndOfCentralDirectoryRecord_size_rejected _ _ _ _ _ _ H).
  - destruct (Meta.Read (Zip64EndOfCentralDirectoryRecord.new junk maxOffset, s))
      as [r [o' s']] eqn:H.
    apply Zip64EndOfCentralDirectoryRecord_Read_spec in H as (_ & _ & H).
    simpl. intros ->.
    destruct H as (_ & _ & _ & H1 & _ & _ & _ & _ & _ & _ & _ & _ & Hv).
    unfold Size. rewrite Hv. exact H1.
  - pose proof (Zip64EndOfCentralDirectoryRecord_written _ _ _ _ _ _ _ _ _ _ _
                  (Zip64EndOfCentralDirectoryRecord_values junk' maxOffset'))
      as (Hb & Hlen & H0 & H1 & _).
    rewrite Hlen.
    destruct (Meta.Read (Zip64EndOfCentralDirectoryRecord.new junk maxOffset,
                         written (Zip64EndOfCentralDirectoryRecord.new junk' maxOffset')))
      as [r [o' s']] eqn:H.
    apply Zip64EndOfCentralDirectoryRecord_size_accepted in H as [Hoff Hval].
    + simpl. repeat split; done.
    + unfold has_bytes in *. lia.
    + exact H0.
    + exact H1.
Qed.

(** The signature followed by a size field that announces 45 bytes. *)
Lemma Zip64EndOfCentralDirectoryRecord_declared_size_witness :
  let s := mkStream (zip64_eocd_prefix 45) 0 in
  let result := Meta.Read (Zip64EndOfCentralDirectoryRecord.new no_junk 1000, s) in
  result.1 = inl InvalidZip64CentralDirectoryRecord /\ result.2.2 = advance 12 s.
Proof.
  cbv zeta.
  apply (proj1 (Zip64EndOfCentralDirectoryRecord_declared_size no_junk no_junk 1000 0
                  (mkStream (zip64_eocd_prefix 45) 0))).
  - split; vm_compute; discriminate.
  - vm_compute. reflexivity.
  - vm_compute. discriminate.
Defined.

(** ** C6: the leading signature *)

Lemma byte_of_to_Z (b : byte) (x : Z) : byte_of_Z (byte_to_Z b + 256 * x) = b.
Proof.
  pose proof (byte_to_Z_range b) as Hb. unfold byte_of_Z.
  replace ((byte_to_Z b + 256 * x) mod 256) with (byte_to_Z b).
  - unfold byte_to_Z. rewrite N2Z.id, Byte.of_to_N. reflexivity.
  - rewrite (Z.mul_comm 256 x), Z.mod_add by lia. by rewrite Z.mod_small.
Qed.

Lemma le_encode_decode (bs : list byte) : le_encode (length bs) (le_decode bs) = bs.
Proof.
  induction bs as [|b bs IH]; [done|].
  cbn [length le_encode le_decode]. rewrite byte_of_to_Z. f_equal.
  pose proof (byte_to_Z_range b) as Hb.
  replace ((byte_to_Z b + 256 * le_decode bs) / 256) with (le_decode bs); [done|].
  rewrite (Z.mul_comm 256), Z.div_add by lia.
  rewrite (Z.div_small (byte_to_Z b)) by lia. lia.
Qed.

Lemma length_peek (s : Stream) (n : Z) :
  has_bytes s n -> 0 <= n -> length (peek s 0 n) = Z.to_nat n.
Proof.
  intros [H1 H2] Hn. unfold peek, size in *.
  rewrite length_take, length_drop. lia.
Qed.

(** Four bytes that are not the encoding of [magic] do not decode to it. *)
Lemma signature_bytes_differ (s : Stream) (magic : Z) :
  has_bytes s 4 ->
  peek s 0 4 <> le_encode 4 magic ->
  field_at s 0 4 <> magic.
Proof.
  intros Hb Hne Heq. apply Hne.
  rewrite <- (le_encode_decode (peek s 0 4)).
  rewrite length_peek by (done || lia).
  unfold field_at in Heq. by rewrite Heq.
Qed.

(** A record whose first field is a 4-byte field checked against [magic]:
    when the four bytes at the cursor decode to something else, [Read]
    throws the error of that validator after these four bytes, with the
    decoded value in field 0 and every other field as it was. *)
Lemma Read_signature_mismatch (this : StructuredObject) (magic : Z) (e : Error)
    (rest : list Object) (s : Stream) :
  fields this = Field4Bytes (fun v => throw_if (v !=? magic) e) :: rest ->
  has_bytes s 4 ->
  field_at s 0 4 <> magic ->
  Meta.Read (this, s) =
    (inl e, (SetValue 0 (u32 (field_at s 0 4)) this, advance 4 s)).
Proof.
  intros Hf Hb Hne. unfold Meta.Read. rewrite Hf.
  cbn [Read_from Object_Read]. rewrite bind_read_fixed.
  destruct (decide (has_bytes s 4)) as [_|]; [|done].
  apply neqb_true in Hne. rewrite Hne. cbn [throw_if throw].
  unfold SetValue. by rewrite Hf.
Qed.

(** C6 as amended.  Each of the five records starts with a 4-byte
    signature.  Read where four bytes are present that differ from the
    little-endian encoding of the record's signature in at least one byte,
    LocalFileHeader, CentralFileHeader, Zip64EndOfCentralDirectoryRecord
    and Zip64EndOfCentralDirectoryLocator throw InvalidHeader, the
    signature-mismatch error, and EndCentralDirectoryRecord throws
    InvalidEndOfCentralDirectoryRecord.  In all five the throw comes from
    the first field: four bytes are consumed, field 0 holds what they
    decode to and no other field of the record has changed. *)
Theorem signature_mismatch (junk : nat -> Z) (maxOffset : Z) (s : Stream) :
  has_bytes s 4 ->
  let stops_at_signature (record : StructuredObject) (e : Error) :=
    Meta.Read (record, s) =
      (inl e, (SetValue 0 (u32 (field_at s 0 4)) record, advance 4 s)) in
  (peek s 0 4 <> le_encode 4 Signatures.LocalFileHeader ->
   stops_at_signature (LocalFileHeader.new junk) InvalidHeader)
  /\
  (peek s 0 4 <> le_encode 4 Signatures.CentralFileHeader ->
   stops_at_signature (CentralFileHeader.new junk) InvalidHeader)
  /\
  (peek s 0 4 <> le_encode 4 Signatures.Zip64EndOfCD ->
   stops_at_signature (Zip64EndOfCentralDirectoryRecord.new junk maxOffset) InvalidHeader)
  /\
  (peek s 0 4 <> le_encode 4 Signatures.Zip64EndOfCDLocator ->
   stops_at_signature (Zip64EndOfCentralDirectoryLocator.new junk maxOffset) InvalidHeader)
  /\
  (peek s 0 4 <> le_encode 4 Signatures.EndOfCentralDirectory ->
   stops_at_signature (EndCentralDirectoryRecord.new junk)
     InvalidEndOfCentralDirectoryRecord).
Proof.
  intros Hb. cbv zeta.
  repeat split; intros Hne; apply signature_bytes_differ in Hne; try done.
  all: eapply Read_signature_mismatch; [reflexivity | done | done].
Qed.

(** A stream that does not start with the signature of a Zip64 EOCD. *)
Lemma signature_mismatch_witness :
  (Meta.Read (Zip64EndOfCentralDirectoryRecord.new no_junk 0,
              mkStream flipped_eocd_bytes 0)).1 = inl InvalidHeader.
Proof.
  assert (Hb : has_bytes (mkStream flipped_eocd_bytes 0) 4)
    by (split; vm_compute; discriminate).
  pose proof (signature_mismatch no_junk 0 (mkStream flipped_eocd_bytes 0) Hb)
    as (_ & _ & H & _).
  rewrite H; [reflexivity|]. vm_compute. discriminate.
Defined.

(** Against C6 as the specification has it, with one error for the five
    records: on an EndCentralDirectoryRecord a flipped signature byte gives
    InvalidEndOfCentralDirectoryRecord, not the signature-mismatch error
    InvalidHeader the four other records throw. *)
Lemma signature_mismatch_eocd_counterexample :
  let s := mkStream flipped_eocd_bytes 0 in
  has_bytes s 4 /\
  peek s 0 4 <> le_encode 4 Signatures.EndOfCentralDirectory /\
  (Meta.Read (EndCentralDirectoryRecord.new no_junk, s)).1
    = inl InvalidEndOfCentralDirectoryRecord /\
  (Meta.Read (EndCentralDirectoryRecord.new no_junk, s)).1 <> inl InvalidHeader.
Proof.
  cbv zeta. split; [split; vm_compute; discriminate|].
  split; [vm_compute; discriminate|].
  split; [vm_compute; reflexivity | vm_compute; discriminate].
Qed.

(** ** Objects of a record class *)

Lemma fresh_holds junk fs : Forall2 holds fs (fresh junk fs).
Proof.
  unfold fresh.
  assert (H : forall g : nat -> Object -> Value,
             (forall i f, holds f (g i f)) -> Forall2 holds fs (imap g fs)).
  { induction fs as [|f fs IH]; intros g Hg; cbn [imap]; constructor.
    - apply Hg.
    - apply IH. intros i f'. apply Hg. }
  apply H. intros i f. by destruct f.
Qed.

(** Every object a constructor makes is an object of its class. *)
Lemma construct_instance junk fs : instance_of fs (construct junk fs).
Proof. split; [done | apply fresh_holds]. Qed.

Lemma SetValue_instance fs this i f v :
  instance_of fs this -> fs !! i = Some f -> holds f v ->
  instance_of fs (SetValue i v this).
Proof.
  intros [Hf Hv] Hi Hh. split; [done|]. cbn [values SetValue].
  rewrite <- (list_insert_id fs i f) by done. by apply Forall2_insert.
Qed.

Lemma instance_u16 fs this i validate :
  instance_of fs this -> fs !! i = Some (Field2Bytes validate) ->
  exists x, values this !! i = Some (u16 x).
Proof.
  intros [_ Hv] Hi.
  destruct (Forall2_lookup_l _ _ _ _ _ Hv Hi) as (v & Hl & Hh).
  destruct v; try done. eauto.
Qed.

Lemma GetValue16_SetValue16 fs this i validate value :
  instance_of fs this -> fs !! i = Some (Field2Bytes validate) ->
  GetValue16 i (SetValue16 i value this) = wrap 16 value.
Proof.
  intros Hi Hf. destruct (instance_u16 _ _ _ _ Hi Hf) as [x Hx].
  unfold GetValue16, SetValue16, SetValue. cbn [values].
  rewrite list_lookup_insert_eq; [done|]. by eapply lookup_lt_Some.
Qed.

(** ** C8: LocalFileHeader::SetFileName *)

(** C8 as amended.  For every LocalFileHeader object and every string
    [name], [SetFileName(name)] assigns to field 9 the size of [name]
    converted to 16 bits, that is modulo 65536, and changes no other field:
    the bytes of field 11 are those held before, so [GetFileName()] still
    returns the previous name.  It differs from [name] whenever the
    previous name did, and the length field disagrees with the number of
    name bytes held whenever that number is not the size of [name] modulo
    65536. *)
Theorem LocalFileHeader_SetFileName_keeps_name (this : StructuredObject) (name : string) :
  instance_of LocalFileHeader.fields this ->
  let after := LocalFileHeader.SetFileName name this in
  let stored := Z.of_nat (length (GetValueN 11 after)) in
  instance_of LocalFileHeader.fields after /\
  LocalFileHeader.GetFileNameLength after = Z.of_nat (String.length name) mod 65536 /\
  (forall i, i <> 9%nat -> values after !! i = values this !! i) /\
  GetValueN 11 after = GetValueN 11 this /\
  LocalFileHeader.GetFileName after = LocalFileHeader.GetFileName this /\
  (LocalFileHeader.GetFileName this <> name ->
   LocalFileHeader.GetFileName after <> name) /\
  (Z.of_nat (length (GetValueN 11 this)) <> Z.of_nat (String.length name) mod 65536 ->
   LocalFileHeader.GetFileNameLength after <> stored).
Proof.
  intros Hi. cbv zeta.
  assert (Hlen : LocalFileHeader.GetFileNameLength (LocalFileHeader.SetFileName name this)
                 = Z.of_nat (String.length name) mod 65536).
  { unfold LocalFileHeader.GetFileNameLength, LocalFileHeader.SetFileName,
      LocalFileHeader.SetFileNameLength.
    erewrite GetValue16_SetValue16; [|exact Hi|reflexivity].
    unfold size16. rewrite wrap_wrap by lia. reflexivity. }
  assert (Hother : forall i, i <> 9%nat ->
            values (LocalFileHeader.SetFileName name this) !! i = values this !! i).
  { intros i Hne. unfold LocalFileHeader.SetFileName,
      LocalFileHeader.SetFileNameLength, SetValue16, SetValue. cbn [values].
    by rewrite list_lookup_insert_ne. }
  assert (Hvec : GetValueN 11 (LocalFileHeader.SetFileName name this) = GetValueN 11 this).
  { unfold GetValueN. by rewrite Hother. }
  assert (Hname : LocalFileHeader.GetFileName (LocalFileHeader.SetFileName name this)
                  = LocalFileHeader.GetFileName this).
  { unfold LocalFileHeader.GetFileName. by rewrite Hvec. }
  split; [|repeat split; try done].
  - unfold LocalFileHeader.SetFileName, LocalFileHeader.SetFileNameLength, SetValue16.
    eapply SetValue_instance; [exact Hi | reflexivity | done].
  - by rewrite Hname.
  - rewrite Hlen, Hvec. intros Hne Heq. apply Hne. by rewrite Heq.
Qed.

Lemma LocalFileHeader_SetFileName_keeps_name_witness :
  let this := LocalFileHeader.new no_junk in
  LocalFileHeader.GetFileName (LocalFileHeader.SetFileName "a.txt" this) = EmptyString /\
  LocalFileHeader.GetFileNameLength (LocalFileHeader.SetFileName "a.txt" this) = 5.
Proof.
  cbv zeta.
  assert (Hi : instance_of LocalFileHeader.fields (LocalFileHeader.new no_junk))
    by (split; [reflexivity | repeat constructor]).
  pose proof (LocalFileHeader_SetFileName_keeps_name (LocalFileHeader.new no_junk)
                "a.txt" Hi)
    as (_ & Hlen & _ & _ & Hname & _).
  split; [rewrite Hname | rewrite Hlen]; reflexivity.
Defined.

(** Against C8 as the specification has it, for every header and every
    string: on a new header, whose name is empty, [SetFileName] of the
    empty string leaves a name equal to the argument and a length field
    equal to the number of name bytes; and [SetFileName] of a name of 65536
    bytes leaves 0 in the length field, not the size of the name. *)
Lemma LocalFileHeader_SetFileName_counterexample :
  let after := LocalFileHeader.SetFileName EmptyString (LocalFileHeader.new no_junk) in
  let after' := LocalFileHeader.SetFileName long_string (LocalFileHeader.new no_junk) in
  LocalFileHeader.GetFileName after = EmptyString /\
  LocalFileHeader.GetFileNameLength after = Z.of_nat (length (GetValueN 11 after)) /\
  Z.of_nat (String.length long_string) = 65536 /\
  LocalFileHeader.GetFileNameLength after' = 0.
Proof.
  cbv zeta. split; [reflexivity|]. split; [reflexivity|].
  split; vm_compute; reflexivity.
Qed.

(** ** C9: CentralFileHeader::SetComment *)

Lemma instance_vec fs this i validate :
  instance_of fs this -> fs !! i = Some (FieldNBytes validate) ->
  exists d, values this !! i = Some (vec d).
Proof.
  intros [_ Hv] Hi.
  destruct (Forall2_lookup_l _ _ _ _ _ Hv Hi) as (v & Hl & Hh).
  destruct v; try done. eauto.
Qed.

(** C9 as amended.  For every CentralFileHeader object and every string
    [comment], [SetComment(comment)] stores the bytes of [comment] in field
    19 and assigns to field 11, the extra-field length, the size of
    [comment] converted to 16 bits, that is modulo 65536, hence the size
    itself when it is at most 65535.  Field 12, the file-comment length, and
    every field other than 11 and 19 keep their value: after the call
    [GetFileCommentLength()] is the size of [comment] only if it was
    before. *)
Theorem CentralFileHeader_SetComment_sets_extra_length
    (this : StructuredObject) (comment : string) :
  instance_of CentralFileHeader.fields this ->
  let after := CentralFileHeader.SetComment comment this in
  let size := Z.of_nat (String.length comment) in
  instance_of CentralFileHeader.fields after /\
  GetValueN 19 after = vec_of_string comment /\
  CentralFileHeader.GetComment after = comment /\
  CentralFileHeader.GetExtraFieldLength after = size mod 65536 /\
  (size <= 65535 -> CentralFileHeader.GetExtraFieldLength after = size) /\
  CentralFileHeader.GetFileCommentLength after
    = CentralFileHeader.GetFileCommentLength this /\
  (CentralFileHeader.GetFileCommentLength this <> size ->
   CentralFileHeader.GetFileCommentLength after <> size) /\
  (forall i, i <> 11%nat -> i <> 19%nat -> values after !! i = values this !! i).
Proof.
  intros Hi. cbv zeta.
  destruct (instance_vec _ _ 19%nat _ Hi eq_refl) as [d Hd].
  assert (H19 : (19 < length (values this))%nat) by (by eapply lookup_lt_Some).
  set (mid := SetValue 19 (vec (vec_of_string comment))
                (SetValue 19 (vec (resize (String.length comment) x00 (GetValueN 19 this)))
                   this)).
  assert (Hmid : instance_of CentralFileHeader.fields mid).
  { unfold mid. eapply SetValue_instance; [|reflexivity|done].
    eapply SetValue_instance; [exact Hi|reflexivity|done]. }
  change (CentralFileHeader.SetComment comment this)
    with (CentralFileHeader.SetExtraFieldLength (size16 comment) mid).
  assert (Hother : forall i, i <> 11%nat -> i <> 19%nat ->
            values (CentralFileHeader.SetExtraFieldLength (size16 comment) mid) !! i
            = values this !! i).
  { intros i H11 H19'. unfold CentralFileHeader.SetExtraFieldLength, SetValue16, mid,
      SetValue. cbn [values]. by rewrite !list_lookup_insert_ne. }
  assert (Hvec : GetValueN 19 (CentralFileHeader.SetExtraFieldLength (size16 comment) mid)
                 = vec_of_string comment).
  { unfold GetValueN, CentralFileHeader.SetExtraFieldLength, SetValue16, mid, SetValue.
    cbn [values]. rewrite list_lookup_insert_ne by done.
    rewrite list_lookup_insert_eq; [done|]. by rewrite length_insert. }
  assert (Hextra : CentralFileHeader.GetExtraFieldLength
                     (CentralFileHeader.SetExtraFieldLength (size16 comment) mid)
                   = Z.of_nat (String.length comment) mod 65536).
  { unfold CentralFileHeader.GetExtraFieldLength, CentralFileHeader.SetExtraFieldLength.
    erewrite GetValue16_SetValue16; [|exact Hmid|reflexivity].
    unfold size16. rewrite wrap_wrap by lia. reflexivity. }
  assert (Hkeep : CentralFileHeader.GetFileCommentLength
                    (CentralFileHeader.SetExtraFieldLength (size16 comment) mid)
                  = CentralFileHeader.GetFileCommentLength this).
  { unfold CentralFileHeader.GetFileCommentLength, GetValue16. by rewrite Hother. }
  split; [|repeat split; try done].
  - unfold CentralFileHeader.SetExtraFieldLength, SetValue16.
    eapply SetValue_instance; [exact Hmid | reflexivity | done].
  - unfold CentralFileHeader.GetComment. rewrite Hvec.
    apply string_of_list_byte_of_string.
  - intros Hle. rewrite Hextra. apply Z.mod_small. lia.
  - by rewrite Hkeep.
Qed.

Lemma CentralFileHeader_SetComment_sets_extra_length_witness :
  let after := CentralFileHeader.SetComment "note" (CentralFileHeader.new no_junk) in
  CentralFileHeader.GetExtraFieldLength after = 4 /\
  CentralFileHeader.GetFileCommentLength after = 0.
Proof.
  cbv zeta.
  assert (Hi : instance_of CentralFileHeader.fields (CentralFileHeader.new no_junk))
    by (split; [reflexivity | repeat constructor]).
  pose proof (CentralFileHeader_SetComment_sets_extra_length
                (CentralFileHeader.new no_junk) "note" Hi)
    as (_ & _ & _ & Hextra & _ & Hkeep & _).
  split; [rewrite Hextra | rewrite Hkeep]; reflexivity.
Defined.

(** Against C9 as the specification has it, for every string: after
    [SetComment] of a comment of 65536 bytes, whose size does not fit 16
    bits, [GetExtraFieldLength()] is 0, not the size of the comment. *)
Lemma CentralFileHeader_SetComment_counterexample :
  let after := CentralFileHeader.SetComment long_string (CentralFileHeader.new no_junk) in
  Z.of_nat (String.length long_string) = 65536 /\
  CentralFileHeader.GetExtraFieldLength after = 0 /\
  CentralFileHeader.GetExtraFieldLength after <> Z.of_nat (String.length long_string).
Proof.
  cbv zeta.
  assert (Hlen : Z.of_nat (String.length long_string) = 65536) by (vm_compute; reflexivity).
  assert (Hextra : CentralFileHeader.GetExtraFieldLength
                     (CentralFileHeader.SetComment long_string
                        (CentralFileHeader.new no_junk)) = 0)
    by (vm_compute; reflexivity).
  rewrite Hlen, Hextra. repeat split; done.
Qed.

(** ** C10: a new Zip64 end-of-central-directory record does not read back *)

Lemma calls_values (cs : list Zip64Call) :
  forall this disk entries cd_size cd_offset,
    values this = zip64_values disk entries cd_size cd_offset ->
    exists entries' cd_size' cd_offset',
      values (calls cs this) = zip64_values disk entries' cd_size' cd_offset' /\
      (entries' = entries \/
       exists value, In (Call_SetTotalNumberOfEntries value) cs /\
                     entries' = wrap 64 value).
Proof.
  induction cs as [|c cs IH]; intros this disk entries cd_size cd_offset Hv.
  - exists entries, cd_size, cd_offset. split; [done | by left].
  - cbn [calls foldl]. fold (calls cs (call c this)).
    destruct c as [value|value|value].
    + destruct (IH (call (Call_SetTotalNumberOfEntries value) this)
                  disk (wrap 64 value) cd_size cd_offset)
        as (e' & s' & o' & Hv' & He').
      { cbn [call]. unfold Zip64EndOfCentralDirectoryRecord.SetTotalNumberOfEntries,
          SetValue64, SetValue. cbn [values]. by rewrite Hv. }
      exists e', s', o'. split; [done|]. right.
      destruct He' as [-> | (v & Hin & ->)].
      * exists value. split; [by left | done].
      * exists v. split; [by right | done].
    + destruct (IH (call (Call_SetSizeOfCD value) this)
                  disk entries (wrap 64 value) cd_offset)
        as (e' & s' & o' & Hv' & He').
      { cbn [call]. unfold Zip64EndOfCentralDirectoryRecord.SetSizeOfCD,
          SetValue64, SetValue. cbn [values]. by rewrite Hv. }
      exists e', s', o'. split; [done|].
      destruct He' as [-> | (v & Hin & ->)]; [by left|].
      right. exists v. split; [by right | done].
    + destruct (IH (call (Call_SetOffsetfStartOfCD value) this)
                  disk entries cd_size (wrap 64 value))
        as (e' & s' & o' & Hv' & He').
      { cbn [call]. unfold Zip64EndOfCentralDirectoryRecord.SetOffsetfStartOfCD,
          SetValue64, SetValue. cbn [values]. by rewrite Hv. }
      exists e', s', o'. split; [done|].
      destruct He' as [-> | (v & Hin & ->)]; [by left|].
      right. exists v. split; [by right | done].
Qed.

(** C10.  A Zip64EndOfCentralDirectoryRecord made by its constructor holds
    0 in both entry-count fields (6 and 7), and the validator of field 6
    throws InvalidZip64CentralDirectoryRecord on 0.  So the bytes such a
    record writes are not read back: a reader of the same class, whatever
    its bound, throws InvalidZip64CentralDirectoryRecord.  And when the
    object written was obtained from a new one by calls of its setters, the
    read-back returns only if [SetTotalNumberOfEntries] was among them with
    an argument that is not 0. *)
Theorem Zip64EndOfCentralDirectoryRecord_default_round_trip
    (junk junk' : nat -> Z) (maxOffset maxOffset' : Z) (cs : list Zip64Call) :
  let fresh := Zip64EndOfCentralDirectoryRecord.new junk' maxOffset' in
  let reader := Zip64EndOfCentralDirectoryRecord.new junk maxOffset in
  GetValue64 6 fresh = 0 /\ GetValue64 7 fresh = 0
  /\
  match fields reader !! 6%nat with
  | Some (Field8Bytes validate) =>
      forall this, (validate 0 this).1 = inl InvalidZip64CentralDirectoryRecord
  | _ => False
  end
  /\
  (Meta.Read (reader, written fresh)).1 = inl InvalidZip64CentralDirectoryRecord
  /\
  ((Meta.Read (reader, written (calls cs fresh))).1 = inr tt ->
   exists value, In (Call_SetTotalNumberOfEntries value) cs /\ wrap 64 value <> 0).
Proof.
  cbv zeta. split; [reflexivity|]. split; [reflexivity|]. split; [done|].
  assert (Hback : forall w disk entries cd_size cd_offset,
            values w = zip64_values disk entries cd_size cd_offset ->
            match (Meta.Read (Zip64EndOfCentralDirectoryRecord.new junk maxOffset,
                              written w)).1 with
            | inr _ => wrap 64 entries <> 0
            | inl e => e = InvalidZip64CentralDirectoryRecord
            end).
  { intros w disk entries cd_size cd_offset Hv.
    pose proof (Zip64EndOfCentralDirectoryRecord_written _ _ _ _ _ _ _ _ _ _ _ Hv)
      as (Hb & _ & H0 & _ & _ & _ & _ & _ & H6 & _).
    destruct (Meta.Read (Zip64EndOfCentralDirectoryRecord.new junk maxOffset, written w))
      as [r [o' s']] eqn:H.
    apply Zip64EndOfCentralDirectoryRecord_Read_spec in H as (_ & _ & H).
    simpl. destruct r as [e|[]].
    - destruct H as [[_ H] | [(_ & _ & _ & H) | [-> _]]]; [done | | done].
      exfalso. apply H. rewrite H0. reflexivity.
    - destruct H as (_ & _ & _ & _ & _ & _ & _ & _ & Hne & _). by rewrite <- H6. }
  split.
  - specialize (Hback _ _ _ _ _
                  (Zip64EndOfCentralDirectoryRecord_values junk' maxOffset')).
    destruct (Meta.Read _).1 as [e|[]]; [by rewrite Hback | done].
  - intros Hok.
    destruct (calls_values cs _ _ _ _ _
                (Zip64EndOfCentralDirectoryRecord_values junk' maxOffset'))
      as (e' & s' & o' & Hv' & He').
    specialize (Hback _ _ _ _ _ Hv'). rewrite Hok in Hback.
    destruct He' as [-> | (value & Hin & ->)]; [done|].
    exists value. split; [done|]. by rewrite wrap_wrap in Hback by lia.
Qed.

Lemma Zip64EndOfCentralDirectoryRecord_default_round_trip_witness :
  exists value, In (Call_SetTotalNumberOfEntries value) one_entry /\ wrap 64 value <> 0.
Proof.
  apply (Zip64EndOfCentralDirectoryRecord_default_round_trip no_junk no_junk 1 0 one_entry).
  vm_compute. reflexivity.
Defined.

(** ** ZipStream::Read *)

Section Discovery.
Context {Entry : Type}.
Implicit Types (this : ZipStream.t Entry) (junk : nat -> Z).

Lemma bind_ext {S A B} (m : M S A) (k k' : A -> M S B) (s : S) :
  (forall a s', m s = (inr a, s') -> k a s' = k' a s') ->
  bind m k s = bind m k' s.
Proof.
  intros H. unfold bind. destruct (m s) as [[e|a] s'] eqn:Hm; [done|]. by apply H.
Qed.

Lemma Seek_END (delta : Z) (s : Stream) :
  Seek delta END s = Seek (size s + delta) START s.
Proof. unfold Seek. by rewrite Z.add_0_l. Qed.

Lemma on_stream_Seek_START p this r this' :
  ZipStream.on_stream (Seek p START) this = (inr r, this') ->
  this' = ZipStream.mk (mkStream (content (ZipStream.stream this)) p)
                       (ZipStream.containedFiles this) /\ 0 <= p.
Proof.
  unfold ZipStream.on_stream, Seek. rewrite Z.add_0_l.
  destruct (Z.ltb_spec p 0); [done|]. by intros [= <- <-].
Qed.

Lemma read_object_inv object this object' this' :
  ZipStream.read_object object this = (inr object', this') ->
  exists s', Meta.Read (object, ZipStream.stream this) = (inr tt, (object', s')) /\
             this' = ZipStream.mk s' (ZipStream.containedFiles this).
Proof.
  unfold ZipStream.read_object.
  destruct (Meta.Read (object, ZipStream.stream this)) as [[e|[]] [o' s']]; [done|].
  intros [= <- <-]. eauto.
Qed.

Lemma bind_ext2 {S A B} (m m' : M S A) (k k' : A -> M S B) (s : S) :
  m s = m' s ->
  (forall a s', m' s = (inr a, s') -> k a s' = k' a s') ->
  bind m k s = bind m' k' s.
Proof.
  intros Hm H. unfold bind. rewrite Hm.
  destruct (m' s) as [[e|a] s'] eqn:Hm'; [done|]. by apply H.
Qed.

Lemma on_stream_Seek_END (delta : Z) this :
  ZipStream.on_stream (Seek delta END) this =
  ZipStream.on_stream (Seek (size (ZipStream.stream this) + delta) START) this.
Proof. unfold ZipStream.on_stream. by rewrite Seek_END. Qed.

Lemma bind_Ftell {B} (k : Z -> M (ZipStream.t Entry) B) this :
  bind (ZipStream.on_stream (fun s => (inr (Ftell s), s))) k this =
  k (offset (ZipStream.stream this)) this.
Proof. unfold bind, ZipStream.on_stream, Ftell. by destruct this. Qed.

(** [ZipStream::Read] is the discovery in which the locator is bounded by
    the start of the EOCD and the Zip64 EOCD by the start of the
    locator. *)
Lemma Read_discovery junk this :
  ZipStream.Read junk this = discovery (fun e => e - 22) (fun e => e - 42) junk this.
Proof.
  unfold ZipStream.Read, discovery.
  set (e := size (ZipStream.stream this)).
  change (Size (EndCentralDirectoryRecord.new junk)) with 22. cbv zeta.
  apply bind_ext2.
  { rewrite on_stream_Seek_END. fold e. by replace (e + -1 * 22) with (e - 22) by lia. }
  intros [] this1 H1. apply on_stream_Seek_START in H1 as [-> Hp1].
  apply bind_ext. intros eocd this2 H2.
  apply read_object_inv in H2 as (s2 & H2 & ->).
  apply EndCentralDirectoryRecord_Read_spec in H2 as (_ & _ & H2).
  destruct H2 as (_ & -> & _ & _ & _ & _ & _ & _ & _ & _ & Hv).
  cbn [ZipStream.stream ZipStream.containedFiles].
  assert (Hsize : Size eocd = 22) by (unfold Size; rewrite Hv; reflexivity).
  rewrite bind_Ftell. cbn [ZipStream.stream advance offset content]. rewrite Hsize.
  change (Size (Zip64EndOfCentralDirectoryLocator.new junk (e - 22 + 22 - 22))) with 20.
  replace (e - 22 + 22 - 22) with (e - 22) by lia.
  apply bind_ext2.
  { rewrite on_stream_Seek_END. cbn [ZipStream.stream]. unfold size at 1.
    cbn [content]. fold (size (ZipStream.stream this)). fold e.
    by replace (e + -1 * (22 + 20)) with (e - 42) by lia. }
  intros [] this3 H3. apply on_stream_Seek_START in H3 as [-> Hp3].
  cbn [ZipStream.stream ZipStream.containedFiles content].
  apply bind_ext. intros loc this4 H4.
  apply read_object_inv in H4 as (s4 & H4 & ->).
  apply Zip64EndOfCentralDirectoryLocator_Read_spec in H4 as (_ & _ & H4).
  destruct H4 as (_ & -> & _ & _ & _ & _ & Hv').
  assert (Hsize' : Size loc = 20) by (unfold Size; rewrite Hv'; reflexivity).
  rewrite bind_Ftell. cbn [ZipStream.stream advance offset content]. rewrite Hsize'.
  replace (e - 42 + 20 - 20) with (e - 42) by lia.
  reflexivity.
Qed.

Lemma bind_inv {S A B} (m : M S A) (k : A -> M S B) (s s' : S) (b : B) :
  bind m k s = (inr b, s') ->
  exists a s1, m s = (inr a, s1) /\ k a s1 = (inr b, s').
Proof.
  unfold bind. destruct (m s) as [[e|a] s1]; [done|]. eauto.
Qed.

(** What a [ZipStream::Read] without exception has found in the stream. *)
Lemma Read_success junk this this' :
  ZipStream.Read junk this = (inr tt, this') ->
  let e := size (ZipStream.stream this) in
  let from p := mkStream (content (ZipStream.stream this)) p in
  let relative_offset := field_at (from (e - 42)) 8 8 in
  42 <= e /\
  relative_offset <= wrap 64 (e - 22) /\
  has_bytes (from relative_offset) 56 /\
  field_at (from relative_offset) 24 8 <> 0 /\
  0 < field_at (from relative_offset) 40 8 <= wrap 64 (e - 42) /\
  0 < field_at (from relative_offset) 48 8 <= wrap 64 (e - 42) /\
  this' = ZipStream.mk (from (relative_offset + 56)) (ZipStream.containedFiles this).
Proof.
  rewrite Read_discovery. unfold discovery. cbv zeta.
  set (e := size (ZipStream.stream this)).
  intros H.
  apply bind_inv in H as ([] & this1 & H1 & H).
  apply on_stream_Seek_START in H1 as [-> Hp1].
  apply bind_inv in H as (eocd & this2 & H2 & H).
  apply read_object_inv in H2 as (s2 & H2 & ->).
  apply EndCentralDirectoryRecord_Read_spec in H2 as (Hc2 & _ & _).
  cbn [ZipStream.stream ZipStream.containedFiles content] in *.
  apply bind_inv in H as ([] & this3 & H3 & H).
  apply on_stream_Seek_START in H3 as [-> Hp3].
  cbn [ZipStream.stream ZipStream.containedFiles content] in *. rewrite Hc2 in H.
  apply bind_inv in H as (loc & this4 & H4 & H).
  apply read_object_inv in H4 as (s4 & H4 & ->).
  apply Zip64EndOfCentralDirectoryLocator_Read_spec in H4 as (Hc4 & _ & H4).
  destruct H4 as (_ & _ & _ & _ & Hrel & _ & Hv).
  cbn [ZipStream.stream ZipStream.containedFiles content] in *.
  apply bind_inv in H as ([] & this5 & H5 & H).
  apply on_stream_Seek_START in H5 as [-> Hp5].
  cbn [ZipStream.stream ZipStream.containedFiles content] in *. rewrite Hc4 in H.
  cbn [content] in H.
  apply bind_inv in H as (z & this6 & H6 & H).
  apply read_object_inv in H6 as (s6 & H6 & ->).
  apply Zip64EndOfCentralDirectoryRecord_Read_spec in H6 as (_ & _ & H6).
  destruct H6 as (Hb & -> & _ & _ & _ & _ & _ & _ & Hne & _ & H8 & H9 & _).
  injection H as <-.
  assert (Hget : Zip64EndOfCentralDirectoryLocator.GetRelativeOffset loc
                 = field_at (mkStream (content (ZipStream.stream this)) (e - 42)) 8 8).
  { unfold Zip64EndOfCentralDirectoryLocator.GetRelativeOffset, GetValue64.
    by rewrite Hv. }
  rewrite Hget in *. cbn [ZipStream.stream] in *.
  conjuncts; first [done | lia].
Qed.

(** C4 as amended.  [ZipStream::Read] on a stream of [e] bytes, [e] below
    2^64, does this and in this order: seek to [e - 22] and read the EOCD;
    seek to [e - 42] and read the locator, whose relative offset is
    bounded by [e - 22], the position at which the EOCD starts; seek from
    the start to the locator's relative offset and read the Zip64 EOCD,
    whose size and offset of the central directory are bounded by
    [e - 42], the position at which the locator starts.  When it returns,
    the relative offset and these two fields are within these bounds and
    the cursor is after the 56 bytes of the Zip64 EOCD. *)
Theorem ZipStream_Read_order junk this :
  size (ZipStream.stream this) < 2 ^ 64 ->
  let e := size (ZipStream.stream this) in
  let from p := mkStream (content (ZipStream.stream this)) p in
  let relative_offset := field_at (from (e - 42)) 8 8 in
  ZipStream.Read junk this = discovery (fun e => e - 22) (fun e => e - 42) junk this
  /\
  ((ZipStream.Read junk this).1 = inr tt ->
   42 <= e /\
   relative_offset <= e - 22 /\
   field_at (from relative_offset) 40 8 <= e - 42 /\
   field_at (from relative_offset) 48 8 <= e - 42 /\
   ZipStream.stream (ZipStream.Read junk this).2 = from (relative_offset + 56)).
Proof.
  intros Hlt. cbv zeta. split; [apply Read_discovery|].
  destruct (ZipStream.Read junk this) as [r this'] eqn:H. simpl. intros ->.
  apply Read_success in H as (He & Hrel & _ & _ & H8 & H9 & ->).
  rewrite wrap_small in Hrel, H8, H9 by lia.
  repeat split; try done; lia.
Qed.

End Discovery.

Lemma ZipStream_Read_order_witness :
  let this := opened (end_of_archive 57 1) in
  ZipStream.stream (ZipStream.Read no_junk this).2 = mkStream (end_of_archive 57 1) 57.
Proof.
  cbv zeta.
  assert (Hlt : size (ZipStream.stream (opened (end_of_archive 57 1))) < 2 ^ 64)
    by (vm_compute; reflexivity).
  pose proof (ZipStream_Read_order no_junk (opened (end_of_archive 57 1)) Hlt) as [_ H].
  destruct H as (_ & _ & _ & _ & H); [vm_compute; reflexivity|].
  rewrite H. vm_compute. reflexivity.
Defined.

(** Against C4 as the specification has it, on both bounds.  In the first
    stream of 99 bytes the size of the central directory is 77: not above
    the position of the stream just before the third seek, which is 77, but
    above 57, where the locator starts.  [ZipStream::Read] throws
    InvalidZip64CentralDirectoryRecord; the discovery as the specification
    words it returns.  In the second the locator gives the relative offset
    60: above 57, the position the second seek computes, but not above 77,
    where the EOCD starts.  The discovery as the specification words it
    throws InvalidZip64CentralDirectoryLocator; [ZipStream::Read] reads the
    locator without exception, seeks to 60 and throws InvalidHeader, for at
    60 there is no Zip64 EOCD. *)
Lemma ZipStream_Read_order_counterexample :
  let this := opened (end_of_archive 77 1) in
  let that := opened (end_of_archive 1 60) in
  (ZipStream.Read no_junk this).1 = inl InvalidZip64CentralDirectoryRecord /\
  (Read_as_stated no_junk this).1 = inr tt /\
  (ZipStream.Read no_junk that).1 = inl InvalidHeader /\
  (Read_as_stated no_junk that).1 = inl InvalidZip64CentralDirectoryLocator.
Proof. cbv zeta. repeat split; vm_compute; reflexivity. Qed.

(** ** C1: the names of the entries *)

Section Names.
Context {Entry : Type}.
Implicit Types (this : ZipStream.t Entry) (junk : nat -> Z).

Lemma keeps_ret {A} (a : A) : keeps_files Entry (ret a).
Proof. by intros this. Qed.

Lemma keeps_on_stream {A} (m : M Stream A) : keeps_files Entry (ZipStream.on_stream m).
Proof. intros this. unfold ZipStream.on_stream. by destruct (m _) as [r s]. Qed.

Lemma keeps_read_object object : keeps_files Entry (ZipStream.read_object object).
Proof.
  intros this. unfold ZipStream.read_object.
  by destruct (Meta.Read _) as [[e|[]] [o' s']].
Qed.

Lemma keeps_bind {A B} (m : M (ZipStream.t Entry) A) (k : A -> M (ZipStream.t Entry) B) :
  keeps_files Entry m -> (forall a, keeps_files Entry (k a)) -> keeps_files Entry (bind m k).
Proof.
  intros Hm Hk this. unfold bind. specialize (Hm this).
  destruct (m this) as [[e|a] this1]; [done|].
  rewrite Hk. exact Hm.
Qed.

Lemma Read_keeps_files junk : keeps_files Entry (ZipStream.Read junk).
Proof.
  unfold ZipStream.Read. cbv zeta.
  repeat first [ apply keeps_bind; [|intros ?]
               | apply keeps_on_stream
               | apply keeps_read_object
               | apply keeps_ret ].
Qed.

Lemma push_back_all (l : list (string * Entry)) (acc : list string) :
  foldl (fun result it => result ++ [it.1]) acc l = acc ++ map fst l.
Proof.
  revert acc. induction l as [|it l IH]; intros acc.
  - simpl. by rewrite app_nil_r.
  - cbn [foldl map]. rewrite IH. by rewrite <- app_assoc.
Qed.

Lemma GetFileNames_eq this :
  ZipStream.GetFileNames this = map fst (ZipStream.containedFiles this).
Proof. unfold ZipStream.GetFileNames. cbv zeta. by rewrite push_back_all. Qed.

(** C1 as amended.  [ZipStream::Read] runs the three steps on the EOCD,
    the locator and the Zip64 EOCD and never assigns to [containedFiles]:
    whether it returns or throws, [GetFileNames()] afterwards gives the
    first components of the pairs [containedFiles] held before the call, in
    their order, so none when it held none; no step of [Read] reads the
    central directory.  A [Read] that returns has found a Zip64 EOCD whose
    entry count is not 0. *)
Theorem GetFileNames_after_Read junk this :
  let after := (ZipStream.Read junk this).2 in
  ZipStream.containedFiles after = ZipStream.containedFiles this /\
  ZipStream.GetFileNames after = map fst (ZipStream.containedFiles this) /\
  (ZipStream.containedFiles this = [] -> ZipStream.GetFileNames after = []) /\
  ((ZipStream.Read junk this).1 = inr tt ->
   let e := size (ZipStream.stream this) in
   let from p := mkStream (content (ZipStream.stream this)) p in
   field_at (from (field_at (from (e - 42)) 8 8)) 24 8 <> 0).
Proof.
  cbv zeta. pose proof (Read_keeps_files junk this) as Hk.
  split; [done|]. split; [by rewrite GetFileNames_eq, Hk|].
  split; [intros Hnil; by rewrite GetFileNames_eq, Hk, Hnil|].
  destruct (ZipStream.Read junk this) as [r this'] eqn:H. simpl. intros ->.
  by apply Read_success in H as (_ & _ & _ & Hne & _).
Qed.

End Names.

Lemma GetFileNames_after_Read_witness :
  ZipStream.GetFileNames
    (ZipStream.Read no_junk (opened (archive_of ["a.txt"%string]))).2 = [].
Proof.
  apply (GetFileNames_after_Read no_junk (opened (archive_of ["a.txt"%string]))).
  reflexivity.
Defined.

(** Against C1 as the specification has it, on the archive of the single
    entry a.txt: [Read] returns, the central file header found at the
    offset the Zip64 EOCD gives carries that name, and [GetFileNames()]
    returns no name. *)
Lemma GetFileNames_after_Read_counterexample :
  let bytes := archive_of ["a.txt"%string] in
  let result := ZipStream.Read no_junk (opened bytes) in
  result.1 = inr tt /\
  CentralFileHeader.GetFileName
    (Meta.Read (CentralFileHeader.new no_junk, mkStream bytes 35)).2.1 = "a.txt"%string /\
  ZipStream.GetFileNames result.2 = [] /\
  ZipStream.GetFileNames result.2 <> ["a.txt"%string].
Proof.
  cbv zeta.
  split; [vm_compute; reflexivity|]. split; [vm_compute; reflexivity|].
  split; [vm_compute; reflexivity | vm_compute; discriminate].
Qed.

(** * Further properties of the records *)

(** ** Bytes and fields *)

Lemma length_peek_at (s : Stream) (k n : Z) :
  0 <= k -> 0 <= n -> has_bytes s (k + n) -> length (peek s k n) = Z.to_nat n.
Proof.
  intros Hk Hn [H1 H2]. unfold peek, size in *.
  rewrite length_take, length_drop. lia.
Qed.

Lemma peek_split (s : Stream) (k a b : Z) :
  0 <= offset s + k -> 0 <= a -> 0 <= b ->
  peek s k (a + b) = peek s k a ++ peek s (k + a) b.
Proof.
  intros Hk Ha Hb. unfold peek.
  rewrite Z2Nat.inj_add by lia.
  rewrite <- take_take_drop. f_equal. rewrite drop_drop. do 2 f_equal. lia.
Qed.

Lemma peek_within (s : Stream) (N k n : Z) :
  0 <= offset s -> 0 <= k -> 0 <= n -> k + n <= N ->
  peek s k n = take (Z.to_nat n) (drop (Z.to_nat k) (peek s 0 N)).
Proof.
  intros Ho Hk Hn HN. unfold peek.
  rewrite skipn_firstn_comm, drop_drop, take_take.
  rewrite Z.add_0_r.
  rewrite Nat.min_l by lia.
  replace (Z.to_nat (offset s) + Z.to_nat k)%nat with (Z.to_nat (offset s + k)) by lia.
  reflexivity.
Qed.

(** The bytes of a field and its value determine each other. *)
Lemma field_bytes (s : Stream) (k : Z) (n : nat) (v : Z) :
  0 <= k -> has_bytes s (k + Z.of_nat n) -> 0 <= v < 2 ^ (8 * Z.of_nat n) ->
  field_at s k (Z.of_nat n) = v <-> peek s k (Z.of_nat n) = le_encode n v.
Proof.
  intros Hk Hb Hv. unfold field_at. split.
  - intros <-. rewrite <- (le_encode_decode (peek s k (Z.of_nat n))) at 1.
    by rewrite length_peek_at, Nat2Z.id by (lia || done).
  - intros ->. rewrite le_decode_encode. by apply Z.mod_small.
Qed.

(** ** EndCentralDirectoryRecord: what is accepted *)

Lemma EndCentralDirectoryRecord_accepts junk s :
  has_bytes s 22 -> eocd_fields_valid s ->
  (Meta.Read (EndCentralDirectoryRecord.new junk, s)).1 = inr tt.
Proof.
  intros Hb (H0 & H1 & H2 & H3 & H4 & H5 & H6 & H7).
  destruct (Meta.Read (EndCentralDirectoryRecord.new junk, s)) as [r [o' s']] eqn:H.
  apply Meta_Read_inv in H as (vs & H & ->).
  change (fields (EndCentralDirectoryRecord.new junk))
    with EndCentralDirectoryRecord.fields in H.
  rewrite EndCentralDirectoryRecord_values in H.
  cbn [Read_from Object_Read EndCentralDirectoryRecord.fields] in H.
  read_all H; norm_stream; checks.
  all: first [ exfalso; congruence | exfalso; stream_lia | reflexivity | discriminate ].
Qed.

Lemma eocd_fields_valid_bytes (s : Stream) :
  has_bytes s 22 ->
  eocd_fields_valid s <-> peek s 0 22 = zip64_eocd_sentinels.
Proof.
  intros Hb. assert (Ho : 0 <= offset s) by apply Hb. split.
  - intros (H0 & H1 & H2 & H3 & H4 & H5 & H6 & H7).
    assert (Hsub : forall k n, k + n <= 22 -> 0 <= n -> has_bytes s (k + n))
      by (intros; unfold has_bytes in *; lia).
    apply (field_bytes s 0 4) in H0; [|lia|by apply Hsub|done].
    apply (field_bytes s 4 2) in H1; [|lia|by apply Hsub|done].
    apply (field_bytes s 6 2) in H2; [|lia|by apply Hsub|done].
    apply (field_bytes s 8 2) in H3; [|lia|by apply Hsub|done].
    apply (field_bytes s 10 2) in H4; [|lia|by apply Hsub|done].
    apply (field_bytes s 12 4) in H5; [|lia|by apply Hsub|done].
    apply (field_bytes s 16 4) in H6; [|lia|by apply Hsub|done].
    apply (field_bytes s 20 2) in H7; [|lia|by apply Hsub|done].
    change 22 with (4 + (2 + (2 + (2 + (2 + (4 + (4 + 2))))))).
    rewrite !peek_split by lia.
    repeat match goal with |- context [peek _ ?k _] => norm_const k end.
    change (Z.of_nat 4) with 4 in *. change (Z.of_nat 2) with 2 in *.
    rewrite H0, H1, H2, H3, H4, H5, H6, H7.
    vm_compute. reflexivity.
  - intros Hbytes. unfold eocd_fields_valid, field_at.
    rewrite (peek_within s 22 0 4), (peek_within s 22 4 2), (peek_within s 22 6 2),
      (peek_within s 22 8 2), (peek_within s 22 10 2), (peek_within s 22 12 4),
      (peek_within s 22 16 4), (peek_within s 22 20 2) by lia.
    rewrite Hbytes.
    repeat split; vm_compute; reflexivity.
Qed.

Lemma EndCentralDirectoryRecord_serialized junk :
  serialized (EndCentralDirectoryRecord.new junk) = zip64_eocd_sentinels.
Proof. rewrite serialized_eq. reflexivity. Qed.

(** X1.  The only 22 bytes an EndCentralDirectoryRecord reads without
    exception are those its constructor makes it write.  Read where 22
    bytes are present: if they are the bytes a new EndCentralDirectoryRecord
    serializes to, the read returns after these 22 bytes and the object
    holds the values the constructor assigns; if they differ in any byte,
    the read throws InvalidEndOfCentralDirectoryRecord. *)
Theorem EndCentralDirectoryRecord_reads_own_bytes_only (junk junk' : nat -> Z) (s : Stream) :
  has_bytes s 22 ->
  let result := Meta.Read (EndCentralDirectoryRecord.new junk, s) in
  let own := serialized (EndCentralDirectoryRecord.new junk') in
  (peek s 0 22 = own ->
   result.1 = inr tt /\ result.2.2 = advance 22 s /\
   values result.2.1 = values (EndCentralDirectoryRecord.new junk'))
  /\
  (peek s 0 22 <> own ->
   result.1 = inl InvalidEndOfCentralDirectoryRecord).
Proof.
  intros Hb. cbv zeta. rewrite EndCentralDirectoryRecord_serialized.
  pose proof (eocd_fields_valid_bytes s Hb) as Hiff.
  pose proof (EndCentralDirectoryRecord_accepts junk s Hb) as Hacc.
  destruct (Meta.Read (EndCentralDirectoryRecord.new junk, s)) as [r [o' s']] eqn:H.
  apply EndCentralDirectoryRecord_Read_spec in H as (_ & _ & H). simpl in *.
  split.
  - intros Hbytes. apply Hiff in Hbytes. specialize (Hacc Hbytes). subst r.
    destruct H as (_ & -> & _ & _ & _ & _ & _ & _ & _ & _ & ->). done.
  - intros Hne. destruct r as [e|[]].
    + destruct H as [[_ H] | ->]; [tauto | done].
    + exfalso. apply Hne, Hiff. unfold eocd_fields_valid. tauto.
Qed.

Lemma EndCentralDirectoryRecord_reads_own_bytes_only_witness :
  (Meta.Read (EndCentralDirectoryRecord.new no_junk,
              mkStream (plain_eocd_bytes 0xFFFF 0xFFFFFFFF 0xFFFFFFFF 0 ++ [x00]) 0)).1
    = inr tt /\
  (Meta.Read (EndCentralDirectoryRecord.new no_junk,
              mkStream (plain_eocd_bytes 0xFFFF 0xFFFFFFFF 0xFFFFFFFF 1) 0)).1
    = inl InvalidEndOfCentralDirectoryRecord.
Proof.
  split.
  - apply (proj1 (EndCentralDirectoryRecord_reads_own_bytes_only no_junk no_junk
                    (mkStream (plain_eocd_bytes 0xFFFF 0xFFFFFFFF 0xFFFFFFFF 0 ++ [x00]) 0)
                    ltac:(split; vm_compute; discriminate))).
    vm_compute. reflexivity.
  - apply (proj2 (EndCentralDirectoryRecord_reads_own_bytes_only no_junk no_junk
                    (mkStream (plain_eocd_bytes 0xFFFF 0xFFFFFFFF 0xFFFFFFFF 1) 0)
                    ltac:(split; vm_compute; discriminate))).
    vm_compute. discriminate.
Defined.

(** ** Zip64EndOfCentralDirectoryLocator: what is accepted *)

(** Where the read of a locator stops when one of its fields is refused. *)
Lemma Zip64EndOfCentralDirectoryLocator_Read_stops junk maxOffset s r o' s' :
  Meta.Read (Zip64EndOfCentralDirectoryLocator.new junk maxOffset, s) = (r, (o', s')) ->
  has_bytes s 20 ->
  field_at s 0 4 = Signatures.Zip64EndOfCDLocator ->
  (field_at s 4 4 <> 0 ->
   r = inl InvalidZip64CentralDirectoryLocator /\ s' = advance 8 s) /\
  (field_at s 4 4 = 0 -> wrap 64 maxOffset < field_at s 8 8 ->
   r = inl InvalidZip64CentralDirectoryLocator /\ s' = advance 16 s) /\
  (field_at s 4 4 = 0 -> field_at s 8 8 <= wrap 64 maxOffset -> field_at s 16 4 <> 1 ->
   r = inl InvalidZip64CentralDirectoryLocator /\ s' = advance 20 s).
Proof.
  intros H Hb H0.
  apply Meta_Read_inv in H as (vs & H & ->).
  change (fields (Zip64EndOfCentralDirectoryLocator.new junk maxOffset))
    with (Zip64EndOfCentralDirectoryLocator.fields (wrap 64 maxOffset)) in H.
  rewrite Zip64EndOfCentralDirectoryLocator_values in H.
  cbn [Read_from Object_Read Zip64EndOfCentralDirectoryLocator.fields] in H.
  read_all H; norm_stream; checks.
  all: first [ exfalso; congruence | exfalso; stream_lia | idtac ].
  all: repeat first [ progress conjuncts | progress intros ].
  all: first [ reflexivity | exfalso; congruence | exfalso; lia ].
Qed.

Lemma Zip64EndOfCentralDirectoryLocator_accepted_ok junk maxOffset s :
  has_bytes s 20 -> locator_fields_valid (wrap 64 maxOffset) s ->
  (Meta.Read (Zip64EndOfCentralDirectoryLocator.new junk maxOffset, s)).1 = inr tt.
Proof.
  intros Hb (H0 & H1 & H2 & H3).
  destruct (Meta.Read (Zip64EndOfCentralDirectoryLocator.new junk maxOffset, s))
    as [r [o' s']] eqn:H.
  apply Zip64EndOfCentralDirectoryLocator_Read_spec in H as (_ & _ & H).
  destruct r as [e|[]]; [exfalso|done].
  destruct H as [[_ H] | [(_ & _ & H) | (_ & _ & H)]]; [tauto | tauto | lia].
Qed.

(** X2.  A Zip64EndOfCentralDirectoryLocator built with bound [maxOffset]
    and read where its 20 bytes are present returns exactly when the
    signature is 0x07064b50, the number of the disk with the Zip64 EOCD
    (offset 4) is 0, the relative offset (offset 8) is at most the bound and
    the total number of disks (offset 16) is 1.  With the signature
    present, a disk number other than 0 makes the read throw
    InvalidZip64CentralDirectoryLocator after 8 bytes, before the relative
    offset is read, and a number of disks other than 1 after the other
    fields were accepted makes it throw that error after all 20 bytes. *)
Theorem Zip64EndOfCentralDirectoryLocator_accepted_fields
    (junk : nat -> Z) (maxOffset : Z) (s : Stream) :
  has_bytes s 20 ->
  let result := Meta.Read (Zip64EndOfCentralDirectoryLocator.new junk maxOffset, s) in
  (result.1 = inr tt <-> locator_fields_valid (wrap 64 maxOffset) s)
  /\
  (field_at s 0 4 = Signatures.Zip64EndOfCDLocator ->
   (field_at s 4 4 <> 0 ->
    result.1 = inl InvalidZip64CentralDirectoryLocator /\ result.2.2 = advance 8 s) /\
   (field_at s 4 4 = 0 -> field_at s 8 8 <= wrap 64 maxOffset -> field_at s 16 4 <> 1 ->
    result.1 = inl InvalidZip64CentralDirectoryLocator /\ result.2.2 = advance 20 s)).
Proof.
  intros Hb. cbv zeta.
  destruct (Meta.Read (Zip64EndOfCentralDirectoryLocator.new junk maxOffset, s))
    as [r [o' s']] eqn:H.
  pose proof (Zip64EndOfCentralDirectoryLocator_Read_stops _ _ _ _ _ _ H Hb) as Hstop.
  apply Zip64EndOfCentralDirectoryLocator_Read_spec in H as (_ & _ & H).
  simpl. unfold locator_fields_valid. split; [split|].
  - intros ->. tauto.
  - intros (H0 & H1 & H2 & H3). destruct r as [e|[]]; [exfalso|done].
    destruct H as [[_ H] | [(_ & _ & H) | (_ & _ & H)]]; [tauto | tauto | lia].
  - intros H0. destruct (Hstop H0) as (Hdisk & _ & Hdisks). split; assumption.
Qed.

Lemma Zip64EndOfCentralDirectoryLocator_accepted_fields_witness :
  let s := mkStream (locator_bytes 1 0 1) 0 in
  let result := Meta.Read (Zip64EndOfCentralDirectoryLocator.new no_junk 100, s) in
  result.1 = inl InvalidZip64CentralDirectoryLocator /\ result.2.2 = advance 8 s.
Proof.
  cbv zeta.
  apply (proj2 (Zip64EndOfCentralDirectoryLocator_accepted_fields no_junk 100
                  (mkStream (locator_bytes 1 0 1) 0)
                  ltac:(split; vm_compute; discriminate))).
  - vm_compute. reflexivity.
  - vm_compute. discriminate.
Defined.

(** What the stream holds after a record with the four fields of a locator
    was written to it. *)
Lemma Zip64EndOfCentralDirectoryLocator_written w a0 a1 a2 a3 :
  values w = [u32 a0; u32 a1; u64 a2; u32 a3] ->
  let s := written w in
  has_bytes s 20 /\
  field_at s 0 4 = wrap 32 a0 /\ field_at s 4 4 = wrap 32 a1 /\
  field_at s 8 8 = wrap 64 a2 /\ field_at s 16 4 = wrap 32 a3.
Proof.
  intros Hv. cbv zeta.
  assert (Hlen : Z.of_nat (length (serialized w)) = 20).
  { rewrite length_serialized. unfold Size. rewrite Hv. reflexivity. }
  rewrite written_eq. split.
  { unfold has_bytes, size. cbn [offset content]. lia. }
  rewrite serialized_eq, Hv. unfold field_at, wrap.
  repeat split.
  - change (peek _ 0 4) with (le_encode 4 a0). apply le_decode_encode.
  - change (peek _ 4 4) with (le_encode 4 a1). apply le_decode_encode.
  - change (peek _ 8 8) with (le_encode 8 a2). apply le_decode_encode.
  - change (peek _ 16 4) with (le_encode 4 a3). apply le_decode_encode.
Qed.

(** X3.  A locator on which [SetRelativeOffset(value)] was called, written
    to a stream and read back by a locator with bound [maxOffset]: the
    read returns exactly when [value], converted to 64 bits, is at most the
    bound, also converted; the object read then holds the values of the one
    written, and [GetRelativeOffset()] gives [value] modulo 2^64.  Above the
    bound the read throws InvalidZip64CentralDirectoryLocator. *)
Theorem Zip64EndOfCentralDirectoryLocator_round_trip
    (junk junk' : nat -> Z) (maxOffset maxOffset' value : Z) :
  let w := Zip64EndOfCentralDirectoryLocator.SetRelativeOffset value
             (Zip64EndOfCentralDirectoryLocator.new junk' maxOffset') in
  let result := Meta.Read (Zip64EndOfCentralDirectoryLocator.new junk maxOffset,
                           written w) in
  (value mod 2 ^ 64 <= maxOffset mod 2 ^ 64 ->
   result.1 = inr tt /\ values result.2.1 = values w /\
   Zip64EndOfCentralDirectoryLocator.GetRelativeOffset result.2.1 = value mod 2 ^ 64)
  /\
  (maxOffset mod 2 ^ 64 < value mod 2 ^ 64 ->
   result.1 = inl InvalidZip64CentralDirectoryLocator).
Proof.
  cbv zeta.
  set (w := Zip64EndOfCentralDirectoryLocator.SetRelativeOffset value
              (Zip64EndOfCentralDirectoryLocator.new junk' maxOffset')).
  assert (Hv : values w = [u32 Signatures.Zip64EndOfCDLocator; u32 0;
                           u64 (wrap 64 value); u32 1]) by reflexivity.
  pose proof (Zip64EndOfCentralDirectoryLocator_written _ _ _ _ _ Hv)
    as (Hb & H0 & H1 & H2 & H3).
  rewrite wrap_wrap in H2 by lia.
  change (wrap 32 Signatures.Zip64EndOfCDLocator)
    with Signatures.Zip64EndOfCDLocator in H0.
  change (wrap 32 0) with 0 in H1. change (wrap 32 1) with 1 in H3.
  destruct (Meta.Read (Zip64EndOfCentralDirectoryLocator.new junk maxOffset, written w))
    as [r [o' s']] eqn:H.
  apply Zip64EndOfCentralDirectoryLocator_Read_spec in H as (_ & _ & H).
  simpl. fold (wrap 64 value) (wrap 64 maxOffset). rewrite H2 in H. split.
  - intros Hle. destruct r as [e|[]].
    + exfalso.
      destruct H as [[_ H] | [(_ & _ & H) | (_ & _ & H)]]; [tauto | tauto | lia].
    + destruct H as (_ & _ & _ & _ & _ & _ & Hv').
      unfold Zip64EndOfCentralDirectoryLocator.GetRelativeOffset, GetValue64.
      rewrite Hv'. repeat split.
  - intros Hgt. destruct r as [e|[]].
    + destruct H as [[_ H] | [(_ & _ & H) | (-> & _)]]; [tauto | tauto | done].
    + exfalso. lia.
Qed.

Lemma Zip64EndOfCentralDirectoryLocator_round_trip_witness :
  Zip64EndOfCentralDirectoryLocator.GetRelativeOffset
    (Meta.Read (Zip64EndOfCentralDirectoryLocator.new no_junk 100,
                written (Zip64EndOfCentralDirectoryLocator.SetRelativeOffset 57
                           (Zip64EndOfCentralDirectoryLocator.new no_junk 0)))).2.1
  = 57 mod 2 ^ 64.
Proof.
  apply (proj1 (Zip64EndOfCentralDirectoryLocator_round_trip no_junk no_junk 100 0 57)).
  vm_compute. discriminate.
Defined.

(** ** Zip64EndOfCentralDirectoryRecord: what is accepted *)

Lemma Zip64EndOfCentralDirectoryRecord_accepts junk maxOffset s :
  has_bytes s 56 -> zip64_fields_valid (wrap 64 maxOffset) s ->
  (Meta.Read (Zip64EndOfCentralDirectoryRecord.new junk maxOffset, s)).1 = inr tt.
Proof.
  intros Hb (H0 & H1 & H2 & H3 & H4 & H5 & H6 & H7 & H8 & H9).
  destruct (Meta.Read (Zip64EndOfCentralDirectoryRecord.new junk maxOffset, s))
    as [r [o' s']] eqn:H.
  apply Meta_Read_inv in H as (vs & H & ->).
  change (fields (Zip64EndOfCentralDirectoryRecord.new junk maxOffset))
    with (Zip64EndOfCentralDirectoryRecord.fields (wrap 64 maxOffset)) in H.
  rewrite Zip64EndOfCentralDirectoryRecord_values in H.
  cbn [Read_from Object_Read Zip64EndOfCentralDirectoryRecord.fields] in H.
  read_all H; norm_stream; checks.
  all: try match goal with
    | H : field_at _ 4 8 <> ?size |- _ =>
        let v := eval vm_compute in size in change size with v in H
    end.
  all: try match goal with
    | H : context [Zip64EndOfCentralDirectoryRecord.GetTotalNumberOfEntries _] |- _ =>
        unfold Zip64EndOfCentralDirectoryRecord.GetTotalNumberOfEntries, GetValue64 in H;
        simpl in H
    end.
  all: first [ exfalso; congruence | exfalso; stream_lia | reflexivity | discriminate
             | exfalso; intuition lia ].
Qed.

(** The two outcomes of reading a Zip64 EOCD where its 56 bytes are
    present and start with its signature. *)
Lemma Zip64EndOfCentralDirectoryRecord_Read_cases junk maxOffset s :
  has_bytes s 56 ->
  let result := Meta.Read (Zip64EndOfCentralDirectoryRecord.new junk maxOffset, s) in
  (result.1 = inr tt <-> zip64_fields_valid (wrap 64 maxOffset) s)
  /\
  (field_at s 0 4 = Signatures.Zip64EndOfCD ->
   ~ zip64_fields_valid (wrap 64 maxOffset) s ->
   result.1 = inl InvalidZip64CentralDirectoryRecord).
Proof.
  intros Hb. cbv zeta.
  pose proof (Zip64EndOfCentralDirectoryRecord_accepts junk maxOffset s Hb) as Hacc.
  destruct (Meta.Read (Zip64EndOfCentralDirectoryRecord.new junk maxOffset, s))
    as [r [o' s']] eqn:H.
  apply Zip64EndOfCentralDirectoryRecord_Read_spec in H as (_ & _ & H).
  simpl in *.
  assert (Hiff : r = inr tt <-> zip64_fields_valid (wrap 64 maxOffset) s).
  { split; [|exact Hacc]. intros ->. unfold zip64_fields_valid. tauto. }
  split; [exact Hiff|].
  intros H0 Hbad. destruct r as [e|[]].
  - destruct H as [[_ H] | [(_ & _ & _ & H) | (-> & _)]]; [tauto | tauto | done].
  - exfalso. apply Hbad, Hiff. reflexivity.
Qed.

(** X4.  A Zip64EndOfCentralDirectoryRecord built with bound [maxOffset]
    and read where its 56 bytes are present returns exactly when: the
    signature is 0x06064b50, the size field is 44, both version fields are
    45, both disk numbers are 0, the number of entries on this disk is not
    0 and the total number of entries equals it, and the size and the
    offset of the central directory are neither 0 nor above the bound.
    With the signature present, every other content makes the read throw
    InvalidZip64CentralDirectoryRecord. *)
Theorem Zip64EndOfCentralDirectoryRecord_accepted_fields
    (junk : nat -> Z) (maxOffset : Z) (s : Stream) :
  has_bytes s 56 ->
  let result := Meta.Read (Zip64EndOfCentralDirectoryRecord.new junk maxOffset, s) in
  (result.1 = inr tt <-> zip64_fields_valid (wrap 64 maxOffset) s)
  /\
  (field_at s 0 4 = Signatures.Zip64EndOfCD ->
   ~ zip64_fields_valid (wrap 64 maxOffset) s ->
   result.1 = inl InvalidZip64CentralDirectoryRecord).
Proof. apply Zip64EndOfCentralDirectoryRecord_Read_cases. Qed.

(** A record that announces a central directory of 0 bytes. *)
Lemma Zip64EndOfCentralDirectoryRecord_accepted_fields_witness :
  (Meta.Read (Zip64EndOfCentralDirectoryRecord.new no_junk 100,
              mkStream (zip64_eocd_bytes 1 0 1) 0)).1
    = inl InvalidZip64CentralDirectoryRecord.
Proof.
  apply (proj2 (Zip64EndOfCentralDirectoryRecord_accepted_fields no_junk 100
                  (mkStream (zip64_eocd_bytes 1 0 1) 0)
                  ltac:(split; vm_compute; discriminate))).
  - vm_compute. reflexivity.
  - intros (_ & _ & _ & _ & _ & _ & _ & _ & [H _] & _). vm_compute in H. discriminate.
Defined.

(** X5.  A new Zip64EndOfCentralDirectoryRecord on which
    [SetTotalNumberOfEntries(entries)], [SetSizeOfCD(cd_size)] and
    [SetOffsetfStartOfCD(cd_offset)] were called, written to a stream and
    read back by a record with bound [maxOffset].  The read returns exactly
    when the storage of field 5, the number of the disk with the start of
    the central directory, which neither the constructor nor a setter
    assigns, held 0, [entries] is not 0, and [cd_size] and [cd_offset] are
    neither 0 nor above the bound, all taken modulo 2^64 (field 5 modulo
    2^32).  The object read then holds the values of the one written;
    otherwise the read throws InvalidZip64CentralDirectoryRecord. *)
Theorem Zip64EndOfCentralDirectoryRecord_round_trip
    (junk junk' : nat -> Z) (maxOffset maxOffset' entries cd_size cd_offset : Z) :
  let w := Zip64EndOfCentralDirectoryRecord.SetOffsetfStartOfCD cd_offset
             (Zip64EndOfCentralDirectoryRecord.SetSizeOfCD cd_size
                (Zip64EndOfCentralDirectoryRecord.SetTotalNumberOfEntries entries
                   (Zip64EndOfCentralDirectoryRecord.new junk' maxOffset'))) in
  let result := Meta.Read (Zip64EndOfCentralDirectoryRecord.new junk maxOffset,
                           written w) in
  let readable :=
    junk' 5%nat mod 2 ^ 32 = 0 /\ entries mod 2 ^ 64 <> 0 /\
    0 < cd_size mod 2 ^ 64 <= maxOffset mod 2 ^ 64 /\
    0 < cd_offset mod 2 ^ 64 <= maxOffset mod 2 ^ 64 in
  (result.1 = inr tt <-> readable)
  /\
  (result.1 = inr tt ->
   values result.2.1 = values w /\
   Zip64EndOfCentralDirectoryRecord.GetTotalNumberOfEntries result.2.1
     = entries mod 2 ^ 64 /\
   Zip64EndOfCentralDirectoryRecord.GetSizeOfCD result.2.1 = cd_size mod 2 ^ 64 /\
   Zip64EndOfCentralDirectoryRecord.GetOffsetfStartOfCD result.2.1
     = cd_offset mod 2 ^ 64)
  /\
  (~ readable -> result.1 = inl InvalidZip64CentralDirectoryRecord).
Proof.
  cbv zeta.
  set (w := Zip64EndOfCentralDirectoryRecord.SetOffsetfStartOfCD cd_offset _).
  assert (Hv : values w = [u32 Signatures.Zip64EndOfCD; u64 44; u16 45; u16 45; u32 0;
                           u32 (wrap 32 (junk' 5%nat));
                           u64 (wrap 64 entries); u64 (wrap 64 entries);
                           u64 (wrap 64 cd_size); u64 (wrap 64 cd_offset); vec []])
    by reflexivity.
  pose proof (Zip64EndOfCentralDirectoryRecord_written _ _ _ _ _ _ _ _ _ _ _ Hv)
    as (Hb & _ & H0 & H1 & H2 & H3 & H4 & H5 & H6 & H7 & H8 & H9).
  rewrite wrap_wrap in H5, H6, H7, H8, H9 by lia.
  change (wrap 32 Signatures.Zip64EndOfCD) with Signatures.Zip64EndOfCD in H0.
  change (wrap 64 44) with 44 in H1. change (wrap 16 45) with 45 in H2, H3.
  change (wrap 32 0) with 0 in H4.
  pose proof (Zip64EndOfCentralDirectoryRecord_Read_cases junk maxOffset
                (written w) Hb) as [Hiff Hrej].
  cbv zeta in Hiff, Hrej.
  fold (wrap 32 (junk' 5%nat)) (wrap 64 entries) (wrap 64 cd_size)
    (wrap 64 cd_offset) (wrap 64 maxOffset).
  assert (Hvalid : zip64_fields_valid (wrap 64 maxOffset) (written w) <->
            wrap 32 (junk' 5%nat) = 0 /\ wrap 64 entries <> 0 /\
            0 < wrap 64 cd_size <= wrap 64 maxOffset /\
            0 < wrap 64 cd_offset <= wrap 64 maxOffset).
  { unfold zip64_fields_valid. rewrite H0, H1, H2, H3, H4, H5, H6, H7, H8, H9.
    unfold MagicNumbers.Zip64MinimumVersion. tauto. }
  rewrite <- Hvalid.
  destruct (Meta.Read (Zip64EndOfCentralDirectoryRecord.new junk maxOffset, written w))
    as [r [o' s']] eqn:H.
  apply Zip64EndOfCentralDirectoryRecord_Read_spec in H as (_ & _ & H).
  cbn [fst snd] in *. split; [exact Hiff|]. split.
  - intros ->. destruct H as (_ & _ & _ & _ & _ & _ & _ & G5 & _ & _ & _ & _ & Hv').
    unfold Zip64EndOfCentralDirectoryRecord.GetTotalNumberOfEntries,
      Zip64EndOfCentralDirectoryRecord.GetSizeOfCD,
      Zip64EndOfCentralDirectoryRecord.GetOffsetfStartOfCD, GetValue64.
    rewrite Hv', Hv, H6, H7, H8, H9. cbn [lookup list_lookup].
    rewrite <- H5, G5. conjuncts; reflexivity.
  - intros Hbad. by apply Hrej.
Qed.

Lemma Zip64EndOfCentralDirectoryRecord_round_trip_witness :
  (Meta.Read (Zip64EndOfCentralDirectoryRecord.new no_junk 100,
              written (Zip64EndOfCentralDirectoryRecord.SetOffsetfStartOfCD 0
                (Zip64EndOfCentralDirectoryRecord.SetSizeOfCD 46
                   (Zip64EndOfCentralDirectoryRecord.SetTotalNumberOfEntries 1
                      (Zip64EndOfCentralDirectoryRecord.new no_junk 0)))))).1
    = inl InvalidZip64CentralDirectoryRecord.
Proof.
  apply (proj2 (proj2 (Zip64EndOfCentralDirectoryRecord_round_trip
                         no_junk no_junk 100 0 1 46 0))).
  intros (_ & _ & _ & [H _]). vm_compute in H. discriminate.
Defined.

(** ** ZipStream::Read: which archives are accepted *)

Section Acceptance.
Context {Entry : Type}.
Implicit Types (this : ZipStream.t Entry) (junk : nat -> Z).

Lemma bind_ok {S A B} (m : M S A) (k : A -> M S B) (s s' : S) (a : A) :
  m s = (inr a, s') -> bind m k s = k a s'.
Proof. intros H. unfold bind. by rewrite H. Qed.


Lemma on_stream_Seek_START_ok p this :
  0 <= p ->
  ZipStream.on_stream (Seek p START) this =
    (inr tt, ZipStream.mk (mkStream (content (ZipStream.stream this)) p)
                          (ZipStream.containedFiles this)).
Proof.
  intros Hp. unfold ZipStream.on_stream, Seek. rewrite Z.add_0_l.
  by destruct (Z.ltb_spec p 0); [lia|].
Qed.


Lemma read_object_ok object this o' s' :
  Meta.Read (object, ZipStream.stream this) = (inr tt, (o', s')) ->
  ZipStream.read_object object this =
    (inr o', ZipStream.mk s' (ZipStream.containedFiles this)).
Proof. intros H. unfold ZipStream.read_object. by rewrite H. Qed.


(** The facts a [ZipStream::Read] without exception has established, all
    of them. *)
Lemma Read_returns_only_if junk this this' :
  ZipStream.Read junk this = (inr tt, this') ->
  let e := size (ZipStream.stream this) in
  let from p := mkStream (content (ZipStream.stream this)) p in
  let relative_offset := field_at (from (e - 42)) 8 8 in
  42 <= e /\
  eocd_fields_valid (from (e - 22)) /\
  locator_fields_valid (wrap 64 (e - 22)) (from (e - 42)) /\
  has_bytes (from relative_offset) 56 /\
  zip64_fields_valid (wrap 64 (e - 42)) (from relative_offset).
Proof.
  rewrite Read_discovery. unfold discovery. cbv zeta.
  set (e := size (ZipStream.stream this)).
  intros H.
  apply bind_inv in H as ([] & this1 & H1 & H).
  apply on_stream_Seek_START in H1 as [-> Hp1].
  apply bind_inv in H as (eocd & this2 & H2 & H).
  apply read_object_inv in H2 as (s2 & H2 & ->).
  apply EndCentralDirectoryRecord_Read_spec in H2 as (Hc2 & _ & He).
  cbn [ZipStream.stream ZipStream.containedFiles content] in *.
  apply bind_inv in H as ([] & this3 & H3 & H).
  apply on_stream_Seek_START in H3 as [-> Hp3].
  cbn [ZipStream.stream ZipStream.containedFiles content] in *. rewrite Hc2 in H.
  apply bind_inv in H as (loc & this4 & H4 & H).
  apply read_object_inv in H4 as (s4 & H4 & ->).
  apply Zip64EndOfCentralDirectoryLocator_Read_spec in H4 as (Hc4 & _ & Hl).
  cbn [ZipStream.stream ZipStream.containedFiles content] in *.
  apply bind_inv in H as ([] & this5 & H5 & H).
  apply on_stream_Seek_START in H5 as [-> Hp5].
  cbn [ZipStream.stream ZipStream.containedFiles content] in *. rewrite Hc4 in H.
  cbn [content] in H.
  apply bind_inv in H as (z & this6 & H6 & H).
  apply read_object_inv in H6 as (s6 & H6 & ->).
  apply Zip64EndOfCentralDirectoryRecord_Read_spec in H6 as (_ & _ & Hz).
  assert (Hget : Zip64EndOfCentralDirectoryLocator.GetRelativeOffset loc
                 = field_at (mkStream (content (ZipStream.stream this)) (e - 42)) 8 8).
  { destruct Hl as (_ & _ & _ & _ & _ & _ & Hv).
    unfold Zip64EndOfCentralDirectoryLocator.GetRelativeOffset, GetValue64.
    by rewrite Hv. }
  rewrite Hget in *. cbn [ZipStream.stream] in *.
  unfold eocd_fields_valid, locator_fields_valid, zip64_fields_valid.
  split; [lia|]. split; [tauto|]. split; [tauto|]. split; tauto.
Qed.

Lemma Read_returns_if junk this :
  let e := size (ZipStream.stream this) in
  let from p := mkStream (content (ZipStream.stream this)) p in
  let relative_offset := field_at (from (e - 42)) 8 8 in
  42 <= e ->
  eocd_fields_valid (from (e - 22)) ->
  locator_fields_valid (wrap 64 (e - 22)) (from (e - 42)) ->
  has_bytes (from relative_offset) 56 ->
  zip64_fields_valid (wrap 64 (e - 42)) (from relative_offset) ->
  ZipStream.Read junk this =
    (inr tt, ZipStream.mk (from (relative_offset + 56)) (ZipStream.containedFiles this)).
Proof.
  cbv zeta. set (e := size (ZipStream.stream this)).
  intros He Heocd Hloc Hb Hz.
  rewrite Read_discovery. unfold discovery. cbv zeta. fold e.
  (* the EOCD *)
  rewrite (bind_ok _ _ _ _ _ (on_stream_Seek_START_ok (e - 22) this ltac:(lia))).
  assert (Hb1 : has_bytes (mkStream (content (ZipStream.stream this)) (e - 22)) 22).
  { unfold has_bytes, size. cbn [offset content].
    fold (size (ZipStream.stream this)). fold e. lia. }
  pose proof (EndCentralDirectoryRecord_accepts junk _ Hb1 Heocd) as Ha1.
  destruct (Meta.Read (EndCentralDirectoryRecord.new junk,
                       mkStream (content (ZipStream.stream this)) (e - 22)))
    as [r1 [o1 s1]] eqn:H1.
  cbn [fst] in Ha1. subst r1.
  pose proof (EndCentralDirectoryRecord_Read_spec _ _ _ _ _ H1) as (_ & _ & _ & -> & _).
  rewrite (bind_ok _ _ _ _ _ (read_object_ok _ (ZipStream.mk _ _) _ _ H1)).
  (* the locator *)
  rewrite (bind_ok _ _ _ _ _ (on_stream_Seek_START_ok (e - 42) _ ltac:(lia))).
  cbn [ZipStream.stream ZipStream.containedFiles advance content].
  assert (Hb2 : has_bytes (mkStream (content (ZipStream.stream this)) (e - 42)) 20).
  { unfold has_bytes, size. cbn [offset content].
    fold (size (ZipStream.stream this)). fold e. lia. }
  pose proof (Zip64EndOfCentralDirectoryLocator_accepted_ok junk (e - 22) _ Hb2 Hloc)
    as Ha2.
  destruct (Meta.Read (Zip64EndOfCentralDirectoryLocator.new junk (e - 22),
                       mkStream (content (ZipStream.stream this)) (e - 42)))
    as [r2 [o2 s2]] eqn:H2.
  cbn [fst] in Ha2. subst r2.
  pose proof (Zip64EndOfCentralDirectoryLocator_Read_spec _ _ _ _ _ _ H2)
    as (_ & _ & _ & -> & _ & _ & _ & _ & Hv2).
  rewrite (bind_ok _ _ _ _ _ (read_object_ok _ (ZipStream.mk _ _) _ _ H2)).
  assert (Hget : Zip64EndOfCentralDirectoryLocator.GetRelativeOffset o2
                 = field_at (mkStream (content (ZipStream.stream this)) (e - 42)) 8 8).
  { unfold Zip64EndOfCentralDirectoryLocator.GetRelativeOffset, GetValue64.
    by rewrite Hv2. }
  rewrite Hget.
  (* the Zip64 EOCD *)
  pose proof (field_at_range (mkStream (content (ZipStream.stream this)) (e - 42)) 8 8
                ltac:(lia)) as [Hrel _].
  rewrite (bind_ok _ _ _ _ _ (on_stream_Seek_START_ok _ _ Hrel)).
  cbn [ZipStream.stream ZipStream.containedFiles advance content].
  pose proof (Zip64EndOfCentralDirectoryRecord_accepts junk (e - 42) _ Hb Hz) as Ha3.
  destruct (Meta.Read (Zip64EndOfCentralDirectoryRecord.new junk (e - 42), _))
    as [r3 [o3 s3]] eqn:H3.
  cbn [fst] in Ha3. subst r3.
  pose proof (Zip64EndOfCentralDirectoryRecord_Read_spec _ _ _ _ _ _ H3)
    as (_ & _ & _ & -> & _).
  rewrite (bind_ok _ _ _ _ _ (read_object_ok _ (ZipStream.mk _ _) _ _ H3)).
  reflexivity.
Qed.

(** X6.  [ZipStream::Read] returns exactly for the streams of at least 42
    bytes whose last 22 bytes hold the fields an EndCentralDirectoryRecord
    requires, whose 20 bytes before them hold a locator with disk number 0,
    one disk and a relative offset of at most [e - 22], [e] being the size
    of the stream, and which hold at that relative offset the 56 bytes of a
    Zip64 end-of-central-directory record with valid fields, the size and
    the offset of the central directory being at most [e - 42] (the two
    bounds converted to 64 bits).  Nothing else of the stream is looked at,
    and whether [Read] returns does not depend on what the storage of the
    fields held before they were read. *)
Theorem ZipStream_Read_accepts_iff junk this :
  let e := size (ZipStream.stream this) in
  let from p := mkStream (content (ZipStream.stream this)) p in
  let relative_offset := field_at (from (e - 42)) 8 8 in
  ((ZipStream.Read junk this).1 = inr tt <->
   42 <= e /\
   eocd_fields_valid (from (e - 22)) /\
   locator_fields_valid (wrap 64 (e - 22)) (from (e - 42)) /\
   has_bytes (from relative_offset) 56 /\
   zip64_fields_valid (wrap 64 (e - 42)) (from relative_offset))
  /\
  (forall junk', (ZipStream.Read junk' this).1 = inr tt <->
                 (ZipStream.Read junk this).1 = inr tt).
Proof.
  cbv zeta.
  assert (Hiff : forall j,
    (ZipStream.Read j this).1 = inr tt <->
    42 <= size (ZipStream.stream this) /\
    eocd_fields_valid
      (mkStream (content (ZipStream.stream this)) (size (ZipStream.stream this) - 22)) /\
    locator_fields_valid (wrap 64 (size (ZipStream.stream this) - 22))
      (mkStream (content (ZipStream.stream this)) (size (ZipStream.stream this) - 42)) /\
    has_bytes
      (mkStream (content (ZipStream.stream this))
         (field_at (mkStream (content (ZipStream.stream this))
                      (size (ZipStream.stream this) - 42)) 8 8)) 56 /\
    zip64_fields_valid (wrap 64 (size (ZipStream.stream this) - 42))
      (mkStream (content (ZipStream.stream this))
         (field_at (mkStream (content (ZipStream.stream this))
                      (size (ZipStream.stream this) - 42)) 8 8))).
  { intros j. split.
    - destruct (ZipStream.Read j this) as [r this'] eqn:H. cbn [fst]. intros ->.
      exact (Read_returns_only_if _ _ _ H).
    - intros (He & Heocd & Hloc & Hb & Hz).
      by rewrite (Read_returns_if j this He Heocd Hloc Hb Hz). }
  split; [apply Hiff|]. intros junk'. by rewrite !Hiff.
Qed.


End Acceptance.

(** The 99 bytes of an archive end whose Zip64 EOCD is at offset 1. *)
Lemma ZipStream_Read_accepts_iff_witness :
  (ZipStream.Read no_junk (opened (end_of_archive 57 1))).1 = inr tt.
Proof.
  apply (proj1 (ZipStream_Read_accepts_iff no_junk (opened (end_of_archive 57 1)))).
  split; [vm_compute; discriminate|].
  split; [repeat split; vm_compute; reflexivity|].
  split; [repeat split; vm_compute; first [reflexivity | discriminate]|].
  split; [split; vm_compute; discriminate|].
  repeat split; vm_compute; first [reflexivity | discriminate].
Defined.


(** ** Records with fields of variable size, read *)

Lemma bind_read_plain w store i (k : unit -> M (Values * Stream) unit) this s :
  bind (read_fixed w store (fun _ => ret tt) i) k (this, s) =
    if decide (has_bytes s w)
    then k tt (<[i := store (field_at s 0 w)]> this, advance w s)
    else (inl StreamError, (this, s)).
Proof. rewrite bind_read_fixed. by destruct (decide _). Qed.

Lemma bind_read_length (get : Values -> Z) j i
    (k : unit -> M (Values * Stream) unit) this s :
  bind (read_fixed 2 u16
          (fun v this =>
             (run throw_if (UINT16_MAX <? get this) FieldOutOfRange;
              resize_vec j (get this)) this) i) k (this, s) =
    if decide (has_bytes s 2) then
      let this1 := <[i := u16 (field_at s 0 2)]> this in
      if UINT16_MAX <? get this1 then (inl FieldOutOfRange, (this1, advance 2 s))
      else k tt (<[j := vec (resize (Z.to_nat (get this1)) x00 (GetValueN j this1))]> this1,
                 advance 2 s)
    else (inl StreamError, (this, s)).
Proof.
  rewrite bind_read_fixed. destruct (decide _); [|done]. cbv zeta.
  unfold bind at 1. by destruct (UINT16_MAX <? _).
Qed.

Lemma bind_read_vec_plain i (k : unit -> M (Values * Stream) unit) this s :
  bind (read_vec (fun _ => ret tt) i) k (this, s) =
    let n := Z.of_nat (length (GetValueN i this)) in
    if decide (has_bytes s n)
    then k tt (<[i := vec (peek s 0 n)]> this, advance n s)
    else (inl StreamError, (this, s)).
Proof. rewrite bind_read_vec. cbv zeta. by destruct (decide _). Qed.

Ltac norm_sums H :=
  repeat match type of H with
    | context [Z.add ?a ?b] =>
        is_literal a; is_literal b;
        let v := eval vm_compute in (a + b) in change (a + b) with v in H
    end.

Ltac bytes_lia :=
  unfold has_bytes, advance, size in *; cbn [offset content] in *; lia.

(** The stream cannot serve the field: the read ends in the stream's
    error. *)
Ltac short_read H Hb :=
  inversion H; subst; clear H; left; split; [reflexivity|];
  let Hall := fresh in intros Hall; apply Hb; bytes_lia.

(** One field of a record with plain and length fields, read
    symbolically. *)
Ltac header_step H :=
  first [ rewrite bind_read_plain in H
        | rewrite bind_read_length in H; cbv zeta in H
        | rewrite bind_read_vec_plain in H; cbv zeta in H ];
  cbn [insert list_insert lookup list_lookup GetValue16 GetValueN] in H;
  rewrite ?length_resize, ?advance_advance, ?field_at_advance, ?peek_advance in H;
  rewrite ?Z2Nat.id, ?Z.add_0_r in H by lia;
  norm_sums H;
  match type of H with
  | context [decide (has_bytes ?s ?w)] =>
      let Hb := fresh "Hbytes" in
      destruct (decide (has_bytes s w)) as [Hb|Hb]; [|short_read H Hb]
  end;
  try match type of H with
    | context [UINT16_MAX <? ?v] =>
        let E := fresh "Echeck" in
        destruct (Z.ltb_spec UINT16_MAX v) as [E|E];
        [exfalso; unfold UINT16_MAX in E; lia|]
    end.

Lemma LocalFileHeader_values junk :
  values (LocalFileHeader.new junk) =
    [u32 (wrap 32 (junk 0%nat)); u16 (wrap 16 (junk 1%nat)); u16 (wrap 16 (junk 2%nat));
     u16 (wrap 16 (junk 3%nat)); u16 (wrap 16 (junk 4%nat)); u16 (wrap 16 (junk 5%nat));
     u32 (wrap 32 (junk 6%nat)); u32 (wrap 32 (junk 7%nat)); u32 (wrap 32 (junk 8%nat));
     u16 (wrap 16 (junk 9%nat)); u16 (wrap 16 (junk 10%nat)); vec []; vec []].
Proof. reflexivity. Qed.

Lemma LocalFileHeader_Read_spec junk s r o' s' :
  Meta.Read (LocalFileHeader.new junk, s) = (r, (o', s')) ->
  let n := field_at s 26 2 in
  let m := field_at s 28 2 in
  match r with
  | inr _ =>
      has_bytes s (30 + n + m) /\ field_at s 0 4 = Signatures.LocalFileHeader /\
      s' = advance (30 + n + m) s /\ values o' = local_header_at s
  | inl e =>
      (e = StreamError /\ ~ has_bytes s (30 + n + m)) \/
      (e = InvalidHeader /\ field_at s 0 4 <> Signatures.LocalFileHeader)
  end.
Proof.
  intros H. cbv zeta.
  pose proof (field_at_range s 26 2 ltac:(lia)) as Hn.
  pose proof (field_at_range s 28 2 ltac:(lia)) as Hm.
  change (2 ^ (8 * 2)) with 65536 in Hn, Hm.
  apply Meta_Read_inv in H as (vs & H & ->).
  change (fields (LocalFileHeader.new junk)) with LocalFileHeader.fields in H.
  rewrite LocalFileHeader_values in H.
  cbn [Read_from Object_Read LocalFileHeader.fields] in H.
  unfold LocalFileHeader.GetFileNameLength, LocalFileHeader.GetExtraFieldLength in H.
  read_step H.
  { inversion H; subst; clear H. right. split; [reflexivity|]. by apply neqb_true. }
  2: { short_read H Hbytes. }
  apply neqb_false in Echeck.
  do 8 header_step H.
  header_step H. header_step H.
  header_step H. header_step H.
  cbn [ret] in H. inversion H; subst; clear H.
  conjuncts; [bytes_lia | assumption | reflexivity | reflexivity].
Qed.

Lemma CentralFileHeader_values junk :
  values (CentralFileHeader.new junk) =
    [u32 (wrap 32 (junk 0%nat)); u16 (wrap 16 (junk 1%nat)); u16 (wrap 16 (junk 2%nat));
     u16 (wrap 16 (junk 3%nat)); u16 (wrap 16 (junk 4%nat)); u16 (wrap 16 (junk 5%nat));
     u16 (wrap 16 (junk 6%nat)); u32 (wrap 32 (junk 7%nat)); u32 (wrap 32 (junk 8%nat));
     u32 (wrap 32 (junk 9%nat)); u16 (wrap 16 (junk 10%nat)); u16 (wrap 16 (junk 11%nat));
     u16 (wrap 16 (junk 12%nat)); u16 (wrap 16 (junk 13%nat)); u16 (wrap 16 (junk 14%nat));
     u32 (wrap 32 (junk 15%nat)); u32 (wrap 32 (junk 16%nat)); vec []; vec []; vec []].
Proof. reflexivity. Qed.

Lemma CentralFileHeader_Read_spec junk s r o' s' :
  Meta.Read (CentralFileHeader.new junk, s) = (r, (o', s')) ->
  let n := field_at s 28 2 in
  let m := field_at s 30 2 in
  let k := field_at s 32 2 in
  match r with
  | inr _ =>
      has_bytes s (46 + n + m + k) /\ field_at s 0 4 = Signatures.CentralFileHeader /\
      s' = advance (46 + n + m + k) s /\ values o' = central_header_at s
  | inl e =>
      (e = StreamError /\ ~ has_bytes s (46 + n + m + k)) \/
      (e = InvalidHeader /\ field_at s 0 4 <> Signatures.CentralFileHeader)
  end.
Proof.
  intros H. cbv zeta.
  pose proof (field_at_range s 28 2 ltac:(lia)) as Hn.
  pose proof (field_at_range s 30 2 ltac:(lia)) as Hm.
  pose proof (field_at_range s 32 2 ltac:(lia)) as Hk.
  change (2 ^ (8 * 2)) with 65536 in Hn, Hm, Hk.
  apply Meta_Read_inv in H as (vs & H & ->).
  change (fields (CentralFileHeader.new junk)) with CentralFileHeader.fields in H.
  rewrite CentralFileHeader_values in H.
  cbn [Read_from Object_Read CentralFileHeader.fields] in H.
  unfold CentralFileHeader.GetFileNameLength, CentralFileHeader.GetExtraFieldLength,
    CentralFileHeader.GetFileCommentLength in H.
  read_step H.
  { inversion H; subst; clear H. right. split; [reflexivity|]. by apply neqb_true. }
  2: { short_read H Hbytes. }
  apply neqb_false in Echeck.
  do 19 header_step H.
  cbn [ret] in H. inversion H; subst; clear H.
  conjuncts; [bytes_lia | assumption | reflexivity | reflexivity].
Qed.

Ltac norm_goal_sums :=
  repeat match goal with
    | |- context [Z.add ?a ?b] =>
        is_literal a; is_literal b;
        let v := eval vm_compute in (a + b) in change (a + b) with v
    end.

(** The bytes of a field are the encoding of the value they decode to. *)
Lemma le_encode_field (s : Stream) (k : Z) (n : nat) :
  0 <= k -> has_bytes s (k + Z.of_nat n) ->
  le_encode n (field_at s k (Z.of_nat n)) = peek s k (Z.of_nat n).
Proof.
  intros Hk Hb. unfold field_at.
  rewrite <- (le_encode_decode (peek s k (Z.of_nat n))) at 2.
  by rewrite length_peek_at, Nat2Z.id by (lia || done).
Qed.

Lemma le_encode_field2 (s : Stream) (k : Z) :
  0 <= k -> has_bytes s (k + 2) -> le_encode 2 (field_at s k 2) = peek s k 2.
Proof. apply (le_encode_field s k 2). Qed.

Lemma le_encode_field4 (s : Stream) (k : Z) :
  0 <= k -> has_bytes s (k + 4) -> le_encode 4 (field_at s k 4) = peek s k 4.
Proof. apply (le_encode_field s k 4). Qed.

Lemma has_bytes_less (s : Stream) (n m : Z) :
  has_bytes s n -> m <= n -> has_bytes s m.
Proof. unfold has_bytes. lia. Qed.

(** ** LocalFileHeader, read *)

(** X8.  Reading a LocalFileHeader never throws FieldOutOfRange: the two
    length fields are 16-bit values and cannot exceed the maximum they are
    compared with.  With [n] the name length decoded at offset 26 and [m]
    the extra-field length decoded at offset 28, the read returns exactly
    when the stream holds [30 + n + m] bytes that start with the signature
    0x04034b50.  It then has consumed exactly these bytes; the name is the
    [n] bytes at offset 30 and the extra field the [m] bytes after them;
    the two length fields equal the number of bytes held by the two
    buffers, the sizes are those found at offsets 18 and 22, and [Size()]
    is the number of bytes consumed. *)
Theorem LocalFileHeader_Read_layout (junk : nat -> Z) (s : Stream) :
  let result := Meta.Read (LocalFileHeader.new junk, s) in
  let n := field_at s 26 2 in
  let m := field_at s 28 2 in
  result.1 <> inl FieldOutOfRange /\
  (result.1 = inr tt <->
   has_bytes s (30 + n + m) /\ field_at s 0 4 = Signatures.LocalFileHeader) /\
  (result.1 = inr tt ->
   let header := result.2.1 in
   result.2.2 = advance (30 + n + m) s /\
   LocalFileHeader.GetFileName header = string_of_vec (peek s 30 n) /\
   GetValueN 12 header = peek s (30 + n) m /\
   LocalFileHeader.GetFileNameLength header = Z.of_nat (length (GetValueN 11 header)) /\
   LocalFileHeader.GetExtraFieldLength header = Z.of_nat (length (GetValueN 12 header)) /\
   LocalFileHeader.GetCompressedSize header = field_at s 18 4 /\
   LocalFileHeader.GetUncompressedSize header = field_at s 22 4 /\
   Size header = 30 + n + m).
Proof.
  cbv zeta.
  pose proof (field_at_range s 26 2 ltac:(lia)) as Hn.
  pose proof (field_at_range s 28 2 ltac:(lia)) as Hm.
  destruct (Meta.Read (LocalFileHeader.new junk, s)) as [r [o' s']] eqn:H.
  apply LocalFileHeader_Read_spec in H. cbv zeta in H. cbn [fst snd].
  destruct r as [e|[]].
  - split; [|split; [split|]]; try discriminate.
    + destruct H as [[-> _] | [-> _]]; discriminate.
    + intros [Hb Hsig]. destruct H as [[_ H] | [_ H]]; tauto.
  - destruct H as (Hb & Hsig & -> & Hv).
    split; [discriminate|]. split; [tauto|]. intros _.
    assert (Hname : length (peek s 30 (field_at s 26 2)) = Z.to_nat (field_at s 26 2)).
    { apply length_peek_at; [lia | lia |]. eapply has_bytes_less; [exact Hb | lia]. }
    assert (Hextra : length (peek s (30 + field_at s 26 2) (field_at s 28 2))
                     = Z.to_nat (field_at s 28 2)).
    { apply length_peek_at; [lia | lia |]. eapply has_bytes_less; [exact Hb | lia]. }
    unfold LocalFileHeader.GetFileName, LocalFileHeader.GetFileNameLength,
      LocalFileHeader.GetExtraFieldLength, LocalFileHeader.GetCompressedSize,
      LocalFileHeader.GetUncompressedSize, GetValueN, GetValue16, GetValue32, Size.
    rewrite Hv. unfold local_header_at.
    cbn [lookup list_lookup foldr Value_Size].
    rewrite Hname, Hextra. conjuncts; try reflexivity; lia.
Qed.

Lemma LocalFileHeader_Read_layout_witness :
  let s := mkStream (serialized (local_header "a.txt") ++ [x01; x02]) 0 in
  let result := Meta.Read (LocalFileHeader.new no_junk, s) in
  result.2.2 = advance 35 s /\
  LocalFileHeader.GetFileName result.2.1 = "a.txt"%string.
Proof.
  cbv zeta.
  pose proof (proj2 (proj2 (LocalFileHeader_Read_layout no_junk
    (mkStream (serialized (local_header "a.txt") ++ [x01; x02]) 0)))
    ltac:(vm_compute; reflexivity)) as (Hpos & Hname & _).
  split; [rewrite Hpos | rewrite Hname]; vm_compute; reflexivity.
Defined.

(** X9.  Writing a LocalFileHeader that was read without exception gives
    back the bytes the read consumed. *)
Theorem LocalFileHeader_Read_Write (junk : nat -> Z) (s : Stream) :
  let result := Meta.Read (LocalFileHeader.new junk, s) in
  result.1 = inr tt ->
  serialized result.2.1 = peek s 0 (Size result.2.1).
Proof.
  cbv zeta.
  pose proof (field_at_range s 26 2 ltac:(lia)) as Hn.
  pose proof (field_at_range s 28 2 ltac:(lia)) as Hm.
  destruct (Meta.Read (LocalFileHeader.new junk, s)) as [r [o' s']] eqn:H.
  apply LocalFileHeader_Read_spec in H. cbv zeta in H. cbn [fst snd].
  intros ->. destruct H as (Hb & Hsig & -> & Hv).
  assert (Ho : 0 <= offset s) by apply Hb.
  assert (Hsub : forall k, k <= 30 -> has_bytes s k)
    by (intros; eapply has_bytes_less; [exact Hb | lia]).
  assert (Hname : length (peek s 30 (field_at s 26 2)) = Z.to_nat (field_at s 26 2)).
  { apply length_peek_at; [lia | lia |]. eapply has_bytes_less; [exact Hb | lia]. }
  assert (Hextra : length (peek s (30 + field_at s 26 2) (field_at s 28 2))
                   = Z.to_nat (field_at s 28 2)).
  { apply length_peek_at; [lia | lia |]. eapply has_bytes_less; [exact Hb | lia]. }
  rewrite serialized_eq. unfold Size. rewrite Hv. unfold local_header_at.
  cbn [flat_map Value_bytes foldr Value_Size]. rewrite Hname, Hextra, !Z2Nat.id by lia.
  rewrite !le_encode_field2, !le_encode_field4 by (lia || (apply Hsub; lia)).
  rewrite app_nil_r, Z.add_0_r.
  rewrite !peek_split by lia. norm_goal_sums. reflexivity.
Qed.

Lemma LocalFileHeader_Read_Write_witness :
  let s := mkStream (serialized (local_header "a.txt") ++ [x01; x02]) 0 in
  serialized (Meta.Read (LocalFileHeader.new no_junk, s)).2.1 = peek s 0 35.
Proof.
  cbv zeta.
  apply (LocalFileHeader_Read_Write no_junk
           (mkStream (serialized (local_header "a.txt") ++ [x01; x02]) 0)).
  vm_compute. reflexivity.
Defined.

(** ** CentralFileHeader, read *)

(** X10.  Reading a CentralFileHeader never throws FieldOutOfRange.  With
    [n], [m] and [k] the name, extra-field and comment lengths decoded at
    offsets 28, 30 and 32, the read returns exactly when the stream holds
    [46 + n + m + k] bytes that start with the signature 0x02014b50.  It
    then has consumed exactly these bytes: the name is the [n] bytes at
    offset 46, the extra field the [m] bytes after them and the comment the
    [k] bytes after those; the three length fields equal the number of
    bytes held by the three buffers, the sizes and the offset of the local
    header are those found at offsets 20, 24 and 42, and [Size()] is the
    number of bytes consumed. *)
Theorem CentralFileHeader_Read_layout (junk : nat -> Z) (s : Stream) :
  let result := Meta.Read (CentralFileHeader.new junk, s) in
  let n := field_at s 28 2 in
  let m := field_at s 30 2 in
  let k := field_at s 32 2 in
  result.1 <> inl FieldOutOfRange /\
  (result.1 = inr tt <->
   has_bytes s (46 + n + m + k) /\ field_at s 0 4 = Signatures.CentralFileHeader) /\
  (result.1 = inr tt ->
   let header := result.2.1 in
   result.2.2 = advance (46 + n + m + k) s /\
   CentralFileHeader.GetFileName header = string_of_vec (peek s 46 n) /\
   CentralFileHeader.GetExtraField header = string_of_vec (peek s (46 + n) m) /\
   CentralFileHeader.GetComment header = string_of_vec (peek s (46 + n + m) k) /\
   CentralFileHeader.GetFileNameLength header = Z.of_nat (length (GetValueN 17 header)) /\
   CentralFileHeader.GetExtraFieldLength header = Z.of_nat (length (GetValueN 18 header)) /\
   CentralFileHeader.GetFileCommentLength header
     = Z.of_nat (length (GetValueN 19 header)) /\
   CentralFileHeader.GetCompressedSize header = field_at s 20 4 /\
   CentralFileHeader.GetUncompressedSize header = field_at s 24 4 /\
   CentralFileHeader.GetRelativeOffsetOfLocalHeader header = field_at s 42 4 /\
   Size header = 46 + n + m + k).
Proof.
  cbv zeta.
  pose proof (field_at_range s 28 2 ltac:(lia)) as Hn.
  pose proof (field_at_range s 30 2 ltac:(lia)) as Hm.
  pose proof (field_at_range s 32 2 ltac:(lia)) as Hk.
  destruct (Meta.Read (CentralFileHeader.new junk, s)) as [r [o' s']] eqn:H.
  apply CentralFileHeader_Read_spec in H. cbv zeta in H. cbn [fst snd].
  destruct r as [e|[]].
  - split; [|split; [split|]]; try discriminate.
    + destruct H as [[-> _] | [-> _]]; discriminate.
    + intros [Hb Hsig]. destruct H as [[_ H] | [_ H]]; tauto.
  - destruct H as (Hb & Hsig & -> & Hv).
    split; [discriminate|]. split; [tauto|]. intros _.
    assert (Hname : length (peek s 46 (field_at s 28 2)) = Z.to_nat (field_at s 28 2)).
    { apply length_peek_at; [lia | lia |]. eapply has_bytes_less; [exact Hb | lia]. }
    assert (Hextra : length (peek s (46 + field_at s 28 2) (field_at s 30 2))
                     = Z.to_nat (field_at s 30 2)).
    { apply length_peek_at; [lia | lia |]. eapply has_bytes_less; [exact Hb | lia]. }
    assert (Hcomment : length (peek s (46 + field_at s 28 2 + field_at s 30 2)
                                 (field_at s 32 2))
                       = Z.to_nat (field_at s 32 2)).
    { apply length_peek_at; [lia | lia |]. eapply has_bytes_less; [exact Hb | lia]. }
    unfold CentralFileHeader.GetFileName, CentralFileHeader.GetExtraField,
      CentralFileHeader.GetComment, CentralFileHeader.GetFileNameLength,
      CentralFileHeader.GetExtraFieldLength, CentralFileHeader.GetFileCommentLength,
      CentralFileHeader.GetCompressedSize, CentralFileHeader.GetUncompressedSize,
      CentralFileHeader.GetRelativeOffsetOfLocalHeader,
      GetValueN, GetValue16, GetValue32, Size.
    rewrite Hv. unfold central_header_at.
    cbn [lookup list_lookup foldr Value_Size].
    rewrite Hname, Hextra, Hcomment. conjuncts; try reflexivity; lia.
Qed.

Lemma CentralFileHeader_Read_layout_witness :
  let s := mkStream (serialized (central_header "a.txt") ++ [x01; x02]) 0 in
  let result := Meta.Read (CentralFileHeader.new no_junk, s) in
  result.2.2 = advance 51 s /\
  CentralFileHeader.GetFileName result.2.1 = "a.txt"%string.
Proof.
  cbv zeta.
  pose proof (proj2 (proj2 (CentralFileHeader_Read_layout no_junk
    (mkStream (serialized (central_header "a.txt") ++ [x01; x02]) 0)))
    ltac:(vm_compute; reflexivity)) as (Hpos & Hname & _).
  split; [rewrite Hpos | rewrite Hname]; vm_compute; reflexivity.
Defined.

(** ** CentralFileHeader, written and read back *)

Lemma peek_at_app (pre d post : list byte) (k n : Z) :
  k = Z.of_nat (length pre) -> n = Z.of_nat (length d) ->
  peek (mkStream (pre ++ d ++ post) 0) k n = d.
Proof.
  intros -> ->. unfold peek. cbn [offset content].
  rewrite Z.add_0_l, !Nat2Z.id, drop_app_length, take_app_length. reflexivity.
Qed.

(** What a reader of CentralFileHeader finds in a stream made of the
    seventeen fixed fields and three runs of bytes whose lengths are the
    three length fields. *)
Lemma central_header_at_bytes a0 a1 a2 a3 a4 a5 a6 a7 a8 a9 a13 a14 a15 a16
    (name extra comment rest : list byte) :
  let n := Z.of_nat (length name) in
  let m := Z.of_nat (length extra) in
  let k := Z.of_nat (length comment) in
  let s := mkStream
    (le_encode 4 a0 ++ le_encode 2 a1 ++ le_encode 2 a2 ++ le_encode 2 a3 ++
     le_encode 2 a4 ++ le_encode 2 a5 ++ le_encode 2 a6 ++ le_encode 4 a7 ++
     le_encode 4 a8 ++ le_encode 4 a9 ++ le_encode 2 n ++ le_encode 2 m ++
     le_encode 2 k ++ le_encode 2 a13 ++ le_encode 2 a14 ++ le_encode 4 a15 ++
     le_encode 4 a16 ++ name ++ extra ++ comment ++ rest) 0 in
  n < 2 ^ 16 -> m < 2 ^ 16 -> k < 2 ^ 16 ->
  has_bytes s (46 + n + m + k) /\
  central_header_at s =
    [u32 (wrap 32 a0); u16 (wrap 16 a1); u16 (wrap 16 a2); u16 (wrap 16 a3);
     u16 (wrap 16 a4); u16 (wrap 16 a5); u16 (wrap 16 a6); u32 (wrap 32 a7);
     u32 (wrap 32 a8); u32 (wrap 32 a9); u16 n; u16 m; u16 k;
     u16 (wrap 16 a13); u16 (wrap 16 a14); u32 (wrap 32 a15); u32 (wrap 32 a16);
     vec name; vec extra; vec comment].
Proof.
  cbv zeta. intros Hn Hm Hk.
  set (n := Z.of_nat (length name)) in *.
  set (m := Z.of_nat (length extra)) in *.
  set (k := Z.of_nat (length comment)) in *.
  set (pre := le_encode 4 a0 ++ le_encode 2 a1 ++ le_encode 2 a2 ++ le_encode 2 a3 ++
     le_encode 2 a4 ++ le_encode 2 a5 ++ le_encode 2 a6 ++ le_encode 4 a7 ++
     le_encode 4 a8 ++ le_encode 4 a9 ++ le_encode 2 n ++ le_encode 2 m ++
     le_encode 2 k ++ le_encode 2 a13 ++ le_encode 2 a14 ++ le_encode 4 a15 ++
     le_encode 4 a16).
  match goal with |- has_bytes ?s0 _ /\ _ => set (s := s0) end.
  assert (Hpre : length pre = 46%nat) by reflexivity.
  assert (Hs : s = mkStream (pre ++ name ++ extra ++ comment ++ rest) 0) by reflexivity.
  split.
  { rewrite Hs. unfold has_bytes, size. cbn [offset content].
    rewrite !length_app, Hpre. lia. }
  assert (F16 : forall x, le_decode (le_encode 2 x) = wrap 16 x)
    by (intros; apply le_decode_encode).
  assert (F32 : forall x, le_decode (le_encode 4 x) = wrap 32 x)
    by (intros; apply le_decode_encode).
  assert (Hfn : field_at s 28 2 = n).
  { unfold field_at. change (peek s 28 2) with (le_encode 2 n).
    rewrite F16. apply wrap_small. lia. }
  assert (Hfm : field_at s 30 2 = m).
  { unfold field_at. change (peek s 30 2) with (le_encode 2 m).
    rewrite F16. apply wrap_small. lia. }
  assert (Hfk : field_at s 32 2 = k).
  { unfold field_at. change (peek s 32 2) with (le_encode 2 k).
    rewrite F16. apply wrap_small. lia. }
  unfold central_header_at. rewrite Hfn, Hfm, Hfk.
  assert (Pname : peek s 46 n = name).
  { rewrite Hs. apply peek_at_app; [by rewrite Hpre | done]. }
  assert (Pextra : peek s (46 + n) m = extra).
  { rewrite Hs. rewrite (app_assoc pre name). apply peek_at_app; [|done].
    rewrite length_app, Hpre. lia. }
  assert (Pcomment : peek s (46 + n + m) k = comment).
  { rewrite Hs. rewrite (app_assoc pre name), (app_assoc (pre ++ name) extra).
    apply peek_at_app; [|done]. rewrite !length_app, Hpre. lia. }
  rewrite Pname, Pextra, Pcomment. unfold field_at.
  change (peek s 0 4) with (le_encode 4 a0). change (peek s 4 2) with (le_encode 2 a1).
  change (peek s 6 2) with (le_encode 2 a2). change (peek s 8 2) with (le_encode 2 a3).
  change (peek s 10 2) with (le_encode 2 a4). change (peek s 12 2) with (le_encode 2 a5).
  change (peek s 14 2) with (le_encode 2 a6). change (peek s 16 4) with (le_encode 4 a7).
  change (peek s 20 4) with (le_encode 4 a8). change (peek s 24 4) with (le_encode 4 a9).
  change (peek s 34 2) with (le_encode 2 a13). change (peek s 36 2) with (le_encode 2 a14).
  change (peek s 38 4) with (le_encode 4 a15). change (peek s 42 4) with (le_encode 4 a16).
  rewrite !F16, !F32. reflexivity.
Qed.

(** The fields of an object of a record class, one by one. *)
Ltac instance_values Hv :=
  repeat match type of Hv with
    | Forall2 holds (_ :: _) _ =>
        let v := fresh "v" in
        let Hh := fresh "Hholds" in
        apply Forall2_cons_inv_l in Hv as (v & ? & Hh & Hv & ->);
        destruct v; try contradiction; clear Hh
    end;
  apply Forall2_nil_inv_l in Hv as ->.

(** X11.  A CentralFileHeader object whose signature field holds
    0x02014b50 and whose three length fields hold the number of bytes of
    its name, extra-field and comment buffers, written to a stream and read
    back by a new CentralFileHeader: the read returns, has consumed the
    [Size()] bytes written, and the object read is the object written,
    field by field. *)
Theorem CentralFileHeader_Write_Read (junk : nat -> Z) (this : StructuredObject) :
  instance_of CentralFileHeader.fields this ->
  Forall representable (values this) ->
  CentralFileHeader.GetSignature this = Signatures.CentralFileHeader ->
  CentralFileHeader.GetFileNameLength this = Z.of_nat (length (GetValueN 17 this)) ->
  CentralFileHeader.GetExtraFieldLength this = Z.of_nat (length (GetValueN 18 this)) ->
  CentralFileHeader.GetFileCommentLength this = Z.of_nat (length (GetValueN 19 this)) ->
  Meta.Read (CentralFileHeader.new junk, written this) =
    (inr tt, (this, advance (Size this) (written this))).
Proof.
  destruct this as [fs vs]. intros [Hf Hv] Hr Hsig Hn Hm Hk.
  cbn [fields values] in *. subst fs. unfold CentralFileHeader.fields in Hv.
  instance_values Hv.
  unfold CentralFileHeader.GetSignature, CentralFileHeader.GetFileNameLength,
    CentralFileHeader.GetExtraFieldLength, CentralFileHeader.GetFileCommentLength,
    GetValue16, GetValue32, GetValueN in Hsig, Hn, Hm, Hk.
  cbn [lookup list_lookup] in Hsig, Hn, Hm, Hk. subst.
  rewrite !Forall_cons in Hr. cbn [representable] in Hr.
  destruct Hr as (R0 & R1 & R2 & R3 & R4 & R5 & R6 & R7 & R8 & R9 & R10 & R11 & R12
                  & R13 & R14 & R15 & R16 & _).
  rewrite written_eq, serialized_eq. cbn [values flat_map Value_bytes].
  match goal with
  | |- context [mkStream (_ ++ le_encode 2 ?a1 ++ le_encode 2 ?a2 ++ le_encode 2 ?a3
                          ++ le_encode 2 ?a4 ++ le_encode 2 ?a5 ++ le_encode 2 ?a6
                          ++ le_encode 4 ?a7 ++ le_encode 4 ?a8 ++ le_encode 4 ?a9
                          ++ _ ++ _ ++ _
                          ++ le_encode 2 ?a13 ++ le_encode 2 ?a14 ++ le_encode 4 ?a15
                          ++ le_encode 4 ?a16 ++ ?name ++ ?extra ++ ?comment ++ [])] =>
      pose proof (central_header_at_bytes Signatures.CentralFileHeader
                    a1 a2 a3 a4 a5 a6 a7 a8 a9 a13 a14 a15 a16 name extra comment []
                    ltac:(lia) ltac:(lia) ltac:(lia)) as [Hb Hat]
  end.
  cbv zeta in Hb, Hat.
  match type of Hb with has_bytes ?s0 _ => set (s := s0) in * end.
  rewrite !wrap_small in Hat by (done || (vm_compute; split; discriminate)).
  destruct (Meta.Read (CentralFileHeader.new junk, s)) as [r [o' s']] eqn:H.
  pose proof (Meta_Read_inv _ _ _ _ _ H) as (vs & _ & Ho').
  apply CentralFileHeader_Read_spec in H. cbv zeta in H.
  assert (Hfn : field_at s 28 2 = Z.of_nat (length data)).
  { change (field_at s 28 2) with (GetValue16 10 (central_header_at s)).
    by rewrite Hat. }
  assert (Hfm : field_at s 30 2 = Z.of_nat (length data0)).
  { change (field_at s 30 2) with (GetValue16 11 (central_header_at s)).
    by rewrite Hat. }
  assert (Hfk : field_at s 32 2 = Z.of_nat (length data1)).
  { change (field_at s 32 2) with (GetValue16 12 (central_header_at s)).
    by rewrite Hat. }
  assert (Hsig : field_at s 0 4 = Signatures.CentralFileHeader).
  { change (field_at s 0 4) with (GetValue32 0 (central_header_at s)).
    by rewrite Hat. }
  rewrite Hfn, Hfm, Hfk, Hat in H.
  destruct r as [e|[]].
  - exfalso. destruct H as [[_ H] | [_ H]]; tauto.
  - destruct H as (_ & _ & -> & Hv'). subst o'. cbn [values] in Hv'. subst vs.
    do 3 f_equal. unfold Size. cbn [foldr Value_Size]. lia.
Qed.

Lemma CentralFileHeader_Write_Read_witness :
  CentralFileHeader.GetFileName
    (Meta.Read (CentralFileHeader.new no_junk, written (central_header "a.txt"))).2.1
  = "a.txt"%string.
Proof.
  rewrite (CentralFileHeader_Write_Read no_junk (central_header "a.txt")).
  - reflexivity.
  - split; [reflexivity | repeat constructor].
  - cbv [central_header CentralFileHeader.SetFileName CentralFileHeader.SetSignature
         CentralFileHeader.SetFileNameLength SetValue16 SetValue32 SetValue values
         CentralFileHeader.new construct fresh CentralFileHeader.fields imap insert
         list_insert compose].
    repeat (constructor;
            [first [exact I | split; vm_compute; [discriminate | reflexivity]] |]).
    constructor.
  - reflexivity.
  - reflexivity.
  - reflexivity.
  - reflexivity.
Defined.

(** ** CentralFileHeader: the setters of the name and of the extra field *)

Lemma length_vec_of_string (s : string) : length (vec_of_string s) = String.length s.
Proof.
  unfold vec_of_string, list_byte_of_string. rewrite length_map.
  induction s as [|a s IH]; simpl; congruence.
Qed.

(** A setter that resizes the buffer of field [j], assigns the bytes of
    [text] to it and then stores the 16-bit size of [text] in field [i]. *)
Lemma set_text_spec (this : StructuredObject) (text : string) (i j : nat) validate validate' :
  instance_of CentralFileHeader.fields this ->
  CentralFileHeader.fields !! i = Some (Field2Bytes validate) ->
  CentralFileHeader.fields !! j = Some (FieldNBytes validate') ->
  i <> j ->
  let after :=
    SetValue16 i (size16 text)
      (SetValue j (vec (vec_of_string text))
         (SetValue j (vec (resize (String.length text) x00 (GetValueN j this))) this)) in
  instance_of CentralFileHeader.fields after /\
  string_of_vec (GetValueN j after) = text /\
  GetValue16 i after = Z.of_nat (String.length text) mod 65536 /\
  (Z.of_nat (String.length text) <= 65535 ->
   GetValue16 i after = Z.of_nat (length (GetValueN j after))) /\
  (forall p, p <> i -> p <> j -> values after !! p = values this !! p).
Proof.
  intros Hi Hfi Hfj Hij. cbv zeta.
  destruct (instance_vec _ _ j _ Hi Hfj) as [d Hd].
  assert (Hj : (j < length (values this))%nat) by (by eapply lookup_lt_Some).
  set (mid := SetValue j (vec (vec_of_string text))
                (SetValue j (vec (resize (String.length text) x00 (GetValueN j this)))
                   this)).
  assert (Hmid : instance_of CentralFileHeader.fields mid).
  { unfold mid. eapply SetValue_instance; [|exact Hfj|done].
    eapply SetValue_instance; [exact Hi|exact Hfj|done]. }
  assert (Hvec : GetValueN j (SetValue16 i (size16 text) mid) = vec_of_string text).
  { unfold GetValueN, SetValue16, mid, SetValue. cbn [values].
    rewrite list_lookup_insert_ne by done.
    rewrite list_lookup_insert_eq; [done|]. by rewrite length_insert. }
  assert (Hlen : GetValue16 i (SetValue16 i (size16 text) mid)
                 = Z.of_nat (String.length text) mod 65536).
  { erewrite GetValue16_SetValue16; [|exact Hmid|exact Hfi].
    unfold size16. rewrite wrap_wrap by lia. reflexivity. }
  conjuncts.
  - unfold SetValue16. eapply SetValue_instance; [exact Hmid | exact Hfi | done].
  - rewrite Hvec. apply string_of_list_byte_of_string.
  - exact Hlen.
  - intros Hle. rewrite Hlen, Hvec, length_vec_of_string. apply Z.mod_small. lia.
  - intros p Hpi Hpj. unfold SetValue16, mid, SetValue. cbn [values].
    by rewrite !list_lookup_insert_ne.
Qed.

(** X12.  For every CentralFileHeader object, [SetFileName(name)] stores
    the bytes of [name] in field 17 and the size of [name], converted to 16
    bits, in field 10, and changes no other field: [GetFileName()] then
    returns [name], and when [name] has at most 65535 bytes the length field
    is the number of name bytes held.  [SetExtraField(extra)] does the same
    with fields 18 and 11. *)
Theorem CentralFileHeader_SetFileName_stores_name
    (this : StructuredObject) (name extra : string) :
  instance_of CentralFileHeader.fields this ->
  let named := CentralFileHeader.SetFileName name this in
  let extended := CentralFileHeader.SetExtraField extra this in
  (instance_of CentralFileHeader.fields named /\
   CentralFileHeader.GetFileName named = name /\
   CentralFileHeader.GetFileNameLength named = Z.of_nat (String.length name) mod 65536 /\
   (Z.of_nat (String.length name) <= 65535 ->
    CentralFileHeader.GetFileNameLength named = Z.of_nat (length (GetValueN 17 named))) /\
   (forall p, p <> 10%nat -> p <> 17%nat -> values named !! p = values this !! p))
  /\
  (instance_of CentralFileHeader.fields extended /\
   CentralFileHeader.GetExtraField extended = extra /\
   CentralFileHeader.GetExtraFieldLength extended
     = Z.of_nat (String.length extra) mod 65536 /\
   (Z.of_nat (String.length extra) <= 65535 ->
    CentralFileHeader.GetExtraFieldLength extended
      = Z.of_nat (length (GetValueN 18 extended))) /\
   (forall p, p <> 11%nat -> p <> 18%nat -> values extended !! p = values this !! p)).
Proof.
  intros Hi. cbv zeta. split.
  - exact (set_text_spec this name 10 17 _ _ Hi eq_refl eq_refl ltac:(lia)).
  - exact (set_text_spec this extra 11 18 _ _ Hi eq_refl eq_refl ltac:(lia)).
Qed.

Lemma CentralFileHeader_SetFileName_stores_name_witness :
  CentralFileHeader.GetFileName
    (CentralFileHeader.SetFileName "a.txt" (CentralFileHeader.new no_junk))
  = "a.txt"%string.
Proof.
  apply (CentralFileHeader_SetFileName_stores_name
           (CentralFileHeader.new no_junk) "a.txt" EmptyString).
  split; [reflexivity | repeat constructor].
Defined.

(** X13.  What [SetComment] does to a header that is then written and read
    back.  The object is a CentralFileHeader with its signature set, a name
    whose length field is right, no extra field and a comment length of 0.
    After [SetComment(comment)], [comment] having at most 65535 bytes, the
    bytes written are read by a new CentralFileHeader without exception,
    but the comment is not among what [GetComment()] returns: its bytes are
    taken for the extra field, whose length field [SetComment] has set, and
    the comment read is empty. *)
Theorem CentralFileHeader_SetComment_read_back
    (junk : nat -> Z) (this : StructuredObject) (comment : string) :
  instance_of CentralFileHeader.fields this ->
  Forall representable (values this) ->
  CentralFileHeader.GetSignature this = Signatures.CentralFileHeader ->
  CentralFileHeader.GetFileNameLength this = Z.of_nat (length (GetValueN 17 this)) ->
  GetValueN 18 this = [] ->
  CentralFileHeader.GetFileCommentLength this = 0 ->
  Z.of_nat (String.length comment) <= 65535 ->
  let result := Meta.Read (CentralFileHeader.new junk,
                           written (CentralFileHeader.SetComment comment this)) in
  result.1 = inr tt /\
  CentralFileHeader.GetFileName result.2.1 = CentralFileHeader.GetFileName this /\
  CentralFileHeader.GetExtraField result.2.1 = comment /\
  CentralFileHeader.GetComment result.2.1 = EmptyString.
Proof.
  destruct this as [fs vs]. intros [Hf Hv] Hr Hsig Hn Hm Hk Hc.
  cbn [fields values] in *. subst fs. unfold CentralFileHeader.fields in Hv.
  instance_values Hv.
  unfold CentralFileHeader.GetSignature, CentralFileHeader.GetFileNameLength,
    CentralFileHeader.GetFileCommentLength, GetValue16, GetValue32, GetValueN
    in Hsig, Hn, Hm, Hk.
  cbn [lookup list_lookup] in Hsig, Hn, Hm, Hk. subst.
  rewrite !Forall_cons in Hr. cbn [representable] in Hr.
  destruct Hr as (R0 & R1 & R2 & R3 & R4 & R5 & R6 & R7 & R8 & R9 & R10 & R11 & R12
                  & R13 & R14 & R15 & R16 & _).
  cbv zeta. rewrite written_eq, serialized_eq.
  unfold CentralFileHeader.SetComment, CentralFileHeader.SetExtraFieldLength,
    SetValue16, SetValue.
  cbn [values insert list_insert flat_map Value_bytes].
  assert (Hsize : wrap 16 (size16 comment) = Z.of_nat (length (vec_of_string comment))).
  { unfold size16. rewrite wrap_wrap by lia. rewrite length_vec_of_string.
    apply wrap_small. lia. }
  rewrite Hsize.
  match goal with
  | |- context [mkStream (_ ++ le_encode 2 ?a1 ++ le_encode 2 ?a2 ++ le_encode 2 ?a3
                          ++ le_encode 2 ?a4 ++ le_encode 2 ?a5 ++ le_encode 2 ?a6
                          ++ le_encode 4 ?a7 ++ le_encode 4 ?a8 ++ le_encode 4 ?a9
                          ++ _ ++ _ ++ _
                          ++ le_encode 2 ?a13 ++ le_encode 2 ?a14 ++ le_encode 4 ?a15
                          ++ le_encode 4 ?a16 ++ ?name ++ [] ++ ?text ++ [])] =>
      pose proof (central_header_at_bytes Signatures.CentralFileHeader
                    a1 a2 a3 a4 a5 a6 a7 a8 a9 a13 a14 a15 a16 name text [] []) as Hat
  end.
  cbv zeta in Hat. destruct Hat as [Hb Hat].
  { lia. }
  { rewrite length_vec_of_string. lia. }
  { cbn [length]. lia. }
  match type of Hb with has_bytes ?s0 _ => set (s := s0) in * end.
  rewrite !wrap_small in Hat by (done || (vm_compute; split; discriminate)).
  match goal with
  | |- context [Meta.Read (_, ?s1)] => change s1 with s
  end.
  destruct (Meta.Read (CentralFileHeader.new junk, s)) as [r [o' s']] eqn:H.
  apply CentralFileHeader_Read_spec in H. cbv zeta in H.
  assert (Hfn : field_at s 28 2 = Z.of_nat (length data)).
  { change (field_at s 28 2) with (GetValue16 10 (central_header_at s)).
    by rewrite Hat. }
  assert (Hfm : field_at s 30 2 = Z.of_nat (length (vec_of_string comment))).
  { change (field_at s 30 2) with (GetValue16 11 (central_header_at s)).
    by rewrite Hat. }
  assert (Hfk : field_at s 32 2 = Z.of_nat (length (@nil byte))).
  { change (field_at s 32 2) with (GetValue16 12 (central_header_at s)).
    by rewrite Hat. }
  assert (Hsig : field_at s 0 4 = Signatures.CentralFileHeader).
  { change (field_at s 0 4) with (GetValue32 0 (central_header_at s)).
    by rewrite Hat. }
  rewrite Hfn, Hfm, Hfk, Hat in H. cbn [fst snd].
  destruct r as [e|[]].
  - exfalso. destruct H as [[_ H] | [_ H]]; tauto.
  - destruct H as (_ & _ & _ & Hv').
    unfold CentralFileHeader.GetFileName, CentralFileHeader.GetExtraField,
      CentralFileHeader.GetComment, GetValueN.
    rewrite Hv'. cbn [lookup list_lookup values].
    conjuncts; try reflexivity.
    apply string_of_list_byte_of_string.
Qed.

Lemma CentralFileHeader_SetComment_read_back_witness :
  let result := Meta.Read (CentralFileHeader.new no_junk,
                  written (CentralFileHeader.SetComment "note" (central_header "a.txt"))) in
  CentralFileHeader.GetExtraField result.2.1 = "note"%string /\
  CentralFileHeader.GetComment result.2.1 = EmptyString.
Proof.
  cbv zeta.
  apply (CentralFileHeader_SetComment_read_back no_junk (central_header "a.txt") "note").
  - split; [reflexivity | repeat constructor].
  - cbv [central_header CentralFileHeader.SetFileName CentralFileHeader.SetSignature
         CentralFileHeader.SetFileNameLength SetValue16 SetValue32 SetValue values
         CentralFileHeader.new construct fresh CentralFileHeader.fields imap insert
         list_insert compose].
    repeat (constructor;
            [first [exact I | split; vm_compute; [discriminate | reflexivity]] |]).
    constructor.
  - reflexivity.
  - reflexivity.
  - reflexivity.
  - reflexivity.
  - vm_compute. discriminate.
Defined.

(** ** DataDescriptor *)

Lemma DataDescriptor_values junk :
  values (DataDescriptor.new junk) =
    [u32 (wrap 32 (junk 0%nat)); u32 (wrap 32 (junk 1%nat)); u32 (wrap 32 (junk 2%nat))].
Proof. reflexivity. Qed.

Lemma DataDescriptor_Read_spec junk s r o' s' :
  Meta.Read (DataDescriptor.new junk, s) = (r, (o', s')) ->
  match r with
  | inr _ =>
      has_bytes s 12 /\ s' = advance 12 s /\
      values o' = [u32 (field_at s 0 4); u32 (field_at s 4 4); u32 (field_at s 8 4)]
  | inl e => e = StreamError /\ ~ has_bytes s 12
  end.
Proof.
  intros H.
  apply Meta_Read_inv in H as (vs & H & ->).
  change (fields (DataDescriptor.new junk)) with DataDescriptor.fields in H.
  rewrite DataDescriptor_values in H.
  cbn [Read_from Object_Read DataDescriptor.fields] in H.
  rewrite bind_read_plain in H. cbn [insert list_insert] in H.
  destruct (decide (has_bytes s 4)) as [Hb0|Hb0].
  2: { inversion H; subst; clear H. split; [reflexivity | bytes_lia]. }
  rewrite bind_read_plain in H. cbn [insert list_insert] in H.
  destruct (decide (has_bytes (advance 4 s) 4)) as [Hb1|Hb1].
  2: { inversion H; subst; clear H. split; [reflexivity | bytes_lia]. }
  rewrite bind_read_plain in H. cbn [insert list_insert] in H.
  destruct (decide (has_bytes (advance 4 (advance 4 s)) 4)) as [Hb2|Hb2].
  2: { inversion H; subst; clear H. split; [reflexivity | bytes_lia]. }
  cbn [ret] in H. inversion H; subst; clear H.
  rewrite !advance_advance, !field_at_advance.
  conjuncts; [bytes_lia | reflexivity | reflexivity].
Qed.

(** X14.  A DataDescriptor validates nothing, and it knows no signature:
    read where 12 bytes are present, it returns after these 12 bytes
    whatever they are, with the CRC, the compressed size and the
    uncompressed size decoded at offsets 0, 4 and 8; so when the
    descriptor in the stream is preceded by the signature 0x08074b50, it is
    the signature that [GetCrc32()] returns.  With fewer than 12 bytes the
    read ends in the stream's error; no ZipException is ever thrown. *)
Theorem DataDescriptor_Read_any (junk : nat -> Z) (s : Stream) :
  let result := Meta.Read (DataDescriptor.new junk, s) in
  (has_bytes s 12 ->
   result.1 = inr tt /\ result.2.2 = advance 12 s /\
   DataDescriptor.GetCrc32 result.2.1 = field_at s 0 4 /\
   DataDescriptor.GetCompressedSize result.2.1 = field_at s 4 4 /\
   DataDescriptor.GetUncompressedSize result.2.1 = field_at s 8 4 /\
   (field_at s 0 4 = Signatures.DataDescriptor ->
    DataDescriptor.GetCrc32 result.2.1 = Signatures.DataDescriptor))
  /\
  (~ has_bytes s 12 -> result.1 = inl StreamError).
Proof.
  cbv zeta.
  destruct (Meta.Read (DataDescriptor.new junk, s)) as [r [o' s']] eqn:H.
  apply DataDescriptor_Read_spec in H. cbn [fst snd].
  destruct r as [e|[]].
  - destruct H as [-> H]. split; [tauto | done].
  - destruct H as (Hb & -> & Hv). split; [|tauto]. intros _.
    unfold DataDescriptor.GetCrc32, DataDescriptor.GetCompressedSize,
      DataDescriptor.GetUncompressedSize, GetValue32.
    rewrite Hv. cbn [lookup list_lookup]. conjuncts; try reflexivity. tauto.
Qed.

(** A descriptor with its signature in front: the signature is read as the
    CRC and the CRC as the compressed size. *)
Lemma DataDescriptor_Read_any_witness :
  let s := mkStream (le_encode 4 Signatures.DataDescriptor ++ le_encode 4 0xCAFE ++
                     le_encode 4 10 ++ le_encode 4 20) 0 in
  let result := Meta.Read (DataDescriptor.new no_junk, s) in
  DataDescriptor.GetCrc32 result.2.1 = Signatures.DataDescriptor /\
  DataDescriptor.GetCompressedSize result.2.1 = 0xCAFE.
Proof.
  cbv zeta.
  pose proof (proj1 (DataDescriptor_Read_any no_junk
    (mkStream (le_encode 4 Signatures.DataDescriptor ++ le_encode 4 0xCAFE ++
               le_encode 4 10 ++ le_encode 4 20) 0))
    ltac:(split; vm_compute; discriminate)) as (_ & _ & _ & Hsize & _ & Hcrc).
  split; [apply Hcrc | rewrite Hsize]; vm_compute; reflexivity.
Defined.

(** X15.  A DataDescriptor on which the three setters were called, written
    to a stream and read back by a new DataDescriptor: the read returns and
    the object read holds the values of the one written, each argument
    taken modulo 2^32. *)
Theorem DataDescriptor_round_trip
    (junk junk' : nat -> Z) (crc compressed uncompressed : Z) :
  let w := DataDescriptor.SetUncompressedSize uncompressed
             (DataDescriptor.SetCompressedSize compressed
                (DataDescriptor.SetCrc32 crc (DataDescriptor.new junk'))) in
  let result := Meta.Read (DataDescriptor.new junk, written w) in
  result.1 = inr tt /\ values result.2.1 = values w /\
  DataDescriptor.GetCrc32 result.2.1 = crc mod 2 ^ 32 /\
  DataDescriptor.GetCompressedSize result.2.1 = compressed mod 2 ^ 32 /\
  DataDescriptor.GetUncompressedSize result.2.1 = uncompressed mod 2 ^ 32.
Proof.
  cbv zeta.
  set (w := DataDescriptor.SetUncompressedSize uncompressed _).
  assert (Hv : values w = [u32 (wrap 32 crc); u32 (wrap 32 compressed);
                           u32 (wrap 32 uncompressed)]) by reflexivity.
  assert (Hs : written w = mkStream (le_encode 4 (wrap 32 crc) ++
                 le_encode 4 (wrap 32 compressed) ++
                 le_encode 4 (wrap 32 uncompressed) ++ []) 0).
  { rewrite written_eq, serialized_eq, Hv. reflexivity. }
  rewrite Hs. clear Hs.
  match goal with |- context [Meta.Read (_, ?s0)] => set (s := s0) end.
  assert (F32 : forall x, le_decode (le_encode 4 (wrap 32 x)) = wrap 32 x).
  { intros x. rewrite le_decode_encode. apply (wrap_wrap 32). lia. }
  assert (H0 : field_at s 0 4 = wrap 32 crc).
  { unfold field_at. change (peek s 0 4) with (le_encode 4 (wrap 32 crc)). apply F32. }
  assert (H1 : field_at s 4 4 = wrap 32 compressed).
  { unfold field_at. change (peek s 4 4) with (le_encode 4 (wrap 32 compressed)).
    apply F32. }
  assert (H2 : field_at s 8 4 = wrap 32 uncompressed).
  { unfold field_at. change (peek s 8 4) with (le_encode 4 (wrap 32 uncompressed)).
    apply F32. }
  assert (Hb : has_bytes s 12) by (split; vm_compute; discriminate).
  destruct (Meta.Read (DataDescriptor.new junk, s)) as [r [o' s']] eqn:H.
  apply DataDescriptor_Read_spec in H. cbn [fst snd].
  destruct r as [e|[]]; [exfalso; tauto|].
  destruct H as (_ & _ & Hv').
  unfold DataDescriptor.GetCrc32, DataDescriptor.GetCompressedSize,
    DataDescriptor.GetUncompressedSize, GetValue32.
  rewrite Hv', Hv, H0, H1, H2. cbn [lookup list_lookup]. conjuncts; reflexivity.
Qed.

(** X16.  Writing a CentralFileHeader that was read without exception
    gives back the bytes the read consumed. *)
Theorem CentralFileHeader_Read_Write (junk : nat -> Z) (s : Stream) :
  let result := Meta.Read (CentralFileHeader.new junk, s) in
  result.1 = inr tt ->
  serialized result.2.1 = peek s 0 (Size result.2.1).
Proof.
  cbv zeta.
  pose proof (field_at_range s 28 2 ltac:(lia)) as Hn.
  pose proof (field_at_range s 30 2 ltac:(lia)) as Hm.
  pose proof (field_at_range s 32 2 ltac:(lia)) as Hk.
  destruct (Meta.Read (CentralFileHeader.new junk, s)) as [r [o' s']] eqn:H.
  apply CentralFileHeader_Read_spec in H. cbv zeta in H. cbn [fst snd].
  intros ->. destruct H as (Hb & Hsig & -> & Hv).
  assert (Ho : 0 <= offset s) by apply Hb.
  assert (Hsub : forall k, k <= 46 -> has_bytes s k)
    by (intros; eapply has_bytes_less; [exact Hb | lia]).
  assert (Hname : length (peek s 46 (field_at s 28 2)) = Z.to_nat (field_at s 28 2)).
  { apply length_peek_at; [lia | lia |]. eapply has_bytes_less; [exact Hb | lia]. }
  assert (Hextra : length (peek s (46 + field_at s 28 2) (field_at s 30 2))
                   = Z.to_nat (field_at s 30 2)).
  { apply length_peek_at; [lia | lia |]. eapply has_bytes_less; [exact Hb | lia]. }
  assert (Hcomment : length (peek s (46 + field_at s 28 2 + field_at s 30 2)
                               (field_at s 32 2))
                     = Z.to_nat (field_at s 32 2)).
  { apply length_peek_at; [lia | lia |]. eapply has_bytes_less; [exact Hb | lia]. }
  rewrite serialized_eq. unfold Size. rewrite Hv. unfold central_header_at.
  cbn [flat_map Value_bytes foldr Value_Size].
  rewrite Hname, Hextra, Hcomment, !Z2Nat.id by lia.
  rewrite !le_encode_field2, !le_encode_field4 by (lia || (apply Hsub; lia)).
  rewrite app_nil_r, Z.add_0_r.
  rewrite !peek_split by lia. norm_goal_sums. reflexivity.
Qed.

Lemma CentralFileHeader_Read_Write_witness :
  let s := mkStream (serialized (central_header "a.txt") ++ [x01; x02]) 0 in
  serialized (Meta.Read (CentralFileHeader.new no_junk, s)).2.1 = peek s 0 51.
Proof.
  cbv zeta.
  apply (CentralFileHeader_Read_Write no_junk
           (mkStream (serialized (central_header "a.txt") ++ [x01; x02]) 0)).
  vm_compute. reflexivity.
Defined.

(** ** LocalFileHeader, written and read back *)

(** What a reader of LocalFileHeader finds in a stream made of the eleven
    fixed fields and two runs of bytes whose lengths are the two length
    fields. *)
Lemma local_header_at_bytes a0 a1 a2 a3 a4 a5 a6 a7 a8
    (name extra rest : list byte) :
  let n := Z.of_nat (length name) in
  let m := Z.of_nat (length extra) in
  let s := mkStream
    (le_encode 4 a0 ++ le_encode 2 a1 ++ le_encode 2 a2 ++ le_encode 2 a3 ++
     le_encode 2 a4 ++ le_encode 2 a5 ++ le_encode 4 a6 ++ le_encode 4 a7 ++
     le_encode 4 a8 ++ le_encode 2 n ++ le_encode 2 m ++
     name ++ extra ++ rest) 0 in
  n < 2 ^ 16 -> m < 2 ^ 16 ->
  has_bytes s (30 + n + m) /\
  local_header_at s =
    [u32 (wrap 32 a0); u16 (wrap 16 a1); u16 (wrap 16 a2); u16 (wrap 16 a3);
     u16 (wrap 16 a4); u16 (wrap 16 a5); u32 (wrap 32 a6); u32 (wrap 32 a7);
     u32 (wrap 32 a8); u16 n; u16 m; vec name; vec extra].
Proof.
  cbv zeta. intros Hn Hm.
  set (n := Z.of_nat (length name)) in *.
  set (m := Z.of_nat (length extra)) in *.
  set (pre := le_encode 4 a0 ++ le_encode 2 a1 ++ le_encode 2 a2 ++ le_encode 2 a3 ++
     le_encode 2 a4 ++ le_encode 2 a5 ++ le_encode 4 a6 ++ le_encode 4 a7 ++
     le_encode 4 a8 ++ le_encode 2 n ++ le_encode 2 m).
  match goal with |- has_bytes ?s0 _ /\ _ => set (s := s0) end.
  assert (Hpre : length pre = 30%nat) by reflexivity.
  assert (Hs : s = mkStream (pre ++ name ++ extra ++ rest) 0) by reflexivity.
  split.
  { rewrite Hs. unfold has_bytes, size. cbn [offset content].
    rewrite !length_app, Hpre. lia. }
  assert (F16 : forall x, le_decode (le_encode 2 x) = wrap 16 x)
    by (intros; apply le_decode_encode).
  assert (F32 : forall x, le_decode (le_encode 4 x) = wrap 32 x)
    by (intros; apply le_decode_encode).
  assert (Hfn : field_at s 26 2 = n).
  { unfold field_at. change (peek s 26 2) with (le_encode 2 n).
    rewrite F16. apply wrap_small. lia. }
  assert (Hfm : field_at s 28 2 = m).
  { unfold field_at. change (peek s 28 2) with (le_encode 2 m).
    rewrite F16. apply wrap_small. lia. }
  unfold local_header_at. rewrite Hfn, Hfm.
  assert (Pname : peek s 30 n = name).
  { rewrite Hs. apply peek_at_app; [by rewrite Hpre | done]. }
  assert (Pextra : peek s (30 + n) m = extra).
  { rewrite Hs. rewrite (app_assoc pre name). apply peek_at_app; [|done].
    rewrite length_app, Hpre. lia. }
  rewrite Pname, Pextra. unfold field_at.
  change (peek s 0 4) with (le_encode 4 a0). change (peek s 4 2) with (le_encode 2 a1).
  change (peek s 6 2) with (le_encode 2 a2). change (peek s 8 2) with (le_encode 2 a3).
  change (peek s 10 2) with (le_encode 2 a4). change (peek s 12 2) with (le_encode 2 a5).
  change (peek s 14 4) with (le_encode 4 a6). change (peek s 18 4) with (le_encode 4 a7).
  change (peek s 22 4) with (le_encode 4 a8).
  rewrite !F16, !F32. reflexivity.
Qed.

(** X17.  A LocalFileHeader object whose signature field holds 0x04034b50
    and whose two length fields hold the number of bytes of its name and
    extra-field buffers, written to a stream and read back by a new
    LocalFileHeader: the read returns, has consumed the [Size()] bytes
    written, and the object read is the object written, field by field. *)
Theorem LocalFileHeader_Write_Read (junk : nat -> Z) (this : StructuredObject) :
  instance_of LocalFileHeader.fields this ->
  Forall representable (values this) ->
  GetValue32 0 this = Signatures.LocalFileHeader ->
  LocalFileHeader.GetFileNameLength this = Z.of_nat (length (GetValueN 11 this)) ->
  LocalFileHeader.GetExtraFieldLength this = Z.of_nat (length (GetValueN 12 this)) ->
  Meta.Read (LocalFileHeader.new junk, written this) =
    (inr tt, (this, advance (Size this) (written this))).
Proof.
  destruct this as [fs vs]. intros [Hf Hv] Hr Hsig Hn Hm.
  cbn [fields values] in *. subst fs. unfold LocalFileHeader.fields in Hv.
  instance_values Hv.
  unfold LocalFileHeader.GetFileNameLength, LocalFileHeader.GetExtraFieldLength,
    GetValue16, GetValue32, GetValueN in Hsig, Hn, Hm.
  cbn [lookup list_lookup] in Hsig, Hn, Hm. subst.
  rewrite !Forall_cons in Hr. cbn [representable] in Hr.
  destruct Hr as (R0 & R1 & R2 & R3 & R4 & R5 & R6 & R7 & R8 & R9 & R10 & _).
  rewrite written_eq, serialized_eq. cbn [values flat_map Value_bytes].
  match goal with
  | |- context [mkStream (_ ++ le_encode 2 ?a1 ++ le_encode 2 ?a2 ++ le_encode 2 ?a3
                          ++ le_encode 2 ?a4 ++ le_encode 2 ?a5 ++ le_encode 4 ?a6
                          ++ le_encode 4 ?a7 ++ le_encode 4 ?a8 ++ _ ++ _
                          ++ ?name ++ ?extra ++ [])] =>
      pose proof (local_header_at_bytes Signatures.LocalFileHeader
                    a1 a2 a3 a4 a5 a6 a7 a8 name extra []
                    ltac:(lia) ltac:(lia)) as [Hb Hat]
  end.
  cbv zeta in Hb, Hat.
  match type of Hb with has_bytes ?s0 _ => set (s := s0) in * end.
  rewrite !wrap_small in Hat by (done || (vm_compute; split; discriminate)).
  destruct (Meta.Read (LocalFileHeader.new junk, s)) as [r [o' s']] eqn:H.
  pose proof (Meta_Read_inv _ _ _ _ _ H) as (vs & _ & Ho').
  apply LocalFileHeader_Read_spec in H. cbv zeta in H.
  assert (Hfn : field_at s 26 2 = Z.of_nat (length data)).
  { change (field_at s 26 2) with (GetValue16 9 (local_header_at s)).
    by rewrite Hat. }
  assert (Hfm : field_at s 28 2 = Z.of_nat (length data0)).
  { change (field_at s 28 2) with (GetValue16 10 (local_header_at s)).
    by rewrite Hat. }
  assert (Hsig : field_at s 0 4 = Signatures.LocalFileHeader).
  { change (field_at s 0 4) with (GetValue32 0 (local_header_at s)).
    by rewrite Hat. }
  rewrite Hfn, Hfm, Hat in H.
  destruct r as [e|[]].
  - exfalso. destruct H as [[_ H] | [_ H]]; tauto.
  - destruct H as (_ & _ & -> & Hv'). subst o'. cbn [values] in Hv'. subst vs.
    do 3 f_equal. unfold Size. cbn [foldr Value_Size]. lia.
Qed.

Lemma LocalFileHeader_Write_Read_witness :
  LocalFileHeader.GetFileName
    (Meta.Read (LocalFileHeader.new no_junk, written (local_header "a.txt"))).2.1
  = "a.txt"%string.
Proof.
  rewrite (LocalFileHeader_Write_Read no_junk (local_header "a.txt")).
  - reflexivity.
  - split; [reflexivity | repeat constructor].
  - cbv [local_header LocalFileHeader.SetFileNameLength SetValue16 SetValue32 SetValue
         values LocalFileHeader.new construct fresh LocalFileHeader.fields imap insert
         list_insert compose].
    repeat (constructor;
            [first [exact I | split; vm_compute; [discriminate | reflexivity]] |]).
    constructor.
  - reflexivity.
  - reflexivity.
  - reflexivity.
Defined.
